(** * Curbside management tools: a shallow embedding of the tabular logic

    The repository is a pipeline of geoprocessing scripts (T0 .. T4 and
    curbsidelib).  This development embeds the data transformations the
    scripts perform on tables, lists and strings, and proves the properties
    the specification states about them.

    Conventions of the embedding:
    - a Python float or int is an exact rational [Q]; rounding is not modelled;
    - a Python exception that leaves a function is the result [None];
    - a pandas row is a finite map from column names to cells;
    - the vendor platform (arcpy) is only present through the tables it hands
      to the scripts and receives from them. *)

From Stdlib Require Import ZArith QArith Qminmax Qabs Qround Lia Lqa Ascii String DecimalString.
From stdpp Require Import gmap strings list sorting.

Open Scope string_scope.

(** ** Python builtins used by the scripts *)

Module Py.

(** [str.isdigit] and [str.isspace] on the ASCII range. *)
Definition is_digit (c : ascii) : bool :=
  let n := nat_of_ascii c in (48 <=? n)%nat && (n <=? 57)%nat.

Definition is_space (c : ascii) : bool :=
  let n := nat_of_ascii c in
  (n =? 32)%nat || ((9 <=? n)%nat && (n <=? 13)%nat) || ((28 <=? n)%nat && (n <=? 31)%nat).

Definition digit_value (c : ascii) : Z := Z.of_nat (nat_of_ascii c) - 48.

Fixpoint lstrip (s : string) : string :=
  match s with
  | String c r => if is_space c then lstrip r else s
  | EmptyString => EmptyString
  end.

Fixpoint rstrip (s : string) : string :=
  match s with
  | String c r =>
      match rstrip r with
      | EmptyString => if is_space c then EmptyString else String c EmptyString
      | r' => String c r'
      end
  | EmptyString => EmptyString
  end.

(** [s.strip()] *)
Definition strip (s : string) : string := rstrip (lstrip s).

(** [s.split(sep)] for a one-character separator: the pieces between the
    occurrences of [sep]; never the empty list. *)
Fixpoint split (sep : ascii) (s : string) : list string :=
  match s with
  | EmptyString => [EmptyString]
  | String c r =>
      if Ascii.eqb c sep then EmptyString :: split sep r
      else match split sep r with
           | p :: ps => String c p :: ps
           | [] => [String c EmptyString]
           end
  end.

(** ["".join(filter(str.isdigit, s))] *)
Fixpoint filter_digits (s : string) : string :=
  match s with
  | EmptyString => EmptyString
  | String c r => if is_digit c then String c (filter_digits r) else filter_digits r
  end.

(** The digits of an [int()] literal: decimal digits, with single
    underscores allowed between two digits. [prev] tells whether the
    previous character was a digit. *)
Fixpoint int_digits (acc : Z) (prev : bool) (s : string) : option Z :=
  match s with
  | EmptyString => if prev then Some acc else None
  | String c r =>
      if is_digit c then int_digits (10 * acc + digit_value c) true r
      else if Ascii.eqb c "_" && prev then int_digits acc false r
      else None
  end.

(** [int(s)] on a string: surrounding white space, an optional sign, then
    the digits. [None] is ValueError. *)
Definition int (s : string) : option Z :=
  match strip s with
  | String "-" r => Z.opp <$> int_digits 0 false r
  | String "+" r => int_digits 0 false r
  | r => int_digits 0 false r
  end.

(** [str(n)] for a natural number. *)
Definition str_nat (n : nat) : string := NilZero.string_of_uint (Nat.to_uint n).

(** [sub in s] on strings. *)
Fixpoint contains (sub s : string) : bool :=
  String.prefix sub s ||
  match s with
  | EmptyString => false
  | String _ r => contains sub r
  end.

(** Membership of a character in a string. *)
Fixpoint has_char (c : ascii) (s : string) : bool :=
  match s with
  | EmptyString => false
  | String d r => Ascii.eqb d c || has_char c r
  end.

(** [l[i]] on a list or a tuple: a negative index counts from the end;
    [None] is IndexError. *)
Definition getitem {A : Type} (l : list A) (i : Z) : option A :=
  if (0 <=? i)%Z then l !! Z.to_nat i
  else if (- Z.of_nat (length l) <=? i)%Z then l !! Z.to_nat (Z.of_nat (length l) + i)
  else None.

(** [s.replace(old, new)] for a pattern that is not empty: the occurrences
    of [old] found from left to right without overlap are replaced; [skip]
    characters of the occurrence just replaced remain to be passed. *)
Fixpoint replace_from (old new : string) (skip : nat) (s : string) : string :=
  match s with
  | EmptyString => EmptyString
  | String c r =>
      match skip with
      | S k => replace_from old new k r
      | O =>
          if String.prefix old s
          then new +:+ replace_from old new (String.length old - 1) r
          else String c (replace_from old new 0 r)
      end
  end.

(** [s.replace(old, new)]; with the empty pattern [new] is put before
    every character and at the end. *)
Definition replace (old new s : string) : string :=
  match old with
  | EmptyString =>
      new +:+ String.concat EmptyString
                ((fun c => String c new) <$> list_ascii_of_string s)
  | _ => replace_from old new 0 s
  end.

(** [s.strip(chars)]: the leading and trailing characters that occur in
    [chars] are removed. *)
Fixpoint lstrip_chars (chars s : string) : string :=
  match s with
  | String c r => if has_char c chars then lstrip_chars chars r else s
  | EmptyString => EmptyString
  end.

Fixpoint rstrip_chars (chars s : string) : string :=
  match s with
  | String c r =>
      match rstrip_chars chars r with
      | EmptyString => if has_char c chars then EmptyString else String c EmptyString
      | r' => String c r'
      end
  | EmptyString => EmptyString
  end.

Definition strip_chars (chars s : string) : string :=
  rstrip_chars chars (lstrip_chars chars s).

(** [sep.join(l)] on a list of strings. *)
Definition join (sep : string) (l : list string) : string := String.concat sep l.

End Py.

(** ** Cells of a pandas table *)

(** A cell holds a string, a number, NaN (a missing number) or None (a
    missing object). *)
Inductive cell : Type :=
  | CStr (s : string)
  | CNum (q : Q)
  | CNaN
  | CNone.

(** Python's [==] on cells: NaN equals nothing, numbers compare by value. *)
Definition py_eq (a b : cell) : bool :=
  match a, b with
  | CStr x, CStr y => String.eqb x y
  | CNum x, CNum y => Qeq_bool x y
  | CNone, CNone => true
  | _, _ => false
  end.

Definition as_str (c : cell) : option string :=
  match c with CStr s => Some s | _ => None end.

Notation row := (gmap string cell).

(** A pandas DataFrame: the column labels and the rows in index order. *)
Record DataFrame : Type := mkDataFrame {
  columns : list string;
  rows : list row
}.

(** [df[c]]: KeyError when [c] is not a column. *)
Definition column (df : DataFrame) (c : string) : option (list cell) :=
  if decide (c ∈ columns df) then mapM (fun r : row => r !! c) (rows df) else None.

(** [df[c] = v] for a scalar [v]: the column is overwritten or appended. *)
Definition set_scalar (c : string) (v : cell) (df : DataFrame) : DataFrame :=
  {| columns := if decide (c ∈ columns df) then columns df else (columns df ++ [c])%list;
     rows := (fun r : row => <[c := v]> r) <$> rows df |}.

(** [df[cols]]: KeyError when a label of [cols] is not a column. *)
Definition select (cols : list string) (df : DataFrame) : option DataFrame :=
  if forallb (fun c => bool_decide (c ∈ columns df)) cols
  then Some {| columns := cols;
               rows := (fun r : row => filter (fun kv => kv.1 ∈ cols) r) <$> rows df |}
  else None.

Definition is_null (c : cell) : bool :=
  match c with CNaN | CNone => true | _ => false end.

(** Equality of join keys in [pd.merge]: as [==], and null keys match
    each other. *)
Definition key_eq (a b : cell) : bool := py_eq a b || (is_null a && is_null b).

(** [pd.merge(left, right, on=key, how="left")]: the rows of [left] in
    order, each paired with the rows of [right] that have its key, in
    their order; a row of [left] without a match gets NaN in the columns of
    [right].  The columns other than [key] are taken to be disjoint (no
    suffixes). *)
Definition key_match (key : string) (l r : row) : bool :=
  match l !! key, r !! key with
  | Some a, Some b => key_eq a b
  | _, _ => false
  end.

Definition merge_left (key : string) (left right : DataFrame) : option DataFrame :=
  if bool_decide (key ∈ columns left) && bool_decide (key ∈ columns right) then
    let nan_row : row := list_to_map ((fun c => (c, CNaN)) <$> columns right) in
    Some {| columns := (columns left ++ filter (fun c => c ≠ key) (columns right))%list;
            rows := flat_map (fun l : row =>
                      match List.filter (key_match key l) (rows right) with
                      | [] => [l ∪ nan_row]
                      | ms => (fun r : row => l ∪ r) <$> ms
                      end) (rows left) |}
  else None.

(** [df[name] = df.apply(f, axis=1)]: [f] is called on every row in
    order; an exception in any call leaves the function. *)
Definition apply_rows (name : string) (f : row → option cell) (df : DataFrame)
  : option DataFrame :=
  vals ← mapM f (rows df);
  Some {| columns := if decide (name ∈ columns df) then columns df else (columns df ++ [name])%list;
          rows := zip_with (fun (r : row) v => <[name := v]> r) (rows df) vals |}.

(** [df.drop(cols, axis=1)]: KeyError when a label is not a column. *)
Definition drop (cols : list string) (df : DataFrame) : option DataFrame :=
  if forallb (fun c => bool_decide (c ∈ columns df)) cols
  then Some {| columns := filter (fun c => c ∉ cols) (columns df);
               rows := (fun r : row => filter (fun kv => kv.1 ∉ cols) r) <$> rows df |}
  else None.

(** [df[cols].sum(axis=1)] on one row: NaN is skipped; [None] when a label
    is missing or a cell is not numeric. *)
Definition row_sum (cols : list string) (r : row) : option Q :=
  foldl (fun acc c =>
           s ← acc;
           v ← r !! c;
           match v with
           | CNum q => Some (s + q)%Q
           | CNaN => Some s
           | _ => None
           end) (Some 0%Q) cols.

(** ** T4_Recommend_Curbside_Treatments.py *)

Module T4.

Section Sieves.

(** [str(x)] of a float; how Python prints floats is not modelled. *)
Variable float_str : Q → string.

Definition py_str (c : cell) : string :=
  match c with
  | CStr s => s
  | CNum q => float_str q
  | CNaN => "nan"
  | CNone => "None"
  end.

(** The loop of [modal_priority_sieve]: the last of the columns
    Modal_Priority_1 .. Modal_Priority_7 that holds [mode], or -1. *)
Definition modal_rank (r : row) (mode : cell) : option Z :=
  foldl (fun acc i =>
           rank ← acc;
           v ← r !! ("Modal_Priority_" +:+ Py.str_nat i);
           Some (if py_eq v mode then Z.of_nat i else rank))
        (Some (-1)%Z) (seq 1 7).

Definition modal_priority_sieve (r : row) : option Z :=
  mode ← r !! "Mode Priority Applicable";
  rank ← modal_rank r mode;
  rr ← r !! "Appropriate Priority Rank Range";
  s ← as_str rr;
  let rank_range := Py.split "-" s in
  lo ← rank_range !! 0%nat ≫= Py.int;
  if (lo <=? rank)%Z then
    hi ← rank_range !! 1%nat ≫= Py.int;
    Some (if (rank <=? hi)%Z then 1%Z else 0%Z)
  else Some 0%Z.

Definition land_use_sieve (r : row) : option Z :=
  alu ← r !! "Appropriate Land Use";
  s ← as_str alu;
  let land_uses := Py.strip <$> Py.split "," s in
  lu ← r !! "Land_Use";
  Some (if existsb (fun x => py_eq lu (CStr x)) land_uses then 1%Z else 0%Z).

Definition place_type_sieve (r : row) : option Z :=
  pt ← r !! "Place Types";
  s ← as_str pt;
  place_types ← Py.int (Py.filter_digits s);
  dpt ← r !! "Place_Type";
  s' ← as_str dpt;
  data_place_type ← Py.int (Py.filter_digits s');
  Some (if (data_place_type <=? place_types)%Z then 1%Z else 0%Z).

(** One foot in metres. *)
Definition foot : Q := 3048 # 10000.

Definition row_available_sieve (r : row) : option Z :=
  t ← r !! "Total ROW Necessary Per Direction";
  s ← as_str t;
  n ← Py.int (Py.filter_digits s);
  let necessary_row := (inject_Z n * foot)%Q in
  a ← r !! "Available_ROW";
  match a with
  | CNum q => Some (if Qle_bool necessary_row q then 1%Z else 0%Z)
  | CNaN => Some 0%Z
  | _ => None
  end.

Definition success_metric_sieve (r : row) : option cell :=
  m ← r !! "Mode Priority Applicable";
  let mode := py_str m in
  let success_col := mode +:+ "_Success_Metric" in
  let success_value := default (CNum 0) (r !! success_col) in
  match success_value with
  | CNum q => Some (CNum (1 - q))
  | CNaN => Some CNaN
  | _ => None
  end.

Definition int_cell (f : row → option Z) (r : row) : option cell :=
  (fun z => CNum (inject_Z z)) <$> f r.

(** The global [sieves] dict, in insertion order. *)
Definition sieves : list (string * (row → option cell)) :=
  [ ("Modal_Priority_Sieve", int_cell modal_priority_sieve);
    ("Land_Use_Sieve", int_cell land_use_sieve);
    ("Place_Type_Sieve", int_cell place_type_sieve);
    ("Row_Available_Sieve", int_cell row_available_sieve);
    ("Success_Metric_Sieve", success_metric_sieve) ].

Definition modal_priorities : list string :=
  (fun i => "Modal_Priority_" +:+ Py.str_nat i) <$> seq 1 7.

Definition success_metrics : list string :=
  (fun mode => mode +:+ "_Success_Metric") <$>
  ["Bicycle"; "Pedestrian"; "Transit"; "Commerce"; "Storage"; "Automobility"; "Ridehail"].

Definition treatment_fields : list string :=
  ["Mode Priority Applicable"; "Appropriate Priority Rank Range"; "Place Types";
   "Appropriate Land Use"; "Total ROW Necessary Per Direction"].

(** [df[name] = v] for every [name] of [names] that is not yet a column. *)
Definition fill_missing (names : list string) (v : cell) (df : DataFrame) : DataFrame :=
  foldl (fun d field => if decide (field ∈ columns d) then d else set_scalar field v d)
        df names.

(** The last two assignments of [create_intermediate_table] on one row. *)
Definition sum_and_apply (r : row) : option row :=
  s ← row_sum (sieves.*1) r;
  let r' := <["Sum_Sieve" := CNum s]> r in
  Some (<["Treatment_Applied" :=
            CNum (if Qeq_bool (inject_Z (Z.of_nat (length sieves))) s then 1 else 0)]> r').

Definition create_intermediate_table (data_df treatment_df : DataFrame)
    (segment_id_col : string) : option DataFrame :=
  let treatment_id_col := "Treatment_ID" in
  let treatment_name_col := "Treatments" in
  oids ← column data_df segment_id_col;
  skeleton ← mapM (fun oid =>
                mapM (fun t : row =>
                        tid ← t !! treatment_id_col;
                        tname ← t !! treatment_name_col;
                        Some (<[treatment_name_col := tname]>
                              (<[treatment_id_col := tid]>
                               ({[ segment_id_col := oid ]} : row))))
                     (rows treatment_df)) oids;
  let treatment_intermediate :=
    {| columns := [segment_id_col; treatment_id_col; treatment_name_col];
       rows := concat skeleton |} in
  let data_df := fill_missing modal_priorities (CStr "None") data_df in
  let data_df := fill_missing success_metrics (CNum 0) data_df in
  let cols_to_select :=
    ([segment_id_col] ++ modal_priorities ++ ["Place_Type"; "Available_ROW"; "Land_Use"]
     ++ success_metrics)%list in
  data_sliced ← select cols_to_select data_df;
  treatment_intermediate ← merge_left segment_id_col treatment_intermediate data_sliced;
  treatment_sliced ← select (treatment_id_col :: treatment_fields) treatment_df;
  treatment_intermediate ← merge_left treatment_id_col treatment_intermediate treatment_sliced;
  treatment_intermediate ←
    foldl (fun acc sv => d ← acc; apply_rows sv.1 sv.2 d) (Some treatment_intermediate) sieves;
  treatment_intermediate ←
    drop (modal_priorities ++ treatment_fields)%list treatment_intermediate;
  scored ← mapM sum_and_apply (rows treatment_intermediate);
  Some {| columns := (filter (fun c => c ∉ ["Sum_Sieve"; "Treatment_Applied"])
                             (columns treatment_intermediate)
                      ++ ["Sum_Sieve"; "Treatment_Applied"])%list;
          rows := scored |}.

End Sieves.

End T4.


(** [holds_mode r mode i]: column Modal_Priority_i of [r] holds [mode]. *)
Definition priority_col (i : nat) : string := "Modal_Priority_" +:+ Py.str_nat i.

Definition holds_mode (r : row) (mode : cell) (i : nat) : bool :=
  match r !! priority_col i with
  | Some v => py_eq v mode
  | None => false
  end.

(** A row of the treatment table joined to a segment, used as an example. *)
Definition example_row : row :=
  list_to_map
    [ ("Mode Priority Applicable", CStr "Bicycle");
      ("Appropriate Priority Rank Range", CStr "2-4");
      ("Modal_Priority_1", CStr "Transit");
      ("Modal_Priority_2", CStr "Bicycle");
      ("Modal_Priority_3", CStr "Pedestrian");
      ("Modal_Priority_4", CStr "Bicycle");
      ("Modal_Priority_5", CStr "None");
      ("Modal_Priority_6", CStr "None");
      ("Modal_Priority_7", CStr "None") ].


(** A centerline segment whose Bicycle success metric holds the
    value -1, and a bicycle treatment whose rank range the segment misses. *)
Definition segment_table : DataFrame :=
  {| columns := ["OBJECTID"; "Modal_Priority_1"; "Modal_Priority_2"; "Place_Type";
                 "Available_ROW"; "Land_Use"; "Bicycle_Success_Metric"];
     rows := [ list_to_map
                 [ ("OBJECTID", CNum 1);
                   ("Modal_Priority_1", CStr "Transit");
                   ("Modal_Priority_2", CStr "Bicycle");
                   ("Place_Type", CStr "PT2");
                   ("Available_ROW", CNum 5);
                   ("Land_Use", CStr "Retail");
                   ("Bicycle_Success_Metric", CNum (-1)) ] ] |}.

Definition treatment_table : DataFrame :=
  {| columns := ["Treatment_ID"; "Treatments"; "Mode Priority Applicable";
                 "Appropriate Priority Rank Range"; "Place Types";
                 "Appropriate Land Use"; "Total ROW Necessary Per Direction"];
     rows := [ list_to_map
                 [ ("Treatment_ID", CNum 1);
                   ("Treatments", CStr "Bike lane");
                   ("Mode Priority Applicable", CStr "Bicycle");
                   ("Appropriate Priority Rank Range", CStr "1-1");
                   ("Place Types", CStr "PT3");
                   ("Appropriate Land Use", CStr "Office, Retail");
                   ("Total ROW Necessary Per Direction", CStr "6 ft") ] ] |}.

(** The five sieve cells of a scored row. *)
Definition sieve_cells (r : row) : list (option cell) :=
  (fun name => r !! name) <$>
  ["Modal_Priority_Sieve"; "Land_Use_Sieve"; "Place_Type_Sieve";
   "Row_Available_Sieve"; "Success_Metric_Sieve"].


(** ** curbsidelib.py: angles *)

Module Csl.

(** Python's [x % m] on numbers, for a positive modulus: [x - m * floor(x / m)]. *)
Definition py_mod (x m : Q) : Q := x - m * inject_Z (Qfloor (x / m)).

(** Python's [min(a, b)]: [b] when [b < a], otherwise [a]. *)
Definition py_min (a b : Q) : Q :=
  match Qcompare b a with
  | Lt => b
  | _ => a
  end.

Definition find_smallest_angle (angle1 angle2 : Q) : Q :=
  let diff := py_mod (angle1 - angle2) 180 in
  let diff := py_min diff (180 - diff) in
  diff.

(** [(90 - angle) % 360] *)
Definition convert_to_azimuth (angle : Q) : Q := py_mod (90 - angle) 360.

(** [construct_index_dict]: the field names are strings, so that [str]
    leaves them as they are; a name that occurs twice keeps its last index. *)
Definition construct_index_dict (field_names : list string) (index_start : Z)
  : gmap string Z :=
  foldl (fun (dict : gmap string Z) (p : Z * string) => <[p.2 := p.1]> dict) ∅
        (imap (fun index field => ((index_start + Z.of_nat index)%Z, field)) field_names).

(** [retrieve_row_values]: the inner [None] is Python's None, the outer one
    the IndexError of [row[index]]. *)
Definition retrieve_row_values {A : Type} (row : list A) (field_names : list string)
    (index_dict : gmap string Z) : option (list (option A)) :=
  mapM (fun field =>
          match index_dict !! field with
          | None => Some None
          | Some index => Some <$> Py.getitem row index
          end) field_names.

End Csl.


(** ** The class shared_row_data_evaluator
    (T3_ROW_and_Curb_Summary_Statistics.py and curbsidelib.py define it with
    the same text) *)

Module shared_row_data_evaluator.

(** The shared-row table: numeric columns only.  A row maps a column to
    its width; a column a row does not map is NaN there. *)
Record NumFrame : Type := mkNumFrame {
  ncolumns : list string;
  nindex : list Z;
  nrows : list (gmap string Q)
}.

(** The number in a cell; a missing number counts as 0, which is what it
    is after the [fillna(0)] of the initializer. *)
Definition num (r : gmap string Q) (c : string) : Q := default 0%Q (r !! c).

(** [df[cols].sum(axis=1)] on one row. *)
Definition sum_axis1 (cols : list string) (r : gmap string Q) : Q :=
  foldl (fun s c => (s + num r c)%Q) 0%Q cols.

(** [df[c] = values], the values computed row by row. *)
Definition set_column (c : string) (f : gmap string Q → Q) (df : NumFrame) : NumFrame :=
  {| ncolumns := if decide (c ∈ ncolumns df) then ncolumns df else (ncolumns df ++ [c])%list;
     nindex := nindex df;
     nrows := (fun r => <[c := f r]> r) <$> nrows df |}.

(** [df[numeric] = df[numeric].fillna(0)] *)
Definition fillna0 (df : NumFrame) : NumFrame :=
  {| ncolumns := ncolumns df;
     nindex := nindex df;
     nrows := (fun r => foldl (fun r c => match r !! c with
                                          | None => <[c := 0%Q]> r
                                          | Some _ => r
                                          end) r (ncolumns df)) <$> nrows df |}.

(** [list.sort()] on column names. *)
Definition name_le (a b : string) : Prop := String.leb a b = true.

#[global] Instance name_le_dec : RelDecision name_le.
Proof. intros a b. unfold name_le. apply _. Defined.

Definition sort_names (l : list string) : list string := merge_sort name_le l.

Record state : Type := mkState {
  sr_df : NumFrame;
  scenario_dfs : gmap string NumFrame;
  added_columns : gmap string (list string);
  LTL_List : list string;
  RTL_List : list string;
  left_sidewalk_slices : list string;
  left_spec_slices : list string;
  center_width_field : list string;
  right_spec_slices : list string;
  right_sidewalk_slices : list string;
  spec_row_fields : list string;
  row_slices : list string
}.

Definition with_frames (st : state) (sr : NumFrame) (sc : gmap string NumFrame)
    (ac : gmap string (list string)) : state :=
  {| sr_df := sr; scenario_dfs := sc; added_columns := ac;
     LTL_List := LTL_List st; RTL_List := RTL_List st;
     left_sidewalk_slices := left_sidewalk_slices st;
     left_spec_slices := left_spec_slices st;
     center_width_field := center_width_field st;
     right_spec_slices := right_spec_slices st;
     right_sidewalk_slices := right_sidewalk_slices st;
     spec_row_fields := spec_row_fields st;
     row_slices := row_slices st |}.

(** [__init__]; [None] is the AssertionError on a table whose index has a
    repeated label. *)
Definition init (shared_row_df : NumFrame) : option state :=
  let df := fillna0 shared_row_df in
  if bool_decide (NoDup (nindex df)) then
    let ltl := sort_names (List.filter (Py.contains "Left_Through_Lane") (ncolumns df)) in
    let rtl := sort_names (List.filter (Py.contains "Right_Through_Lane") (ncolumns df)) in
    let df := set_column "Right_Thru_Lane_Widths" (sum_axis1 rtl) df in
    let df := set_column "Left_Thru_Lane_Widths" (sum_axis1 ltl) df in
    let present := List.filter (fun i => bool_decide (i ∈ ncolumns df)) in
    let lss := present ["Left_Sidewalk_Frontage_Zone"; "Left_Sidewalk_Through_Zone";
                        "Left_Sidewalk_Furniture_Zone"] in
    let lsp := ["Left_Bike_Lane"; "Left_Bike_Buffer"; "Left_Parking_Lane";
                "Left_Transit_Lane"] in
    let cwf := ["Center_Lane"] in
    let rsp := ["Right_Transit_Lane"; "Right_Parking_Lane"; "Right_Bike_Buffer";
                "Right_Bike_Lane"] in
    let rss := present ["Right_Sidewalk_Furniture_Zone"; "Right_Sidewalk_Through_Zone";
                        "Right_Sidewalk_Frontage_Zone"] in
    let srf := (lss ++ lsp ++ ltl ++ cwf ++ rtl ++ rsp ++ rss)%list in
    let rsl := present srf in
    let df := set_column "Total_ROW_Width" (sum_axis1 rsl) df in
    let df := set_column "Base_Total_ROW_Width" (fun r => num r "Total_ROW_Width") df in
    let df := set_column "Unused_ROW_Width" (fun _ => 0%Q) df in
    let df := set_column "Left_Sidewalk_Width" (sum_axis1 lss) df in
    let df := set_column "Right_Sidewalk_Width" (sum_axis1 rss) df in
    let df := set_column "Curb_To_Curb_Width"
                (fun r => (num r "Total_ROW_Width"
                           - (num r "Left_Sidewalk_Width" + num r "Right_Sidewalk_Width"))%Q)
                df in
    Some {| sr_df := df;
            scenario_dfs := ∅;
            added_columns :=
              {[ "BASELINE_ROW" :=
                   ["Total_ROW_Width"; "Base_Total_ROW_Width"; "Unused_ROW_Width";
                    "Left_Sidewalk_Width"; "Right_Sidewalk_Width"; "Curb_To_Curb_Width"] ]};
            LTL_List := ltl; RTL_List := rtl;
            left_sidewalk_slices := lss; left_spec_slices := lsp;
            center_width_field := cwf; right_spec_slices := rsp;
            right_sidewalk_slices := rss; spec_row_fields := srf;
            row_slices := rsl |}
  else None.

(** The five assignments of [update_row] on a table. *)
Definition update_frame (st : state) (scen_df : NumFrame) : NumFrame :=
  let df := set_column "Total_ROW_Width" (sum_axis1 (row_slices st)) scen_df in
  let df := set_column "Unused_ROW_Width"
              (fun r => (num r "Base_Total_ROW_Width" - num r "Total_ROW_Width")%Q) df in
  let df := set_column "Left_Sidewalk_Width" (sum_axis1 (left_sidewalk_slices st)) df in
  let df := set_column "Right_Sidewalk_Width" (sum_axis1 (right_sidewalk_slices st)) df in
  set_column "Curb_To_Curb_Width"
    (fun r => ((num r "Total_ROW_Width" + num r "Unused_ROW_Width")
               - (num r "Left_Sidewalk_Width" + num r "Right_Sidewalk_Width"))%Q) df.

(** [update_row]: the scenario's table when [scenario] is a key of
    [scenario_dfs], the main table otherwise. *)
Definition update_row (st : state) (scenario : string) : state :=
  match scenario_dfs st !! scenario with
  | Some scen_df =>
      let ac := match added_columns st !! scenario with
                | Some _ => added_columns st
                | None => match added_columns st !! "BASELINE_ROW" with
                          | Some base => <[scenario := base]> (added_columns st)
                          | None => added_columns st
                          end
                end in
      with_frames st (sr_df st) (<[scenario := update_frame st scen_df]> (scenario_dfs st)) ac
  | None => with_frames st (update_frame st (sr_df st)) (scenario_dfs st) (added_columns st)
  end.

(** [self.scenario_dfs.setdefault(scenario_key, self.sr_df.copy())] *)
Definition scenario_or_copy (st : state) (scenario_key : string) : NumFrame :=
  default (sr_df st) (scenario_dfs st !! scenario_key).

(** [np.where(x > m, m, x)] on one number. *)
Definition where_gt (x m : Q) : Q :=
  match Qcompare x m with
  | Gt => m
  | _ => x
  end.

(** One foot in metres. *)
Definition foot : Q := 3048 # 10000.

Definition cap_lanes (lanes : list string) (m : Q) (df : NumFrame) : NumFrame :=
  foldl (fun d lane => set_column lane (fun r => where_gt (num r lane) m) d) df lanes.

Definition curb_side_lanes (st : state) : list string :=
  List.filter (Py.contains "1") (RTL_List st ++ LTL_List st)%list.

Definition other_thru_lanes (st : state) : list string :=
  List.filter (fun i => negb (Py.contains "1" i)) (RTL_List st ++ LTL_List st)%list.

Definition parking_lanes (st : state) : list string :=
  List.filter (fun i => Py.contains "Parking" i && negb (Py.contains "Meta" i))
              (row_slices st).

(** [right_size_row]; the table the method returns is the scenario's table
    in the resulting state. *)
Definition right_size_row (st : state) (scenario_key : string) : state :=
  let scenario_df := scenario_or_copy st scenario_key in
  let scenario_df := cap_lanes (curb_side_lanes st) (11 * foot) scenario_df in
  let scenario_df := cap_lanes (other_thru_lanes st) (10 * foot) scenario_df in
  let scenario_df := cap_lanes (parking_lanes st) (8 * foot) scenario_df in
  update_row (with_frames st (sr_df st) (<[scenario_key := scenario_df]> (scenario_dfs st))
                          (added_columns st))
             scenario_key.

(** The worker of [apply_road_diet] on the lane widths of one row, in the
    order of the lane list.  The row is changed in place while it is read;
    [row[idx-1]] with [idx = 0] is the last position. *)
Definition remove_centermost_lane (lock_last_lane : bool) (lanes : list Q) : list Q :=
  let lane_check := if lock_last_lane then 0%Z else (-1)%Z in
  foldl (fun (row : list Q) (idx : nat) =>
           match row !! idx with
           | Some value =>
               if Qle_bool value 0 && negb (Z.of_nat idx - 1 =? lane_check)%Z
               then <[match idx with O => (length row - 1)%nat | S i => i end := 0%Q]> row
               else if (idx =? length row + 1)%nat then <[idx := 0%Q]> row
               else row
           | None => row
           end) lanes (seq 0 (length lanes)).

(** [df[lanes] = df[lanes].apply(remove_centermost_lane, axis=1)]; the
    worker is taken to run once on every row. *)
Definition apply_lanes (lock_last_lane : bool) (lanes : list string) (df : NumFrame)
  : NumFrame :=
  {| ncolumns := ncolumns df;
     nindex := nindex df;
     nrows := (fun r =>
                 let vals := remove_centermost_lane lock_last_lane (num r <$> lanes) in
                 foldl (fun r cv => <[cv.1 := cv.2]> r) r (zip lanes vals)) <$> nrows df |}.

(** [int(round(n / 2.0, 0))]: halves round to the even neighbour. *)
Definition round_half (n : nat) : nat :=
  if Nat.even n then (n / 2)%nat
  else if Nat.even (n / 2) then (n / 2)%nat else S (n / 2).

Definition apply_road_diet (st : state) (scenario_key : string)
    (lane_removal_count : nat) (lock_last_lane : bool) : state :=
  let scenario_df := scenario_or_copy st scenario_key in
  let scenario_df := set_column "Right_Most" (fun _ => 0%Q) scenario_df in
  let scenario_df := set_column "Left_Most" (fun _ => 0%Q) scenario_df in
  let right_lanes_to_remove := round_half lane_removal_count in
  let left_lanes_to_remove := (lane_removal_count / 2)%nat in
  let scenario_df :=
    Nat.iter right_lanes_to_remove (apply_lanes lock_last_lane (RTL_List st)) scenario_df in
  let scenario_df :=
    Nat.iter left_lanes_to_remove (apply_lanes lock_last_lane (LTL_List st)) scenario_df in
  update_row (with_frames st (sr_df st) (<[scenario_key := scenario_df]> (scenario_dfs st))
                          (added_columns st))
             scenario_key.

Definition remove_parking_lanes (st : state) (scenario_key : string)
    (right_lane_removed left_lane_removed : bool) : state :=
  let scenario_df := scenario_or_copy st scenario_key in
  let parking_lanes :=
    List.filter (fun i => Py.contains "Parking_Lane" i && negb (Py.contains "Meta" i))
                (row_slices st) in
  let right_parking_lane := List.filter (Py.contains "Right") parking_lanes in
  let left_parking_lane := List.filter (Py.contains "Left") parking_lanes in
  let scenario_df :=
    match right_parking_lane with
    | parking_field :: _ =>
        if right_lane_removed then set_column parking_field (fun _ => 0%Q) scenario_df
        else scenario_df
    | [] => scenario_df
    end in
  let scenario_df :=
    match left_parking_lane with
    | parking_field :: _ =>
        if left_lane_removed then set_column parking_field (fun _ => 0%Q) scenario_df
        else scenario_df
    | [] => scenario_df
    end in
  update_row (with_frames st (sr_df st) (<[scenario_key := scenario_df]> (scenario_dfs st))
                          (added_columns st))
             scenario_key.

(** The editor methods, as calls. *)
Inductive editor : Type :=
  | Right_size_row (scenario_key : string)
  | Remove_parking_lanes (scenario_key : string) (right_lane_removed left_lane_removed : bool)
  | Apply_road_diet (scenario_key : string) (lane_removal_count : nat)
                    (lock_last_lane : bool).

Definition call (st : state) (e : editor) : state :=
  match e with
  | Right_size_row k => right_size_row st k
  | Remove_parking_lanes k r l => remove_parking_lanes st k r l
  | Apply_road_diet k n lock => apply_road_diet st k n lock
  end.

(** [get_row_df]; the default [scenario=None] is no key of the dict. *)
Definition get_row_df (st : state) (scenario : option string) : NumFrame :=
  match scenario with
  | Some k => default (sr_df st) (scenario_dfs st !! k)
  | None => sr_df st
  end.

(** [clear_sceanarios] *)
Definition clear_sceanarios (st : state) : state :=
  with_frames st (sr_df st) ∅ (added_columns st).

(** [get_added_columns]; the result [None] is Python's None, which
    [dict.get] returns for a scenario without an entry. *)
Definition get_added_columns (st : state) (scenario : option string)
  : option (list string) :=
  match scenario with
  | Some k =>
      match scenario_dfs st !! k with
      | Some _ => added_columns st !! k
      | None => Some (default [] (added_columns st !! "BASELINE_ROW"))
      end
  | None => Some (default [] (added_columns st !! "BASELINE_ROW"))
  end.

(** The scenario an editor call names. *)
Definition scenario_of (e : editor) : string :=
  match e with
  | Right_size_row k => k
  | Remove_parking_lanes k _ _ => k
  | Apply_road_diet k _ _ => k
  end.

End shared_row_data_evaluator.


(** *** The right-of-way invariant *)

Section Invariant.

Import shared_row_data_evaluator.

(** The row [r] of a scenario against the row [r0] of the table as the
    initializer left it. *)
Definition row_ok (r0 r : gmap string Q) : Prop :=
  num r "Base_Total_ROW_Width" = num r0 "Base_Total_ROW_Width"
  ∧ (num r "Total_ROW_Width" + num r "Unused_ROW_Width"
     == num r "Base_Total_ROW_Width")%Q
  ∧ (num r "Curb_To_Curb_Width"
     == num r "Base_Total_ROW_Width"
        - (num r "Left_Sidewalk_Width" + num r "Right_Sidewalk_Width"))%Q.

Definition frame_ok (base df : NumFrame) : Prop :=
  Forall2 row_ok (nrows base) (nrows df).

(** The rows of [df'] have the base width of the rows of [df]. *)
Definition same_base (df df' : NumFrame) : Prop :=
  Forall2 (fun r r' => num r' "Base_Total_ROW_Width" = num r "Base_Total_ROW_Width")
          (nrows df) (nrows df').

(** The columns the initializer and [update_row] compute. *)
Definition derived_cols : list string :=
  ["Total_ROW_Width"; "Base_Total_ROW_Width"; "Unused_ROW_Width";
   "Left_Sidewalk_Width"; "Right_Sidewalk_Width"; "Curb_To_Curb_Width"].

(** The slice names the initializer lists by name. *)
Definition fixed_slices : list string :=
  ["Left_Sidewalk_Frontage_Zone"; "Left_Sidewalk_Through_Zone";
   "Left_Sidewalk_Furniture_Zone"; "Left_Bike_Lane"; "Left_Bike_Buffer";
   "Left_Parking_Lane"; "Left_Transit_Lane"; "Center_Lane";
   "Right_Transit_Lane"; "Right_Parking_Lane"; "Right_Bike_Buffer";
   "Right_Bike_Lane"; "Right_Sidewalk_Furniture_Zone";
   "Right_Sidewalk_Through_Zone"; "Right_Sidewalk_Frontage_Zone"].

(** One row through [update_row]. *)
Definition update_fn (st : state) (r : gmap string Q) : gmap string Q :=
  let r := <["Total_ROW_Width" := sum_axis1 (row_slices st) r]> r in
  let r := <["Unused_ROW_Width" :=
               (num r "Base_Total_ROW_Width" - num r "Total_ROW_Width")%Q]> r in
  let r := <["Left_Sidewalk_Width" := sum_axis1 (left_sidewalk_slices st) r]> r in
  let r := <["Right_Sidewalk_Width" := sum_axis1 (right_sidewalk_slices st) r]> r in
  <["Curb_To_Curb_Width" :=
      ((num r "Total_ROW_Width" + num r "Unused_ROW_Width")
       - (num r "Left_Sidewalk_Width" + num r "Right_Sidewalk_Width"))%Q]> r.

(** One row through the loop of [cap_lanes]. *)
Definition cap_row (lanes : list string) (m : Q) (r : gmap string Q) : gmap string Q :=
  foldl (fun r lane => <[lane := where_gt (num r lane) m]> r) r lanes.

(** One row through the three loops of [right_size_row]. *)
Definition cap_fn (st : state) (r : gmap string Q) : gmap string Q :=
  cap_row (parking_lanes st) (8 * foot)
    (cap_row (other_thru_lanes st) (10 * foot)
       (cap_row (curb_side_lanes st) (11 * foot) r)).

(** What the three loops leave in column [c] when it held [v]. *)
Definition cap_value (st : state) (c : string) (v : Q) : Q :=
  let v := if decide (c ∈ curb_side_lanes st) then where_gt v (11 * foot) else v in
  let v := if decide (c ∈ other_thru_lanes st) then where_gt v (10 * foot) else v in
  if decide (c ∈ parking_lanes st) then where_gt v (8 * foot) else v.

(** The column labels after an assignment to column [c]. *)
Definition add_col (cols : list string) (c : string) : list string :=
  if decide (c ∈ cols) then cols else (cols ++ [c])%list.

(** The columns [right_size_row] assigns, in order. *)
Definition right_size_cols (st : state) : list string :=
  (curb_side_lanes st ++ other_thru_lanes st ++ parking_lanes st
   ++ ["Total_ROW_Width"; "Unused_ROW_Width"; "Left_Sidewalk_Width";
       "Right_Sidewalk_Width"; "Curb_To_Curb_Width"])%list.

(** The table [right_size_row] leaves for a scenario that starts as [df]. *)
Definition right_size_frame (st : state) (df : NumFrame) : NumFrame :=
  update_frame st
    (cap_lanes (parking_lanes st) (8 * foot)
       (cap_lanes (other_thru_lanes st) (10 * foot)
          (cap_lanes (curb_side_lanes st) (11 * foot) df))).

(** [self.added_columns.setdefault(scenario, self.added_columns.get("BASELINE_ROW"))]
    as [update_row] leaves the dict. *)
Definition setdefault_columns (ac : gmap string (list string)) (scenario : string)
  : gmap string (list string) :=
  match ac !! scenario with
  | Some _ => ac
  | None => match ac !! "BASELINE_ROW" with
            | Some base => <[scenario := base]> ac
            | None => ac
            end
  end.

(** The width of one lane in a row. *)
Definition num_lane (lane : string) (r : gmap string Q) : Q := num r lane.

(** The claim on right-sizing read literally: every lane of each class
    ends at the minimum of its previous width and the cap of the class. *)
Definition right_size_as_stated (st : state) (scenario_key : string) : Prop :=
  ∃ after,
    scenario_dfs (right_size_row st scenario_key) !! scenario_key = Some after
    ∧ Forall2 (fun r r' =>
                 (∀ lane, lane ∈ curb_side_lanes st →
                          num r' lane = Qmin (num r lane) (11 * foot))
                 ∧ (∀ lane, lane ∈ other_thru_lanes st →
                            num r' lane = Qmin (num r lane) (10 * foot))
                 ∧ (∀ lane, lane ∈ parking_lanes st →
                            num r' lane = Qmin (num r lane) (8 * foot)))
              (nrows (scenario_or_copy st scenario_key)) (nrows after).

(** The columns [update_row] assigns. *)
Definition updated_cols : list string :=
  ["Total_ROW_Width"; "Unused_ROW_Width"; "Left_Sidewalk_Width";
   "Right_Sidewalk_Width"; "Curb_To_Curb_Width"].

(** The lane and slice names of a state are none of the computed columns. *)
Definition slices_ok (st : state) : Prop :=
  ∀ c, c ∈ (RTL_List st ++ LTL_List st ++ row_slices st
            ++ left_sidewalk_slices st ++ right_sidewalk_slices st)%list →
       c ∉ derived_cols.

End Invariant.

(** A street table with two segments; the second has missing widths. *)
Definition street : shared_row_data_evaluator.NumFrame :=
  {| shared_row_data_evaluator.ncolumns :=
       ["Left_Sidewalk_Through_Zone"; "Left_Parking_Lane"; "Left_Through_Lane_2";
        "Left_Through_Lane_1"; "Center_Lane"; "Right_Through_Lane_1";
        "Right_Through_Lane_2"; "Right_Parking_Lane"; "Right_Sidewalk_Through_Zone"];
     shared_row_data_evaluator.nindex := [1; 2]%Z;
     shared_row_data_evaluator.nrows :=
       [ list_to_map
           [ ("Left_Sidewalk_Through_Zone", 2); ("Left_Parking_Lane", 3);
             ("Left_Through_Lane_2", 4); ("Left_Through_Lane_1", 4);
             ("Center_Lane", 3); ("Right_Through_Lane_1", 4);
             ("Right_Through_Lane_2", 0); ("Right_Parking_Lane", 2);
             ("Right_Sidewalk_Through_Zone", 2) ]%Q;
         list_to_map
           [ ("Left_Sidewalk_Through_Zone", 2); ("Left_Through_Lane_1", 3) ]%Q ] |}.


(** A street whose curbside through lane carries "Parking" in its name. *)
Definition shared_lane_street : shared_row_data_evaluator.NumFrame :=
  {| shared_row_data_evaluator.ncolumns := ["Right_Through_Lane_1_Parking"];
     shared_row_data_evaluator.nindex := [1]%Z;
     shared_row_data_evaluator.nrows :=
       [ list_to_map [ ("Right_Through_Lane_1_Parking", 3) ]%Q ] |}.

(** What holds of every state the editors can reach from [st0]. *)
Definition evaluator_inv (st0 st : shared_row_data_evaluator.state) : Prop :=
  shared_row_data_evaluator.sr_df st = shared_row_data_evaluator.sr_df st0
  ∧ slices_ok st
  ∧ ∀ k df, shared_row_data_evaluator.scenario_dfs st !! k = Some df →
            frame_ok (shared_row_data_evaluator.sr_df st0) df.


(** ** JSON values, as [json.loads] returns them *)

Inductive json : Type :=
  | JNull
  | JBool (b : bool)
  | JNum (q : Q)
  | JStr (s : string)
  | JArr (items : list json)
  | JObj (fields : list (string * json)).

(** [d[key]] on a dict: the value of the field (the last one, when the
    text repeats a key); [None] (KeyError, or TypeError on a value that is
    not a dict) otherwise. *)
Definition jget (key : string) (j : json) : option json :=
  match j with
  | JObj fields => snd <$> List.find (fun kv => String.eqb kv.1 key) (rev fields)
  | _ => None
  end.

(** [l[i]] on a list. *)
Definition jindex (i : nat) (j : json) : option json :=
  match j with
  | JArr items => items !! i
  | _ => None
  end.

(** ** T0_Get_SharedStreets.py *)

Module T0.

(** An extent (XMin, YMin, XMax, YMax) and a feature class of polylines:
    the ssID and the vertices of every row, in insertion order. *)
Record Extent : Type := mkExtent { XMin : Q; YMin : Q; XMax : Q; YMax : Q }.

Definition point : Type := (Q * Q)%type.
Definition fc_row : Type := (json * list point)%type.

(** The world the tool acts on: the requests sent so far (oldest first) and
    the feature classes that exist. *)
Record world : Type := mkWorld {
  requests : list string;
  feature_classes : gmap string (list fc_row)
}.

(** A step either returns a value or raises; the changes to the world made
    before the exception stay. *)
Definition M (A : Type) : Type := world → option A * world.

Definition ret {A : Type} (a : A) : M A := fun w => (Some a, w).
Definition raise {A : Type} : M A := fun w => (None, w).
Definition bind {A B : Type} (m : M A) (k : A → M B) : M B :=
  fun w => match m w with
           | (Some a, w') => k a w'
           | (None, w') => (None, w')
           end.

Notation "'do' x <- m ; k" := (bind m (fun x => k))
  (at level 200, x name, m at level 100, k at level 200, right associativity).
Notation "m ;; k" := (bind m (fun _ => k))
  (at level 100, k at level 200, right associativity).

(** [for x in l: body(x)] *)
Fixpoint for_each {A : Type} (l : list A) (body : A → M unit) : M unit :=
  match l with
  | [] => ret tt
  | x :: l' => body x ;; for_each l' body
  end.

Section Tool.

(** The script's globals and the services it calls. *)
Variable ssKey : string.
Variable outputFC : string.
(** The query string [urlencode] builds from the key and the bounds. *)
Variable urlencode : string → Extent → string.
(** The service: the features of the response to the n-th request of the
    run, or [None] when [urlopen], [read] or the decoding raises. *)
Variable service : nat → string → option (list json).
(** [arcpy.env.overwriteOutput] *)
Variable overwriteOutput : bool.
(** [float(s)] on a string. *)
Variable float_of_string : string → option Q.
(** The platform's projection of an extent to WGS 84. *)
Variable project : Extent → Extent.

(** [float(x)] on a JSON value. *)
Definition float (j : json) : option Q :=
  match j with
  | JNum q => Some q
  | JStr s => float_of_string s
  | JBool b => Some (if b then 1 else 0)%Q
  | _ => None
  end.

Definition lift {A : Type} (o : option A) : M A :=
  match o with
  | Some a => ret a
  | None => raise
  end.

(** [arcpy.CreateFeatureclass_management]: an empty feature class; an
    existing one is replaced only under [overwriteOutput]. *)
Definition CreateFeatureclass (path : string) : M unit :=
  fun w =>
    match feature_classes w !! path with
    | Some _ =>
        if overwriteOutput
        then (Some tt, {| requests := requests w;
                          feature_classes := <[path := []]> (feature_classes w) |})
        else (None, w)
    | None => (Some tt, {| requests := requests w;
                           feature_classes := <[path := []]> (feature_classes w) |})
    end.

(** [insertCursor.insertRow(r)] *)
Definition insertRow (path : string) (r : fc_row) : M unit :=
  fun w =>
    match feature_classes w !! path with
    | Some rs => (Some tt, {| requests := requests w;
                              feature_classes := <[path := (rs ++ [r])%list]> (feature_classes w) |})
    | None => (None, w)
    end.

(** The vertices of a feature: [Point(float(c[0]), float(c[1]))] for every
    coordinate [c]. *)
Definition polylineArray (stringCoords : json) : option (list point) :=
  match stringCoords with
  | JArr coords =>
      mapM (fun stringCoord =>
              x ← jindex 0 stringCoord ≫= float;
              y ← jindex 1 stringCoord ≫= float;
              Some (x, y)) coords
  | _ => None
  end.

(** The body of the loop of [createFC]. *)
Definition insert_feature (feature : json) : M unit :=
  do stringCoords <- lift (jget "geometry" feature ≫= jget "coordinates");
  do polyline <- lift (polylineArray stringCoords);
  do id <- lift (jget "properties" feature ≫= jget "id");
  insertRow outputFC (id, polyline).

Definition createFC (features : list json) : M unit :=
  CreateFeatureclass outputFC ;;
  for_each features insert_feature.

(** [urlopen.urlopen(req)] and the decoding of the response: the request
    is recorded, then the service answers or the call raises. *)
Definition urlopen (fullURL : string) : M (list json) :=
  fun w =>
    (service (length (requests w)) fullURL,
     {| requests := (requests w ++ [fullURL])%list;
        feature_classes := feature_classes w |}).

Definition fullURL (poly : Extent) : string :=
  let data := urlencode ssKey poly in
  "https://api.sharedstreets.io/v0.1.0/geom/within?" +:+ data.

Definition sendRequest (poly : Extent) : M unit :=
  do ssFeatures <- urlopen (fullURL poly);
  createFC ssFeatures.

(** [getPolygon]: [rows] are the extents of the polygons of the input
    feature class, [projected] tells whether its spatial reference is a
    projected one. *)
Definition getPolygon (rows : list Extent) (projected : bool) : M unit :=
  for_each rows (fun row =>
    if projected then
      for_each (project <$> rows) (fun queryPolyExtent => sendRequest queryPolyExtent)
    else
      sendRequest row).

End Tool.

End T0.

(** *** What the specification says of T0 *)

(** A GeoJSON position: an array that starts with two numbers. *)
Definition position_xy (c : json) : option (Q * Q) :=
  match c with
  | JArr (JNum x :: JNum y :: _) => Some (x, y)
  | _ => None
  end.

(** The vertices of a feature, one per position of its geometry, in order. *)
Definition feature_vertices (feature : json) : option (list (Q * Q)) :=
  match jget "geometry" feature ≫= jget "coordinates" with
  | Some (JArr coords) => mapM position_xy coords
  | _ => None
  end.

(** [properties.id] of a feature. *)
Definition feature_id (feature : json) : option json :=
  jget "properties" feature ≫= jget "id".

(** A feature with a line geometry of positions and an id. *)
Definition line_feature (feature : json) : Prop :=
  is_Some (feature_vertices feature) ∧ is_Some (feature_id feature).

(** The row the specification expects for a feature. *)
Definition expected_row (feature : json) : T0.fc_row :=
  (default JNull (feature_id feature), default [] (feature_vertices feature)).

(** The claim on the fetch read literally: a run sends one request. *)
Definition one_request_per_run (ssKey outputFC : string)
    (urlencode : string → T0.Extent → string)
    (service : nat → string → option (list json)) (overwriteOutput : bool)
    (float_of_string : string → option Q) (project : T0.Extent → T0.Extent) : Prop :=
  ∀ (rows : list T0.Extent) (projected : bool) (w : T0.world),
    length (T0.requests
              (T0.getPolygon ssKey outputFC urlencode service overwriteOutput
                             float_of_string project rows projected w).2)
    = S (length (T0.requests w)).

(** Two polygons drawn on the map, and a response with one street. *)
Definition block_a : T0.Extent := T0.mkExtent (-122) 37 (-121) 38.
Definition block_b : T0.Extent := T0.mkExtent (-120) 36 (-119) 37.

Definition street_feature : json :=
  JObj [ ("type", JStr "Feature");
         ("properties", JObj [ ("id", JStr "a1b2") ]);
         ("geometry", JObj [ ("type", JStr "LineString");
                             ("coordinates",
                              JArr [ JArr [JNum (-122); JNum 37];
                                     JArr [JNum (-121); JNum 38; JNum 0] ]) ]) ].

Definition empty_world : T0.world :=
  {| T0.requests := []; T0.feature_classes := ∅ |}.


(** ** T1_CurbLR_To_Feature_Class.py *)

Module T1.

(** A cell of the table: NaN (what pandas puts where a value is missing) or
    a Python value read from the JSON text; Python's None is [Val JNull]. *)
Inductive pyval : Type :=
  | NaN
  | Val (j : json).

Definition PyNone : pyval := Val JNull.

(** A row of the table [json_normalize] builds: one per element of
    properties.regulations[..].timeSpans, with the fields of that timeSpan
    as columns and the four metadata cells; a metadata cell is NaN when the
    path is missing from the feature (errors='ignore'). *)
Record normalized : Type := mkNormalized {
  timeSpan : list (string * json);
  geometry : pyval;
  properties_location : pyval;
  properties_regulations_rule : pyval;
  properties_regulations_payment : pyval
}.

(** A timeSpan field is a column of the table when some row has it. *)
Definition has_column (df : list normalized) (c : string) : bool :=
  existsb (fun r => bool_decide (is_Some (jget c (JObj (timeSpan r))))) df.

(** The cell of a timeSpan column in a row: NaN when the row lacks the field. *)
Definition cell (c : string) (r : normalized) : pyval :=
  match jget c (JObj (timeSpan r)) with
  | Some j => Val j
  | None => NaN
  end.

(** [get_item_zero]: [column[0]], or None on any exception. *)
Definition get_item_zero (column : pyval) : pyval :=
  match column with
  | Val (JArr (x :: _)) => Val x
  | Val (JStr (String c _)) => Val (JStr (String c EmptyString))
  | _ => PyNone
  end.

(** [extract]: [column[field]], or None on any exception. *)
Definition extract (column : pyval) (field : string) : pyval :=
  match column with
  | Val (JObj fields) =>
      match jget field (JObj fields) with
      | Some v => Val v
      | None => PyNone
      end
  | _ => PyNone
  end.

(** [pd.isna] on a cell. *)
Definition isna (v : pyval) : bool :=
  match v with
  | NaN | Val JNull => true
  | _ => false
  end.

(** The items a [for] loop or an unpacked argument list draws from a
    value; [None] is the TypeError on a value that cannot be iterated. *)
Definition iter (v : pyval) : option (list json) :=
  match v with
  | Val (JArr items) => Some items
  | Val (JStr s) => Some ((fun c => JStr (String c EmptyString)) <$> list_ascii_of_string s)
  | Val (JObj fields) => Some ((fun kv => JStr kv.1) <$> fields)
  | _ => None
  end.

Section Tool.

(** The platform's geometry constructors: [arcpy.Point] on the unpacked
    items of a coordinate and [arcpy.Polyline(arcpy.Array(points), sr)];
    they may raise. *)
Variable geometry_t : Type.
Variable point_t : Type.
Variable Point : list json → option point_t.
Variable Polyline : list point_t → option geometry_t.

Definition xy_to_polyline (xys : pyval) : option geometry_t :=
  items ← iter xys;
  points ← mapM (fun coords => iter (Val coords) ≫= Point) items;
  Polyline points.

(** The columns lines 94 to 121 add to a row. *)
Record extracted : Type := mkExtracted {
  coordinates : pyval;
  geom : geometry_t;
  activity : pyval;
  priorityCategory : pyval;
  maxStay : pyval;
  timesOfDay_from : pyval;
  timesOfDay_to : pyval;
  effectiveDates_from : pyval;
  effectiveDates_to : pyval;
  SharedStreetID : pyval;
  payment : Z
}.

(** [fillna(-1)] on a cell. *)
Definition fillna_minus_one (v : pyval) : pyval :=
  if isna v then Val (JNum (-1)) else v.

(** The try/except around an optional timeSpan column, on one row: the
    cell of the column through [f], or None when the table has no such
    column (the KeyError branch). *)
Definition optional_cell (df : list normalized) (c : string) (f : pyval → pyval)
    (r : normalized) : pyval :=
  if has_column df c then f (cell c r) else PyNone.

(** The cells lines 94 to 121 compute for the row [r] of the table [df],
    given its polyline. *)
Definition extract_row (df : list normalized) (r : normalized) (g : geometry_t)
  : extracted :=
  {| coordinates := extract (geometry r) "coordinates";
     geom := g;
     activity := extract (properties_regulations_rule r) "activity";
     priorityCategory := extract (properties_regulations_rule r) "priorityCategory";
     maxStay := fillna_minus_one (extract (properties_regulations_rule r) "maxStay");
     timesOfDay_from :=
       optional_cell df "timesOfDay" (fun x => extract (get_item_zero x) "from") r;
     timesOfDay_to :=
       optional_cell df "timesOfDay" (fun x => extract (get_item_zero x) "to") r;
     effectiveDates_from :=
       optional_cell df "effectiveDates" (fun x => extract (get_item_zero x) "from") r;
     effectiveDates_to :=
       optional_cell df "effectiveDates" (fun x => extract (get_item_zero x) "to") r;
     SharedStreetID := extract (properties_location r) "shstRefId";
     payment := match properties_regulations_payment r with
                | NaN => 0%Z
                | Val _ => 1%Z
                end |}.

(** Lines 94 to 121 of [convert_curblr_to_feature_class]: the mandatory
    extractions, then the optional ones. Only the construction of the
    polylines can raise; [None] is an exception that leaves the function. *)
Definition extract_fields (df : list normalized) : option (list extracted) :=
  geoms ← mapM (fun r => xy_to_polyline (extract (geometry r) "coordinates")) df;
  Some (zip_with (extract_row df) df geoms).

End Tool.

Arguments xy_to_polyline {geometry_t point_t} Point Polyline xys.
Arguments extract_fields {geometry_t point_t} Point Polyline df.
Arguments extract_row {geometry_t} df r g.
Arguments coordinates {geometry_t} e.
Arguments geom {geometry_t} e.
Arguments activity {geometry_t} e.
Arguments priorityCategory {geometry_t} e.
Arguments maxStay {geometry_t} e.
Arguments timesOfDay_from {geometry_t} e.
Arguments timesOfDay_to {geometry_t} e.
Arguments effectiveDates_from {geometry_t} e.
Arguments effectiveDates_to {geometry_t} e.
Arguments SharedStreetID {geometry_t} e.
Arguments payment {geometry_t} e.

(** *** Days of the week and times of day (lines 126 to 177) *)

(** Lines 132 to 140 on one cell of daysOfWeek; the cell holds the text
    [astype(str)] made of the list of days, of NaN or of None. *)
Definition clean_daysOfWeek (s : string) : string :=
  let s := Py.strip_chars "[]" s in
  let s := Py.replace " " "" s in
  let s := Py.replace "'m'" "'mo'" s in
  let s := Py.replace "'mo','t'" "'mo','tu'" s in
  let s := Py.replace "'we','t'" "'we','th'" s in
  let s := Py.replace "'s'" "'su'" s in
  Py.replace "'" "" s.

(** [isin(['nan', 'None'])] *)
Definition days_missing (s : string) : bool :=
  String.eqb s "nan" || String.eqb s "None".

(** The dict of line 167. *)
Definition day_dict (day : string) : option string :=
  if String.eqb day "mo" then Some "1"
  else if String.eqb day "tu" then Some "2"
  else if String.eqb day "we" then Some "3"
  else if String.eqb day "th" then Some "4"
  else if String.eqb day "fr" then Some "5"
  else if String.eqb day "sa" then Some "6"
  else if String.eqb day "su" then Some "7"
  else None.

(** ['1/' + day + '/1900 ' + time] on one row: NaN (the inner [None]) for
    a day the dict does not know, TypeError (the outer [None]) for a time
    that is not a text. *)
Definition datetime_text (dayOfWeek : string) (time : pyval) : option (option string) :=
  match day_dict dayOfWeek with
  | None => Some None
  | Some d =>
      match time with
      | Val (JStr t) => Some (Some ("1/" +:+ d +:+ "/1900 " +:+ t))
      | _ => None
      end
  end.

(** The columns lines 126 to 177 leave in a row of the table. *)
Record day_feature : Type := mkDayFeature {
  f_daysOfWeek : string;
  f_timesOfDay_from : pyval;
  f_timesOfDay_to : pyval;
  f_timesOfDay_from_dt : option string;
  f_timesOfDay_to_dt : option string;
  f_warnings : string;
  f_primary : Z;
  f_dayOfWeek : string
}.

(** Lines 154 to 177 for one day of a row: the day is the [j]-th piece of
    the row's daysOfWeek. *)
Definition day_row (daysOfWeek warnings : string) (from to : pyval) (jd : nat * string)
  : option day_feature :=
  from_dt ← datetime_text jd.2 from;
  to_dt ← datetime_text jd.2 to;
  Some {| f_daysOfWeek := daysOfWeek;
          f_timesOfDay_from := from;
          f_timesOfDay_to := to;
          f_timesOfDay_from_dt := from_dt;
          f_timesOfDay_to_dt := to_dt;
          f_warnings := warnings;
          f_primary := if (jd.1 =? 0)%nat then 1%Z else 0%Z;
          f_dayOfWeek := jd.2 |}.

(** Lines 132 to 177 on one row of the table: the text of its days and its
    two times of day give one row per day, in the order of the days. *)
Definition expand_days (days_text : string) (from to : pyval)
  : option (list day_feature) :=
  let daysOfWeek := clean_daysOfWeek days_text in
  let warnings := EmptyString in
  let missing := days_missing daysOfWeek in
  let warnings := if missing then warnings +:+ "daysOfWeek missing;" else warnings in
  let daysOfWeek := if missing then "mo,tu,we,th,fr,sa,su" else daysOfWeek in
  let warnings := if isna from then warnings +:+ "timesOfDay missing;" else warnings in
  let from := if isna from then Val (JStr "0:00") else from in
  let to := if isna to then Val (JStr "23:59") else to in
  mapM (day_row daysOfWeek warnings from to) (imap pair (Py.split "," daysOfWeek)).

End T1.

(** *** What the specification says of T1 *)

(** The value [v] has no field [field]: it is not a dict, or a dict
    without that key. *)
Definition lacks (field : string) (v : T1.pyval) : Prop :=
  ∀ fields, v = T1.Val (JObj fields) → jget field (JObj fields) = None.

(** The fallbacks of the extracted row [o] of the record [r]. *)
Definition fallbacks {geometry_t : Type} (r : T1.normalized)
    (o : T1.extracted geometry_t) : Prop :=
  (jget "timesOfDay" (JObj (T1.timeSpan r)) = None →
   T1.timesOfDay_from o = T1.PyNone ∧ T1.timesOfDay_to o = T1.PyNone)
  ∧ (jget "effectiveDates" (JObj (T1.timeSpan r)) = None →
     T1.effectiveDates_from o = T1.PyNone ∧ T1.effectiveDates_to o = T1.PyNone)
  ∧ (lacks "shstRefId" (T1.properties_location r) → T1.SharedStreetID o = T1.PyNone)
  ∧ (T1.properties_regulations_payment r = T1.NaN → T1.payment o = 0%Z)
  ∧ (lacks "activity" (T1.properties_regulations_rule r) → T1.activity o = T1.PyNone)
  ∧ (lacks "priorityCategory" (T1.properties_regulations_rule r) →
     T1.priorityCategory o = T1.PyNone)
  ∧ (lacks "maxStay" (T1.properties_regulations_rule r) →
     T1.maxStay o = T1.Val (JNum (-1))).

(** The claim on the mandatory fields read literally: a record without
    one of them makes the run fail. *)
Definition mandatory_unprotected {geometry_t point_t : Type}
    (Point : list json → option point_t)
    (Polyline : list point_t → option geometry_t) : Prop :=
  ∀ (df : list T1.normalized) (r : T1.normalized) (field : string),
    r ∈ df →
    (field = "coordinates" ∧ lacks field (T1.geometry r))
    ∨ (field ∈ ["activity"; "priorityCategory"; "maxStay"]
       ∧ lacks field (T1.properties_regulations_rule r)) →
    T1.extract_fields Point Polyline df = None.

(** A platform that builds any point and any polyline. *)
Definition any_point (args : list json) : option (list json) := Some args.
Definition any_polyline (points : list (list json)) : option (list (list json)) :=
  Some points.

(** A regulation without rule fields, times, dates, location or payment,
    on a line of two positions; and the same without coordinates. *)
Definition bare_record : T1.normalized :=
  {| T1.timeSpan := [ ("daysOfWeek", JObj [ ("days", JArr [JStr "mo"; JStr "tu"]) ]) ];
     T1.geometry :=
       T1.Val (JObj [ ("type", JStr "LineString");
                      ("coordinates", JArr [ JArr [JNum (-118); JNum 34];
                                             JArr [JNum (-117); JNum 34] ]) ]);
     T1.properties_location := T1.NaN;
     T1.properties_regulations_rule := T1.Val (JObj []);
     T1.properties_regulations_payment := T1.NaN |}.

Definition no_line_record : T1.normalized :=
  {| T1.timeSpan := [];
     T1.geometry := T1.Val (JObj [ ("type", JStr "LineString") ]);
     T1.properties_location := T1.NaN;
     T1.properties_regulations_rule :=
       T1.Val (JObj [ ("activity", JStr "parking"); ("maxStay", JNum 120) ]);
     T1.properties_regulations_payment := T1.NaN |}.


(** ** pandas: groupby and sorting *)

Module Pandas.

Section GroupBy.

Context {A K : Type} `{EqDecision K}.

(** The order of the group keys. *)
Variable key_leb : K → K → bool.

Definition key_le (a b : K) : Prop := key_leb a b = true.

#[global] Instance key_le_dec : RelDecision key_le.
Proof. intros a b. unfold key_le. apply _. Defined.

(** [df.groupby(keys)]: the distinct keys in sorted order, each with its
    rows in table order. *)
Definition groupby (key : A → K) (rows : list A) : list (K * list A) :=
  (fun k => (k, filter (fun r => key r = k) rows))
  <$> merge_sort key_le (remove_dups (key <$> rows)).

End GroupBy.

(** [series.sum()] *)
Definition sum (l : list Q) : Q := foldl Qplus 0%Q l.

Section SortValues.

Context {A : Type}.
Variable by_col : A → Q.

Definition desc (a b : A) : Prop := Qle_bool (by_col b) (by_col a) = true.

#[global] Instance desc_dec : RelDecision desc.
Proof. intros a b. unfold desc. apply _. Defined.

(** [df.sort_values(by=col, ascending=False)]; the order pandas leaves
    among equal values is not specified, this one keeps a merge order. *)
Definition sort_values_desc (rows : list A) : list A := merge_sort desc rows.

End SortValues.

End Pandas.

#[global] Instance Q_eq_dec : EqDecision Q.
Proof. solve_decision. Defined.


(** ** T3_ROW_and_Curb_Summary_Statistics.py: the curbside summaries *)

Module T3.

(** A row of the curbside table: the columns the summaries read.  The
    datetimes are seconds on the common time axis. *)
Record curb_feature : Type := mkCurbFeature {
  corridor : Z;
  primary : Z;
  activity : string;
  priorityCategory : string;
  maxStay : Z;
  payment : Z;
  daysOfWeek : string;
  timesOfDay_from : string;
  timesOfDay_to : string;
  timesOfDay_from_dt : Z;
  timesOfDay_to_dt : Z;
  Linear_Feet : Q
}.

(** The table and which of the two optional columns it has. *)
Record curb_table : Type := mkCurbTable {
  has_primary : bool;
  has_dt : bool;
  features : list curb_feature
}.

Definition day_dict (day : string) : option string :=
  if String.eqb day "Monday" then Some "mo"
  else if String.eqb day "Tuesday" then Some "tu"
  else if String.eqb day "Wednesday" then Some "we"
  else if String.eqb day "Thursday" then Some "th"
  else if String.eqb day "Friday" then Some "fr"
  else if String.eqb day "Saturday" then Some "sa"
  else if String.eqb day "Sunday" then Some "su"
  else None.

(** The alternatives of the pattern ["|".join(day_dict.get(i) ...)];
    [None] is the TypeError of [join] on a day the dict does not know. *)
Definition days_analyzed_query (days_of_week_analyzed : list string)
  : option (list string) :=
  mapM day_dict days_of_week_analyzed.

(** The first alternative that starts the text. *)
Definition match_here (alts : list string) (s : string) : option string :=
  List.find (fun a => String.prefix a s) alts.

(** The matches of an alternation of literals found from left to right
    without overlap; [skip] characters of the current match remain. *)
Fixpoint count_from (alts : list string) (skip : nat) (s : string) : nat :=
  match s with
  | EmptyString => 0
  | String _ r =>
      match skip with
      | S k => count_from alts k r
      | O =>
          match match_here alts s with
          | Some a => S (count_from alts (String.length a - 1) r)
          | None => count_from alts 0 r
          end
      end
  end.

(** [series.str.count(pattern)] for the pattern of the alternatives
    [alts]; the empty pattern matches once at every position. *)
Definition str_count (alts : list string) (s : string) : Z :=
  match alts with
  | [] => Z.of_nat (S (String.length s))
  | _ => Z.of_nat (count_from alts 0 s)
  end.

(** A retained regulation with its computed columns. *)
Record regulation : Type := mkRegulation {
  feature : curb_feature;
  Days_Active : Z;
  Hours_Span : Q;
  Weekly_Hours : Q;
  Linear_Feet_Hours : Q
}.

(** The eleven grouping columns. *)
Definition group_key : Type :=
  (Z * string * string * Z * Z * string * Z * string * string * Q * Q)%type.

Definition key_of (r : regulation) : group_key :=
  (corridor (feature r), activity (feature r), priorityCategory (feature r),
   maxStay (feature r), payment (feature r), daysOfWeek (feature r), Days_Active r,
   timesOfDay_from (feature r), timesOfDay_to (feature r), Hours_Span r, Weekly_Hours r).

Definition lex (c1 c2 : comparison) : comparison :=
  match c1 with
  | Eq => c2
  | _ => c1
  end.

Definition key_compare (a b : group_key) : comparison :=
  let '(a1, a2, a3, a4, a5, a6, a7, a8, a9, a10, a11) := a in
  let '(b1, b2, b3, b4, b5, b6, b7, b8, b9, b10, b11) := b in
  lex (Z.compare a1 b1)
   (lex (String.compare a2 b2)
    (lex (String.compare a3 b3)
     (lex (Z.compare a4 b4)
      (lex (Z.compare a5 b5)
       (lex (String.compare a6 b6)
        (lex (Z.compare a7 b7)
         (lex (String.compare a8 b8)
          (lex (String.compare a9 b9)
           (lex (Qcompare a10 b10) (Qcompare a11 b11)))))))))).

Definition key_leb (a b : group_key) : bool :=
  match key_compare a b with
  | Gt => false
  | _ => true
  end.

(** A row of the corridor summary. *)
Record summary : Type := mkSummary {
  group : group_key;
  sum_Linear_Feet : Q;
  sum_Linear_Feet_Hours : Q;
  Summary_ID : Z
}.

Section Summaries.

(** [pd.to_datetime] on a time of day, in seconds. *)
Variable to_datetime : string → Z.

(** The computed columns of a row; the numbers used as group keys are kept
    in lowest terms, so that equal numbers are equal keys. *)
Definition from_dt (tbl : curb_table) (f : curb_feature) : Z :=
  if has_dt tbl then timesOfDay_from_dt f else to_datetime (timesOfDay_from f).

Definition to_dt (tbl : curb_table) (f : curb_feature) : Z :=
  if has_dt tbl then timesOfDay_to_dt f else to_datetime (timesOfDay_to f).

Definition compute (tbl : curb_table) (alts : list string) (f : curb_feature)
  : regulation :=
  let days := str_count alts (daysOfWeek f) in
  let hours := Qred (inject_Z (to_dt tbl f - from_dt tbl f) / 3600) in
  let weekly := Qred (hours * inject_Z days) in
  {| feature := f;
     Days_Active := days;
     Hours_Span := hours;
     Weekly_Hours := weekly;
     Linear_Feet_Hours := weekly * Linear_Feet f |}.

(** The rows of a corridor that stay in the summary. *)
Definition retained (tbl : curb_table) (alts : list string) (corridor_value : Z)
  : list regulation :=
  let corridor_df := List.filter (fun f => (corridor f =? corridor_value)%Z) (features tbl) in
  let corridor_df :=
    if has_primary tbl then List.filter (fun f => (primary f =? 1)%Z) corridor_df
    else corridor_df in
  List.filter (fun r => (0 <? Days_Active r)%Z) (compute tbl alts <$> corridor_df).

(** The body of the loop over the corridors, up to the assignment of
    [Summary_ID]. *)
Definition corridor_summary (tbl : curb_table) (days_of_week_analyzed : list string)
    (corridor_value : Z) : option (list summary) :=
  alts ← days_analyzed_query days_of_week_analyzed;
  let corridor_df := retained tbl alts corridor_value in
  let grouped := Pandas.groupby key_leb key_of corridor_df in
  let agg := (fun kg : group_key * list regulation =>
                (kg.1,
                 Pandas.sum ((fun r => Linear_Feet (feature r)) <$> kg.2),
                 Pandas.sum (Linear_Feet_Hours <$> kg.2))) <$> grouped in
  let sorted := Pandas.sort_values_desc (fun x => x.2) agg in
  Some (imap (fun i x => {| group := x.1.1;
                            sum_Linear_Feet := x.1.2;
                            sum_Linear_Feet_Hours := x.2;
                            Summary_ID := Z.of_nat i + 1 |}) sorted).

End Summaries.

End T3.

(** A curbside table with two corridors, read with its datetime columns. *)
Definition curb_example : T3.curb_table :=
  let row c a d f t lf :=
    T3.mkCurbFeature c 1 a "4" 120 0 d "08:00" "18:00" f t lf in
  T3.mkCurbTable true true
    [ row 7%Z "parking" "mo,tu,we" 28800%Z 64800%Z 100%Q;
      row 7%Z "parking" "mo,tu,we" 28800%Z 64800%Z 50%Q;
      row 7%Z "loading" "sa,su" 0%Z 3600%Z 20%Q;
      row 8%Z "parking" "mo" 0%Z 3600%Z 10%Q;
      row 7%Z "no standing" "su" 0%Z 7200%Z 500%Q ].


(** ** T2_Prepare_LR_Correspondence.py *)

Module T2.

(** A row of the located events table: a start or end vertex of a curb
    feature located on a centerline route within the bandwidth. *)
Record located_event : Type := mkLocated {
  curb_feature_ID : Z;
  corridor_ID : Z;
  m_located : Q;
  Distance : Q;
  LENGTH : Q
}.

(** [series.min()] and [series.max()] of a group; 0 on no value. *)
Definition q_min (l : list Q) : Q :=
  match l with
  | [] => 0%Q
  | x :: l' => foldl (fun acc y => if Qlt_le_dec y acc then y else acc) x l'
  end.

Definition q_max (l : list Q) : Q :=
  match l with
  | [] => 0%Q
  | x :: l' => foldl (fun acc y => if Qlt_le_dec acc y then y else acc) x l'
  end.

(** A row of [df]: the aggregates of one (curb feature, centerline) pair
    and the metrics computed from them.  [d_over_l] is [None] where the
    float division by a zero length gives inf or NaN. *)
Record candidate : Type := mkCandidate {
  c_curb_feature_ID : Z;
  c_corridor_ID : Z;
  m_located_min : Q;
  m_located_max : Q;
  m_located_count : nat;
  Distance_min : Q;
  Distance_max : Q;
  LENGTH_first : Q
}.

Definition Distance_delta (c : candidate) : Q := Qabs (Distance_max c - Distance_min c).

Definition Distance_mean (c : candidate) : Q :=
  (Qabs (Distance_max c) + Qabs (Distance_min c)) / 2.

Definition d_over_l (c : candidate) : option Q :=
  if Qeq_bool (LENGTH_first c) 0 then None
  else Some (Distance_delta c / LENGTH_first c)%Q.

(** [x < y] on floats: false on inf and NaN at the left. *)
Definition lt_float (x : option Q) (y : Q) : bool :=
  match x with
  | Some v => if Qlt_le_dec v y then true else false
  | None => false
  end.

Definition pair_leb (a b : Z * Z) : bool :=
  match Z.compare a.1 b.1 with
  | Lt => true
  | Gt => false
  | Eq => (a.2 <=? b.2)%Z
  end.

(** [located.groupby([curb, centerline]).agg(...)] on one group. *)
Definition aggregate (kg : (Z * Z) * list located_event) : candidate :=
  {| c_curb_feature_ID := kg.1.1;
     c_corridor_ID := kg.1.2;
     m_located_min := q_min (m_located <$> kg.2);
     m_located_max := q_max (m_located <$> kg.2);
     m_located_count := length kg.2;
     Distance_min := q_min (Distance <$> kg.2);
     Distance_max := q_max (Distance <$> kg.2);
     LENGTH_first := default 0%Q (head (LENGTH <$> kg.2)) |}.

(** [series.idxmin()] on a group: the first row with the least value. *)
Definition idxmin (rows : list candidate) : option candidate :=
  foldl (fun best x =>
           match best with
           | None => Some x
           | Some b => if Qlt_le_dec (Distance_mean x) (Distance_mean b)
                       then Some x else Some b
           end) None rows.

(** The columns of a row of [df] that the join keeps. *)
Definition row_of (c : candidate) : Z * Z * Q * Q :=
  (c_curb_feature_ID c, c_corridor_ID c, m_located_min c, m_located_max c).

Section Correspondence.

(** [math.sin(math.radians(a))] *)
Variable sin_degrees : Q → Q.
Variable angle_threshold : Q.

(** [df] after the three filters. *)
Definition screened (located : list located_event) : list candidate :=
  let df := aggregate
            <$> Pandas.groupby pair_leb (fun e => (curb_feature_ID e, corridor_ID e)) located in
  let df := List.filter (fun c => (1 <? m_located_count c)%nat) df in
  let df := List.filter (fun c => negb (Qeq_bool (m_located_min c) (m_located_max c))) df in
  List.filter (fun c => lt_float (d_over_l c) (sin_degrees angle_threshold)) df.

(** Lines 183 to 210: [my_df], one row (curb feature, centerline, m_from,
    m_to) per curb feature that keeps a candidate. *)
Definition my_df (located : list located_event) : list (Z * Z * Q * Q) :=
  let df := screened located in
  let temp := (fun kg : Z * list candidate => idxmin kg.2)
              <$> Pandas.groupby Z.leb c_curb_feature_ID df in
  omap (fun best => row_of <$> best) temp.

(** Lines 222 to 229: the join of [my_df] onto the curb features and the
    selection of the features with m-values; a feature is its route id. *)
Definition matched (curb_features : list Z) (located : list located_event) : list Z :=
  List.filter (fun f => existsb (fun row => (row.1.1.1 =? f)%Z) (my_df located))
              curb_features.

End Correspondence.

End T2.

(** *** What the specification says of T2 *)

Section CorrespondenceSpec.

Variable sin_degrees : Q → Q.
Variable angle_threshold : Q.
(** The LENGTH of the curb feature with a given route id. *)
Variable curb_length : Z → Q.
Variable located : list T2.located_event.

(** The vertex events of the curb feature [c] located on the centerline [cl]. *)
Definition events (c cl : Z) : list T2.located_event :=
  List.filter (fun e => (T2.curb_feature_ID e =? c)%Z && (T2.corridor_ID e =? cl)%Z)
              located.

(** [delta / len < bound] on floats: false when the length is 0. *)
Definition ratio_lt (delta len bound : Q) : bool :=
  if Qeq_bool len 0 then false
  else if Qlt_le_dec (delta / len) bound then true else false.

(** The pair (curb feature, centerline) is kept: more than one vertex
    event located, the least and greatest m-values differ, and the ratio of
    the distance difference to the curb feature LENGTH is below the sine of
    the angle threshold. *)
Definition survives (c cl : Z) : bool :=
  let ms := T2.m_located <$> events c cl in
  let ds := T2.Distance <$> events c cl in
  (1 <? length (events c cl))%nat
  && negb (Qeq_bool (T2.q_min ms) (T2.q_max ms))
  && ratio_lt (Qabs (T2.q_max ds - T2.q_min ds)) (curb_length c)
              (sin_degrees angle_threshold).

(** The mean of the absolute least and greatest distances of the pair. *)
Definition distance_mean (c cl : Z) : Q :=
  let ds := T2.Distance <$> events c cl in
  (Qabs (T2.q_max ds) + Qabs (T2.q_min ds)) / 2.

End CorrespondenceSpec.

(** Vertex events of four curb features near three centerlines. *)
Definition located_example : list T2.located_event :=
  [ T2.mkLocated 1 10 0 5 100; T2.mkLocated 1 10 90 6 100;
    T2.mkLocated 1 11 0 2 100; T2.mkLocated 1 11 95 3 100;
    T2.mkLocated 1 12 0 1 100; T2.mkLocated 1 12 10 80 100;
    T2.mkLocated 2 10 5 1 50;
    T2.mkLocated 3 10 7 1 0; T2.mkLocated 3 10 8 1 0;
    T2.mkLocated 4 11 3 4 20; T2.mkLocated 4 11 3 4 20 ]%Q.

Definition length_example (c : Z) : Q :=
  if (c =? 1)%Z then 100 else if (c =? 2)%Z then 50 else if (c =? 3)%Z then 0 else 20.

(** *** The road diet, one turn at a time *)

(** One turn of the loop of [remove_centermost_lane] of [apply_road_diet]. *)
Definition diet_step (lock_last_lane : bool) : list Q → nat → list Q :=
  fun (row : list Q) (idx : nat) =>
    match row !! idx with
    | Some value =>
        if Qle_bool value 0
           && negb (Z.of_nat idx - 1 =? (if lock_last_lane then 0 else -1))%Z
        then <[match idx with O => (length row - 1)%nat | S i => i end := 0%Q]> row
        else if (idx =? length row + 1)%nat then <[idx := 0%Q]> row
        else row
    | None => row
    end.

(** *** What a well-formed daysOfWeek cell looks like *)

(** The day codes of CurbLR. *)
Definition day_codes : list string := ["mo"; "tu"; "we"; "th"; "fr"; "sa"; "su"].

(** The text Python's [str] makes of a list of day codes:
    the codes in single quotes, separated by a comma and a space, in
    square brackets. *)
Definition list_text (days : list string) : string :=
  "[" +:+ Py.join ", " ((fun d => "'" +:+ d +:+ "'") <$> days) +:+ "]".

(** *** Widths against the baseline *)

(** One row through the initializer of [shared_row_data_evaluator], for
    the column labels [cols] of the table passed in. *)
Definition init_fn (st : shared_row_data_evaluator.state) (cols : list string)
    (r : gmap string Q) : gmap string Q :=
  let num := shared_row_data_evaluator.num in
  let sum_axis1 := shared_row_data_evaluator.sum_axis1 in
  let r := foldl (fun r c => match r !! c with
                             | None => <[c := 0%Q]> r
                             | Some _ => r
                             end) r cols in
  let r := <["Right_Thru_Lane_Widths" :=
               sum_axis1 (shared_row_data_evaluator.RTL_List st) r]> r in
  let r := <["Left_Thru_Lane_Widths" :=
               sum_axis1 (shared_row_data_evaluator.LTL_List st) r]> r in
  let r := <["Total_ROW_Width" :=
               sum_axis1 (shared_row_data_evaluator.row_slices st) r]> r in
  let r := <["Base_Total_ROW_Width" := num r "Total_ROW_Width"]> r in
  let r := <["Unused_ROW_Width" := 0%Q]> r in
  let r := <["Left_Sidewalk_Width" :=
               sum_axis1 (shared_row_data_evaluator.left_sidewalk_slices st) r]> r in
  let r := <["Right_Sidewalk_Width" :=
               sum_axis1 (shared_row_data_evaluator.right_sidewalk_slices st) r]> r in
  <["Curb_To_Curb_Width" :=
      (num r "Total_ROW_Width"
       - (num r "Left_Sidewalk_Width" + num r "Right_Sidewalk_Width"))%Q]> r.

(** The row [r'] is the row [r] narrowed: outside the computed columns,
    a width of [r] that is not negative is in [r'] not negative and not
    greater. *)
Definition narrowed (r r' : gmap string Q) : Prop :=
  ∀ c, c ∉ derived_cols →
       (0 <= shared_row_data_evaluator.num r c)%Q →
       (0 <= shared_row_data_evaluator.num r' c)%Q
       ∧ (shared_row_data_evaluator.num r' c <= shared_row_data_evaluator.num r c)%Q.

Definition frame_narrowed (df df' : shared_row_data_evaluator.NumFrame) : Prop :=
  Forall2 narrowed (shared_row_data_evaluator.nrows df) (shared_row_data_evaluator.nrows df').

(** What the editors keep of every scenario table, beside [evaluator_inv]. *)
Definition widths_inv (st0 st : shared_row_data_evaluator.state) : Prop :=
  shared_row_data_evaluator.row_slices st = shared_row_data_evaluator.row_slices st0
  ∧ ∀ k df, shared_row_data_evaluator.scenario_dfs st !! k = Some df →
            Forall2 (fun r0 r =>
                       narrowed r0 r
                       ∧ shared_row_data_evaluator.num r "Total_ROW_Width"
                         = shared_row_data_evaluator.sum_axis1
                             (shared_row_data_evaluator.row_slices st0) r)
                    (shared_row_data_evaluator.nrows (shared_row_data_evaluator.sr_df st0))
                    (shared_row_data_evaluator.nrows df).

(** *** The skeleton of the intermediate table *)

(** The rows [rs] have pairwise different join keys in column [key]. *)
Definition unique_key (key : string) (rs : list row) : Prop :=
  ∀ i j a b, rs !! i = Some a → rs !! j = Some b → key_match key a b = true → i = j.

(** The column labels [create_intermediate_table] uses for the treatments
    and for what it computes. *)
Definition reserved_labels : list string :=
  (["Treatment_ID"; "Treatments"; "Modal_Priority_Sieve"; "Land_Use_Sieve";
    "Place_Type_Sieve"; "Row_Available_Sieve"; "Success_Metric_Sieve"; "Sum_Sieve";
    "Treatment_Applied"] ++ T4.modal_priorities ++ T4.treatment_fields)%list.

(** The segment and the treatment of a row of the intermediate table. *)
Definition pair_ids (segment_id_col : string) (r : row) : option cell * option cell :=
  (r !! segment_id_col, r !! "Treatment_ID").

(** The rows [l'] hold in column [c] what the rows [l] hold. *)
Definition same_at (c : string) (l l' : list row) : Prop :=
  Forall2 (fun r r' : row => r' !! c = r !! c) l l'.

(** Two centerline segments and two treatments. *)
Definition two_segments : DataFrame :=
  {| columns := ["OBJECTID"; "Modal_Priority_1"; "Modal_Priority_2"; "Place_Type";
                 "Available_ROW"; "Land_Use"];
     rows := [ list_to_map
                 [ ("OBJECTID", CNum 1);
                   ("Modal_Priority_1", CStr "Transit");
                   ("Modal_Priority_2", CStr "Bicycle");
                   ("Place_Type", CStr "PT2");
                   ("Available_ROW", CNum 5);
                   ("Land_Use", CStr "Retail") ];
               list_to_map
                 [ ("OBJECTID", CNum 2);
                   ("Modal_Priority_1", CStr "Bicycle");
                   ("Modal_Priority_2", CStr "Transit");
                   ("Place_Type", CStr "PT4");
                   ("Available_ROW", CNaN);
                   ("Land_Use", CStr "Office") ] ] |}.

Definition two_treatments : DataFrame :=
  {| columns := ["Treatment_ID"; "Treatments"; "Mode Priority Applicable";
                 "Appropriate Priority Rank Range"; "Place Types";
                 "Appropriate Land Use"; "Total ROW Necessary Per Direction"];
     rows := [ list_to_map
                 [ ("Treatment_ID", CNum 1);
                   ("Treatments", CStr "Bike lane");
                   ("Mode Priority Applicable", CStr "Bicycle");
                   ("Appropriate Priority Rank Range", CStr "1-2");
                   ("Place Types", CStr "PT3");
                   ("Appropriate Land Use", CStr "Office, Retail");
                   ("Total ROW Necessary Per Direction", CStr "6 ft") ];
               list_to_map
                 [ ("Treatment_ID", CNum 2);
                   ("Treatments", CStr "Bus lane");
                   ("Mode Priority Applicable", CStr "Transit");
                   ("Appropriate Priority Rank Range", CStr "1-1");
                   ("Place Types", CStr "PT5");
                   ("Appropriate Land Use", CStr "Retail");
                   ("Total ROW Necessary Per Direction", CStr "11 ft") ] ] |}.

(** * Theorems *)

(** ** Python builtins *)

Lemma digit_value_nonneg (c : ascii) : Py.is_digit c = true → (0 ≤ Py.digit_value c)%Z.
Proof.
  unfold Py.is_digit, Py.digit_value. intros H.
  apply andb_true_iff in H as [H _]. apply Nat.leb_le in H. lia.
Qed.

Lemma int_digits_nonneg (s : string) :
  ∀ acc prev z, (0 ≤ acc)%Z → Py.int_digits acc prev s = Some z → (0 ≤ z)%Z.
Proof.
  induction s as [|c r IH]; intros acc prev z Hacc; simpl.
  - destruct prev; [intros [= <-]; done | done].
  - destruct (Py.is_digit c) eqn:Hd.
    + apply IH. pose proof (digit_value_nonneg c Hd). lia.
    + destruct (Ascii.eqb c "_" && prev); [by apply IH | done].
Qed.

Lemma lstrip_has_char (c : ascii) (s : string) :
  Py.has_char c s = false → Py.has_char c (Py.lstrip s) = false.
Proof.
  induction s as [|d r IH]; simpl; [done|].
  intros H. apply orb_false_iff in H as [H1 H2].
  destruct (Py.is_space d); [by apply IH|]. simpl. by rewrite H1, H2.
Qed.

Lemma rstrip_has_char (c : ascii) (s : string) :
  Py.has_char c s = false → Py.has_char c (Py.rstrip s) = false.
Proof.
  induction s as [|d r IH]; simpl; [done|].
  intros H. apply orb_false_iff in H as [H1 H2]. specialize (IH H2).
  destruct (Py.rstrip r) eqn:Hr.
  - destruct (Py.is_space d); simpl; [done | by rewrite H1].
  - simpl in *. by rewrite H1, IH.
Qed.

(** [int()] of a string without a minus sign is never negative. *)
Lemma int_nonneg (s : string) (z : Z) :
  Py.has_char "-" s = false → Py.int s = Some z → (0 ≤ z)%Z.
Proof.
  intros Hs. unfold Py.int.
  assert (Hc : Py.has_char "-" (Py.strip s) = false)
    by (apply rstrip_has_char, lstrip_has_char, Hs).
  destruct (Py.strip s) as [|c r] eqn:E.
  - simpl. done.
  - simpl in Hc. apply orb_false_iff in Hc as [Hc _].
    destruct (Ascii.eqb_spec c "-") as [->|Hne]; [done|].
    assert (Hgen : Py.int_digits 0 false (String c r) = Some z → (0 ≤ z)%Z)
      by (apply int_digits_nonneg; lia).
    destruct (Ascii.eqb_spec c "+") as [->|Hne2].
    + apply int_digits_nonneg. lia.
    + destruct c as [[] [] [] [] [] [] [] []]; try exact Hgen; congruence.
Qed.

(** The pieces of [s.split(sep)] do not contain [sep]. *)
Lemma split_no_sep (sep : ascii) (s : string) :
  Forall (fun p => Py.has_char sep p = false) (Py.split sep s).
Proof.
  induction s as [|c r IH]; simpl.
  - by constructor.
  - destruct (Ascii.eqb c sep) eqn:E.
    + by constructor.
    + destruct (Py.split sep r) as [|p ps]; inversion IH; subst.
      * constructor; [|done]. simpl. by rewrite E.
      * constructor; [|done]. simpl. by rewrite E.
Qed.

(** ** T4: the modal priority sieve *)

Lemma modal_rank_loop (r : row) (mode : cell) (n a : nat) (init : Z) :
  (∀ i, (a ≤ i < a + n)%nat → is_Some (r !! priority_col i)) →
  ∃ k, foldl (fun acc i =>
                rank ← acc;
                v ← r !! ("Modal_Priority_" +:+ Py.str_nat i);
                Some (if py_eq v mode then Z.of_nat i else rank))
             (Some init) (seq a n) = Some k
       ∧ ((k = init ∧ ∀ j, (a ≤ j < a + n)%nat → holds_mode r mode j = false)
          ∨ (∃ i, k = Z.of_nat i ∧ (a ≤ i < a + n)%nat ∧ holds_mode r mode i = true
                  ∧ ∀ j, (i < j < a + n)%nat → holds_mode r mode j = false)).
Proof.
  revert a init. induction n as [|n IH]; intros a init Hcols; simpl.
  - exists init. split; [done|]. left. split; [done|]. intros j Hj. lia.
  - destruct (Hcols a ltac:(lia)) as [v Hv].
    fold (priority_col a). rewrite Hv. simpl.
    destruct (IH (S a) (if py_eq v mode then Z.of_nat a else init)) as (k & Hk & Hspec).
    { intros i Hi. apply Hcols. lia. }
    exists k. split; [exact Hk|].
    destruct Hspec as [[-> Hnone] | (i & -> & Hi & Hm & Hlater)].
    + destruct (py_eq v mode) eqn:Hv'.
      * right. exists a. split; [done|]. split; [lia|]. split.
        { unfold holds_mode. by rewrite Hv. }
        intros j Hj. apply Hnone. lia.
      * left. split; [done|]. intros j Hj.
        destruct (decide (j = a)) as [->|Hne].
        { unfold holds_mode. by rewrite Hv. }
        apply Hnone. lia.
    + right. exists i. split; [done|]. split; [lia|]. split; [done|].
      intros j Hj. apply Hlater. lia.
Qed.

(** C6. With the seven priority columns present and a rank range whose
    first two pieces between dashes are integers [lo] and [hi],
    [modal_priority_sieve] returns 1 exactly when the largest index [i] in
    1..7 whose column Modal_Priority_i equals the applicable mode exists and
    lies in [lo, hi]; it returns 0 otherwise, in particular when no column
    holds the mode, and it never raises. *)
Theorem modal_priority_sieve_spec (r : row) (mode : cell) (s lo_s hi_s : string)
    (rest : list string) (lo hi : Z) :
  r !! "Mode Priority Applicable" = Some mode →
  (∀ i, (1 ≤ i ≤ 7)%nat → is_Some (r !! priority_col i)) →
  r !! "Appropriate Priority Rank Range" = Some (CStr s) →
  Py.split "-" s = lo_s :: hi_s :: rest →
  Py.int lo_s = Some lo →
  Py.int hi_s = Some hi →
  ∃ res, T4.modal_priority_sieve r = Some res
    ∧ (res = 1 ∨ res = 0)%Z
    ∧ (res = 1%Z ↔
        ∃ i, (1 ≤ i ≤ 7)%nat ∧ holds_mode r mode i = true
             ∧ (∀ j, (i < j ≤ 7)%nat → holds_mode r mode j = false)
             ∧ (lo ≤ Z.of_nat i ≤ hi)%Z)
    ∧ ((∀ i, (1 ≤ i ≤ 7)%nat → holds_mode r mode i = false) → res = 0%Z).
Proof.
  intros Hmode Hcols Hrr Hsplit Hlo Hhi.
  assert (Hlo0 : (0 ≤ lo)%Z).
  { pose proof (split_no_sep "-" s) as Hf. rewrite Hsplit in Hf.
    inversion Hf; subst. by eapply int_nonneg. }
  destruct (modal_rank_loop r mode 7 1 (-1)) as (k & Hk & Hspec).
  { intros i Hi. apply Hcols. lia. }
  assert (Hrank : T4.modal_rank r mode = Some k) by exact Hk.
  unfold T4.modal_priority_sieve.
  rewrite Hmode. cbn [mbind option_bind]. rewrite Hrank. cbn [mbind option_bind].
  rewrite Hrr. cbn [mbind option_bind as_str]. rewrite Hsplit.
  cbn [lookup list_lookup mbind option_bind]. rewrite Hlo. cbn [mbind option_bind].
  rewrite Hhi. cbn [mbind option_bind].
  destruct Hspec as [[-> Hnone] | (i & -> & Hi & Hm & Hlater)].
  - destruct (Z.leb_spec lo (-1)); [lia|].
    exists 0%Z. split; [done|]. split; [by right|]. split; [|done].
    split; [done|]. intros (i & Hi & Hm & _). rewrite Hnone in Hm by lia. done.
  - destruct (Z.leb_spec lo (Z.of_nat i)) as [Hle|Hgt].
    + destruct (Z.leb_spec (Z.of_nat i) hi) as [Hle2|Hgt2].
      * exists 1%Z. split; [done|]. split; [by left|]. split.
        { split; [|done]. intros _. exists i. split; [lia|]. split; [done|].
          split; [|lia]. intros j Hj. apply Hlater. lia. }
        intros Hnone. rewrite Hnone in Hm by lia. done.
      * exists 0%Z. split; [done|]. split; [by right|]. split; [|done].
        split; [done|]. intros (i' & Hi' & Hm' & Hlater' & Hr').
        assert (i' = i); [|subst; lia].
        destruct (Nat.lt_trichotomy i' i) as [Hlt|[->|Hlt]]; [|done|].
        { rewrite Hlater' in Hm by lia. done. }
        { rewrite Hlater in Hm' by lia. done. }
    + exists 0%Z. split; [done|]. split; [by right|]. split; [|done].
      split; [done|]. intros (i' & Hi' & Hm' & Hlater' & Hr').
      assert (i' = i); [|subst; lia].
      destruct (Nat.lt_trichotomy i' i) as [Hlt|[->|Hlt]]; [|done|].
      { rewrite Hlater' in Hm by lia. done. }
      { rewrite Hlater in Hm' by lia. done. }
Qed.

Lemma modal_priority_sieve_spec_witness :
  ∃ res, T4.modal_priority_sieve example_row = Some res
    ∧ (res = 1 ∨ res = 0)%Z
    ∧ (res = 1%Z ↔
        ∃ i, (1 ≤ i ≤ 7)%nat ∧ holds_mode example_row (CStr "Bicycle") i = true
             ∧ (∀ j, (i < j ≤ 7)%nat → holds_mode example_row (CStr "Bicycle") j = false)
             ∧ (2 ≤ Z.of_nat i ≤ 4)%Z)
    ∧ ((∀ i, (1 ≤ i ≤ 7)%nat → holds_mode example_row (CStr "Bicycle") i = false)
       → res = 0%Z).
Proof.
  apply (modal_priority_sieve_spec example_row (CStr "Bicycle") "2-4" "2" "4" [] 2 4).
  - reflexivity.
  - intros i Hi.
    assert (Hc : (i = 1 ∨ i = 2 ∨ i = 3 ∨ i = 4 ∨ i = 5 ∨ i = 6 ∨ i = 7)%nat) by lia.
    destruct Hc as [->|[->|[->|[->|[->|[->| ->]]]]]]; vm_compute; eauto.
  - reflexivity.
  - reflexivity.
  - reflexivity.
  - reflexivity.
Defined.

Example modal_priority_sieve_example : T4.modal_priority_sieve example_row = Some 1%Z.
Proof. reflexivity. Qed.

(** ** T4: the sieve table *)

(** [Treatment_Applied] is 1 exactly when the sieve cells sum to the
    number of sieves. *)
Lemma sum_and_apply_sum (float_str : Q → string) (r r' : row) :
  T4.sum_and_apply float_str r = Some r' →
  ∃ s, row_sum ["Modal_Priority_Sieve"; "Land_Use_Sieve"; "Place_Type_Sieve";
                "Row_Available_Sieve"; "Success_Metric_Sieve"] r = Some s
       ∧ r' !! "Sum_Sieve" = Some (CNum s)
       ∧ r' !! "Treatment_Applied" = Some (CNum (if Qeq_bool 5 s then 1 else 0)).
Proof.
  unfold T4.sum_and_apply. cbn [T4.sieves fmap list_fmap fst length]. intros H.
  destruct (row_sum _ r) as [s|] eqn:Hs; [|done].
  cbn [mbind option_bind] in H. injection H as <-. exists s. split; [reflexivity|].
  split.
  - rewrite lookup_insert_ne by done. by rewrite lookup_insert_eq.
  - by rewrite lookup_insert_eq.
Qed.

(** When every sieve cell is 0 or 1, the sum is 5 exactly when all are 1. *)
Lemma binary_sum_five (a b c d e : Q) :
  (a == 0 ∨ a == 1)%Q → (b == 0 ∨ b == 1)%Q → (c == 0 ∨ c == 1)%Q →
  (d == 0 ∨ d == 1)%Q → (e == 0 ∨ e == 1)%Q →
  (5 == 0 + a + b + c + d + e)%Q ↔ (a == 1 ∧ b == 1 ∧ c == 1 ∧ d == 1 ∧ e == 1)%Q.
Proof.
  intros [Ha|Ha] [Hb|Hb] [Hc|Hc] [Hd|Hd] [He|He];
    rewrite Ha, Hb, Hc, Hd, He; split;
    first [ intros H; vm_compute in H; discriminate H
          | intros (H1 & H2 & H3 & H4 & H5);
            first [ vm_compute in H1; discriminate H1 | vm_compute in H2; discriminate H2
                  | vm_compute in H3; discriminate H3 | vm_compute in H4; discriminate H4
                  | vm_compute in H5; discriminate H5 ]
          | intros _; repeat split; reflexivity
          | intros _; reflexivity ].
Qed.

(** C2, evaluated: on the segment whose Bicycle success metric is -1, the
    modal priority sieve returns 0 and the success metric sieve returns 2,
    so the five cells sum to 5 and Treatment_Applied is 1 although one
    sieve failed. *)
Theorem create_intermediate_table_negative_metric (float_str : Q → string) :
  ∃ d r, T4.create_intermediate_table float_str segment_table treatment_table "OBJECTID"
         = Some d
    ∧ rows d = [r]
    ∧ sieve_cells r = [Some (CNum 0); Some (CNum 1); Some (CNum 1); Some (CNum 1);
                       Some (CNum 2)]
    ∧ r !! "Sum_Sieve" = Some (CNum 5)
    ∧ r !! "Treatment_Applied" = Some (CNum 1).
Proof.
  eexists _, _. split; [vm_compute; reflexivity|].
  split; [reflexivity|]. repeat split; vm_compute; reflexivity.
Qed.

(** ** curbsidelib: the smallest angle between two directions *)

Lemma py_mod_180_range (x : Q) :
  (0 <= Csl.py_mod x 180)%Q ∧ (Csl.py_mod x 180 < 180)%Q.
Proof.
  unfold Csl.py_mod.
  pose proof (Qfloor_le (x / 180)) as Hle.
  pose proof (Qlt_floor (x / 180)) as Hlt.
  rewrite inject_Z_plus in Hlt.
  assert (Hx : (x == 180 * (x / 180))%Q) by (field).
  set (k := inject_Z (Qfloor (x / 180))) in *.
  set (y := (x / 180)%Q) in *.
  change (inject_Z 1) with 1%Q in Hlt.
  split; lra.
Qed.

Lemma py_min_range (d : Q) :
  (0 <= d)%Q → (d < 180)%Q →
  (0 <= Csl.py_min d (180 - d))%Q ∧ (Csl.py_min d (180 - d) <= 90)%Q.
Proof.
  intros H0 H180. unfold Csl.py_min.
  destruct (Qcompare_spec (180 - d) d) as [H|H|H]; split; lra.
Qed.

Lemma py_min_comm (a b : Q) : (Csl.py_min a b == Csl.py_min b a)%Q.
Proof.
  unfold Csl.py_min.
  destruct (Qcompare_spec b a) as [H|H|H], (Qcompare_spec a b) as [H'|H'|H'];
    try reflexivity; try lra.
Qed.

Lemma py_min_compat (a a' b b' : Q) :
  (a == a')%Q → (b == b')%Q → (Csl.py_min a b == Csl.py_min a' b')%Q.
Proof.
  intros Ha Hb. unfold Csl.py_min.
  destruct (Qcompare_spec b a) as [H|H|H], (Qcompare_spec b' a') as [H'|H'|H'];
    lra.
Qed.

(** The remainders of [x] and [-x] modulo 180 are both 0 or add up to 180. *)
Lemma py_mod_180_opp (x : Q) :
  ((Csl.py_mod x 180 == 0 ∧ Csl.py_mod (- x) 180 == 0)
   ∨ Csl.py_mod (- x) 180 == 180 - Csl.py_mod x 180)%Q.
Proof.
  pose proof (py_mod_180_range x) as [H1 H2].
  pose proof (py_mod_180_range (- x)) as [H3 H4].
  unfold Csl.py_mod in *.
  set (k := Qfloor (x / 180)) in *. set (k' := Qfloor (- x / 180)) in *.
  assert (Hn : (-1 < inject_Z (- (k + k')))%Q ∧ (inject_Z (- (k + k')) < 2)%Q).
  { rewrite inject_Z_opp, inject_Z_plus. split; lra. }
  destruct Hn as [Hn1 Hn2].
  change (-1)%Q with (inject_Z (-1)) in Hn1. change 2%Q with (inject_Z 2) in Hn2.
  rewrite <- Zlt_Qlt in Hn1, Hn2.
  assert (Hc : (k + k' = 0 ∨ k + k' = -1)%Z) by lia.
  destruct Hc as [Hc|Hc].
  - left. assert (Hq : (inject_Z k + inject_Z k' == 0)%Q)
      by (rewrite <- inject_Z_plus, Hc; reflexivity).
    split; lra.
  - right. assert (Hq : (inject_Z k + inject_Z k' == -1)%Q)
      by (rewrite <- inject_Z_plus, Hc; reflexivity).
    lra.
Qed.


Example find_smallest_angle_350_10 : Csl.find_smallest_angle 350 10 = (20 # 1)%Q.
Proof. reflexivity. Qed.

(** ** The shared-row evaluator: the right-of-way invariant *)

Section EvaluatorFacts.

Import shared_row_data_evaluator.

Lemma num_insert_ne (r : gmap string Q) (c c' : string) (v : Q) :
  c ≠ c' → num (<[c := v]> r) c' = num r c'.
Proof. intros H. unfold num. by rewrite lookup_insert_ne. Qed.

Lemma num_insert_eq (r : gmap string Q) (c : string) (v : Q) :
  num (<[c := v]> r) c = v.
Proof. unfold num. by rewrite lookup_insert_eq. Qed.

Ltac num_simpl :=
  repeat first [ rewrite num_insert_eq
               | rewrite num_insert_ne by (intro; discriminate) ].

Lemma same_base_refl (df : NumFrame) : same_base df df.
Proof. unfold same_base. induction (nrows df); constructor; done. Qed.

Lemma same_base_trans (a b c : NumFrame) : same_base a b → same_base b c → same_base a c.
Proof.
  unfold same_base. generalize (nrows a) (nrows b) (nrows c). intros la lb lc Hab.
  revert lc. induction Hab as [|x y la lb Hxy Hab IH]; intros lc Hbc.
  - inversion Hbc; subst. constructor.
  - inversion Hbc as [|y' z lb' lc' Hyz Hbc']; subst.
    constructor; [congruence|]. by apply IH.
Qed.

Lemma same_base_map (g : gmap string Q → gmap string Q) (l : list (gmap string Q)) :
  (∀ r, num (g r) "Base_Total_ROW_Width" = num r "Base_Total_ROW_Width") →
  Forall2 (fun r r' => num r' "Base_Total_ROW_Width" = num r "Base_Total_ROW_Width")
          l (g <$> l).
Proof. intros Hg. induction l; simpl; constructor; auto. Qed.

Lemma nrows_set_column (c : string) (f : gmap string Q → Q) (df : NumFrame) :
  nrows (set_column c f df) = (fun r => <[c := f r]> r) <$> nrows df.
Proof. reflexivity. Qed.

Lemma same_base_set_column (c : string) (f : gmap string Q → Q) (df : NumFrame) :
  c ≠ "Base_Total_ROW_Width" → same_base df (set_column c f df).
Proof.
  intros Hc. unfold same_base, set_column. simpl.
  apply same_base_map. intros r. by apply num_insert_ne.
Qed.

Lemma same_base_cap_lanes (lanes : list string) (m : Q) (df : NumFrame) :
  "Base_Total_ROW_Width" ∉ lanes → same_base df (cap_lanes lanes m df).
Proof.
  unfold cap_lanes. revert df. induction lanes as [|c lanes IH]; intros df Hn; simpl.
  - apply same_base_refl.
  - apply not_elem_of_cons in Hn as [Hc Hn].
    eapply same_base_trans; [|apply IH; exact Hn].
    apply same_base_set_column. congruence.
Qed.

Lemma num_fold_insert (kvs : list (string * Q)) (r : gmap string Q) (c : string) :
  c ∉ kvs.*1 → num (foldl (fun r cv => <[cv.1 := cv.2]> r) r kvs) c = num r c.
Proof.
  revert r. induction kvs as [|[k v] kvs IH]; intros r Hn; simpl; [done|].
  simpl in Hn. apply not_elem_of_cons in Hn as [Hc Hn].
  rewrite IH by exact Hn. apply num_insert_ne. congruence.
Qed.

Lemma zip_keys_subset {A B : Type} (l : list A) (k : list B) (x : A) :
  x ∈ (zip l k).*1 → x ∈ l.
Proof.
  revert k. induction l as [|a l IH]; intros [|b k]; simpl; try (intros H; by inversion H).
  intros H. apply elem_of_cons in H as [->|H]; [left|right; eauto].
Qed.

Lemma same_base_apply_lanes (lock : bool) (lanes : list string) (df : NumFrame) :
  "Base_Total_ROW_Width" ∉ lanes → same_base df (apply_lanes lock lanes df).
Proof.
  intros Hn. unfold same_base, apply_lanes. simpl.
  apply same_base_map. intros r. apply num_fold_insert.
  intros H. apply Hn. eapply zip_keys_subset, H.
Qed.

Lemma same_base_iter (g : NumFrame → NumFrame) (n : nat) (df : NumFrame) :
  (∀ d, same_base d (g d)) → same_base df (Nat.iter n g df).
Proof.
  intros Hg. induction n as [|n IH]; simpl; [apply same_base_refl|].
  eapply same_base_trans; [exact IH | apply Hg].
Qed.

(** [update_row] re-establishes the equations on any table and keeps the
    base width. *)
Lemma update_frame_ok (st : state) (base df : NumFrame) :
  same_base base df → frame_ok base (update_frame st df).
Proof.
  unfold same_base, frame_ok, update_frame, set_column. simpl.
  rewrite <- !list_fmap_compose.
  generalize (nrows base) (nrows df). intros l0 l H.
  induction H as [|r0 r l0 l Hr H IH]; simpl; constructor; [|exact IH].
  unfold row_ok. cbn [compose]. num_simpl.
  split; [exact Hr|]. split; ring.
Qed.

Lemma frame_ok_same_base (base df : NumFrame) : frame_ok base df → same_base base df.
Proof.
  unfold frame_ok, same_base. intros H. eapply Forall2_impl; [exact H|].
  intros r0 r Hr. apply Hr.
Qed.

Lemma elem_of_sort_names (x : string) (l : list string) : x ∈ sort_names l ↔ x ∈ l.
Proof. unfold sort_names. by rewrite merge_sort_Permutation. Qed.

Lemma elem_of_List_filter {A : Type} (P : A → bool) (l : list A) (x : A) :
  x ∈ List.filter P l ↔ x ∈ l ∧ P x = true.
Proof. rewrite !list_elem_of_In. apply filter_In. Qed.

Lemma init_lists (df : NumFrame) (st : state) :
  init df = Some st →
  (∀ c, c ∈ LTL_List st → Py.contains "Left_Through_Lane" c = true)
  ∧ (∀ c, c ∈ RTL_List st → Py.contains "Right_Through_Lane" c = true)
  ∧ (∀ c, c ∈ row_slices st → c ∈ LTL_List st ∨ c ∈ RTL_List st ∨ c ∈ fixed_slices)
  ∧ (∀ c, c ∈ left_sidewalk_slices st → c ∈ fixed_slices)
  ∧ (∀ c, c ∈ right_sidewalk_slices st → c ∈ fixed_slices)
  ∧ scenario_dfs st = ∅.
Proof.
  unfold init. destruct (bool_decide _); [|done]. intros H.
  apply (inj Some) in H. subst st.
  cbn [LTL_List RTL_List row_slices left_sidewalk_slices right_sidewalk_slices
       scenario_dfs].
  assert (Hl : ∀ (P : string → bool) c,
            c ∈ List.filter P ["Left_Sidewalk_Frontage_Zone"; "Left_Sidewalk_Through_Zone";
                               "Left_Sidewalk_Furniture_Zone"] → c ∈ fixed_slices).
  { intros P c Hc. apply elem_of_List_filter in Hc as [Hc _].
    unfold fixed_slices. set_solver. }
  assert (Hr : ∀ (P : string → bool) c,
            c ∈ List.filter P ["Right_Sidewalk_Furniture_Zone";
                               "Right_Sidewalk_Through_Zone";
                               "Right_Sidewalk_Frontage_Zone"] → c ∈ fixed_slices).
  { intros P c Hc. apply elem_of_List_filter in Hc as [Hc _].
    unfold fixed_slices. set_solver. }
  split; [|split; [|split; [|split; [|split; [|done]]]]].
  - intros c Hc. apply elem_of_sort_names, elem_of_List_filter in Hc. apply Hc.
  - intros c Hc. apply elem_of_sort_names, elem_of_List_filter in Hc. apply Hc.
  - intros c Hc. apply elem_of_List_filter in Hc as [Hc _].
    rewrite !elem_of_app in Hc.
    destruct Hc as [Hc|[Hc|[Hc|[Hc|[Hc|[Hc|Hc]]]]]]; auto.
    + right; right. eapply Hl, Hc.
    + right; right. unfold fixed_slices. set_solver.
    + right; right. unfold fixed_slices. set_solver.
    + right; right. unfold fixed_slices. set_solver.
    + right; right. eapply Hr, Hc.
  - intros c Hc. eapply Hl, Hc.
  - intros c Hc. eapply Hr, Hc.
Qed.

Lemma fixed_slices_not_derived (c : string) : c ∈ fixed_slices → c ∉ derived_cols.
Proof.
  unfold fixed_slices, derived_cols. intros Hc Hd.
  repeat (apply elem_of_cons in Hc as [->|Hc];
          [repeat (apply elem_of_cons in Hd as [Hd|Hd]; [discriminate Hd|]);
           by apply elem_of_nil in Hd|]).
  by apply elem_of_nil in Hc.
Qed.

Lemma through_lane_not_derived (side c : string) :
  Py.contains (side +:+ "_Through_Lane") c = true → side = "Left" ∨ side = "Right" →
  c ∉ derived_cols.
Proof.
  unfold derived_cols. intros Hc Hside Hd.
  repeat (apply elem_of_cons in Hd as [->|Hd];
          [destruct Hside as [->| ->]; vm_compute in Hc; discriminate Hc|]).
  by apply elem_of_nil in Hd.
Qed.

Lemma init_slices_ok (df : NumFrame) (st : state) : init df = Some st → slices_ok st.
Proof.
  intros H. destruct (init_lists df st H) as (HL & HR & HS & Hls & Hrs & _).
  assert (HL' : ∀ c, c ∈ LTL_List st → c ∉ derived_cols).
  { intros c Hc. apply (through_lane_not_derived "Left"); [by apply HL | by left]. }
  assert (HR' : ∀ c, c ∈ RTL_List st → c ∉ derived_cols).
  { intros c Hc. apply (through_lane_not_derived "Right"); [by apply HR | by right]. }
  intros c Hc. rewrite !elem_of_app in Hc.
  destruct Hc as [Hc|[Hc|[Hc|[Hc|Hc]]]]; auto using fixed_slices_not_derived.
  apply HS in Hc as [Hc|[Hc|Hc]]; auto using fixed_slices_not_derived.
Qed.

Lemma slices_ok_base (st : state) :
  slices_ok st →
  ("Base_Total_ROW_Width" ∉ LTL_List st)
  ∧ ("Base_Total_ROW_Width" ∉ RTL_List st)
  ∧ ("Base_Total_ROW_Width" ∉ row_slices st).
Proof.
  intros H.
  assert (Hd : "Base_Total_ROW_Width" ∈ derived_cols) by (unfold derived_cols; set_solver).
  repeat split; intros Hc; eapply H; [| exact Hd | | exact Hd | | exact Hd];
    rewrite !elem_of_app; auto.
Qed.

Lemma init_frame_ok (df : NumFrame) (st : state) :
  init df = Some st → frame_ok (sr_df st) (sr_df st).
Proof.
  unfold init. destruct (bool_decide _); [|done]. intros H.
  apply (inj Some) in H. subst st.
  unfold frame_ok. cbn [sr_df]. rewrite !nrows_set_column.
  rewrite <- !list_fmap_compose.
  induction (nrows (fillna0 df)) as [|r l IH]; cbn [fmap list_fmap];
    constructor; [|exact IH].
  unfold row_ok. cbn [compose]. num_simpl.
  split; [done|]. split; ring.
Qed.

Lemma editor_step (st0 st : state) (k : string) (df1 : NumFrame) :
  evaluator_inv st0 st →
  same_base (scenario_or_copy st k) df1 →
  evaluator_inv st0
    (update_row (with_frames st (sr_df st) (<[k := df1]> (scenario_dfs st))
                             (added_columns st)) k).
Proof.
  intros (Hsr & Hun & Hsc) Hsame.
  unfold update_row, with_frames.
  cbn [scenario_dfs sr_df added_columns LTL_List RTL_List row_slices].
  rewrite lookup_insert_eq.
  cbn [scenario_dfs sr_df added_columns LTL_List RTL_List row_slices].
  split; [exact Hsr|]. split; [exact Hun|].
  intros k' df'. cbn [scenario_dfs]. rewrite insert_insert_eq.
  destruct (decide (k = k')) as [<-|Hne].
  - rewrite lookup_insert_eq. intros [= <-].
    apply update_frame_ok. eapply same_base_trans; [|exact Hsame].
    unfold scenario_or_copy. destruct (scenario_dfs st !! k) as [df0|] eqn:E; simpl.
    + apply frame_ok_same_base. eapply Hsc, E.
    + rewrite Hsr. apply same_base_refl.
  - rewrite lookup_insert_ne by done. apply Hsc.
Qed.

Lemma call_inv (st0 st : state) (e : editor) :
  evaluator_inv st0 st → evaluator_inv st0 (call st e).
Proof.
  intros Hinv. pose proof Hinv as (_ & Hok & _).
  destruct (slices_ok_base st Hok) as (HnL & HnR & HnS).
  assert (HnLR : "Base_Total_ROW_Width" ∉ (RTL_List st ++ LTL_List st)%list)
    by (rewrite elem_of_app; tauto).
  assert (Hfilter : ∀ (P : string → bool) (l : list string),
            "Base_Total_ROW_Width" ∉ l → "Base_Total_ROW_Width" ∉ List.filter P l).
  { intros P l Hn Hc. apply elem_of_List_filter in Hc as [Hc _]. exact (Hn Hc). }
  destruct e as [k|k r l|k n lock]; cbn [call].
  - unfold right_size_row. apply editor_step; [exact Hinv|].
    eapply same_base_trans; [|apply same_base_cap_lanes, Hfilter, HnS].
    eapply same_base_trans; [|apply same_base_cap_lanes, Hfilter, HnLR].
    apply same_base_cap_lanes, Hfilter, HnLR.
  - unfold remove_parking_lanes. apply editor_step; [exact Hinv|].
    set (pl := List.filter _ (row_slices st)).
    assert (Hpl : "Base_Total_ROW_Width" ∉ pl) by apply Hfilter, HnS.
    assert (Hset : ∀ (P : string → bool) (b : bool) (d : NumFrame),
              same_base d match List.filter P pl with
                          | parking_field :: _ =>
                              if b then set_column parking_field (fun _ => 0%Q) d else d
                          | [] => d
                          end).
    { intros P b d. destruct (List.filter P pl) as [|c cs] eqn:E;
        [apply same_base_refl|].
      destruct b; [|apply same_base_refl].
      apply same_base_set_column. intros ->.
      apply (Hfilter P pl Hpl). rewrite E. left. }
    eapply same_base_trans; apply Hset.
  - unfold apply_road_diet. apply editor_step; [exact Hinv|].
    eapply same_base_trans;
      [|apply same_base_iter; intros d; by apply same_base_apply_lanes].
    eapply same_base_trans;
      [|apply same_base_iter; intros d; by apply same_base_apply_lanes].
    eapply same_base_trans; [|by apply same_base_set_column].
    by apply same_base_set_column.
Qed.


(** ** The shared-row evaluator: right-sizing *)

Lemma where_gt_min (x m : Q) : where_gt x m = Qmin x m.
Proof. reflexivity. Qed.

Lemma where_gt_le (x m : Q) : (where_gt x m <= m)%Q.
Proof. unfold where_gt. destruct (Qcompare_spec x m); lra. Qed.

Lemma where_gt_le_arg (x m : Q) : (where_gt x m <= x)%Q.
Proof. unfold where_gt. destruct (Qcompare_spec x m); lra. Qed.

Lemma where_gt_id (x m : Q) : (x <= m)%Q → where_gt x m = x.
Proof. unfold where_gt. intros H. destruct (Qcompare_spec x m); [done|done|lra]. Qed.

Lemma where_gt_idem (x m : Q) : where_gt (where_gt x m) m = where_gt x m.
Proof. apply where_gt_id, where_gt_le. Qed.

Lemma where_gt_nested (x a b : Q) :
  (a < b)%Q → where_gt (where_gt x b) a = where_gt x a.
Proof.
  intros Hab. unfold where_gt at 2. destruct (Qcompare_spec x b) as [H|H|H]; [done|done|].
  unfold where_gt.
  destruct (Qcompare_spec b a) as [H1|H1|H1], (Qcompare_spec x a) as [H2|H2|H2];
    try done; lra.
Qed.

Lemma lookup_cap_row (lanes : list string) (m : Q) (r : gmap string Q) (c : string) :
  cap_row lanes m r !! c
  = if decide (c ∈ lanes) then Some (where_gt (num r c) m) else r !! c.
Proof.
  unfold cap_row. revert r. induction lanes as [|l lanes IH]; intros r; simpl.
  - destruct (decide (c ∈ [])) as [H|H]; [by apply elem_of_nil in H | done].
  - rewrite IH. destruct (decide (c = l)) as [->|Hne].
    + rewrite num_insert_eq, where_gt_idem, lookup_insert_eq.
      destruct (decide (l ∈ lanes)), (decide (l ∈ l :: lanes)) as [|Hn]; try done.
      * exfalso. apply Hn. left.
      * exfalso. apply Hn. left.
    + rewrite num_insert_ne, lookup_insert_ne by done.
      destruct (decide (c ∈ lanes)) as [Hin|Hin], (decide (c ∈ l :: lanes)) as [Hin'|Hin'];
        try done.
      * exfalso. apply Hin'. by right.
      * exfalso. apply elem_of_cons in Hin' as [?|?]; done.
Qed.

Lemma num_cap_row (lanes : list string) (m : Q) (r : gmap string Q) (c : string) :
  num (cap_row lanes m r) c
  = if decide (c ∈ lanes) then where_gt (num r c) m else num r c.
Proof.
  unfold num at 1. rewrite lookup_cap_row. by destruct (decide (c ∈ lanes)).
Qed.

Lemma nrows_cap_lanes (lanes : list string) (m : Q) (df : NumFrame) :
  nrows (cap_lanes lanes m df) = cap_row lanes m <$> nrows df.
Proof.
  unfold cap_lanes, cap_row. revert df.
  induction lanes as [|l lanes IH]; intros df; simpl.
  - by rewrite list_fmap_id.
  - rewrite IH, nrows_set_column, <- list_fmap_compose. done.
Qed.

Lemma nrows_update_frame (st : state) (df : NumFrame) :
  nrows (update_frame st df) = update_fn st <$> nrows df.
Proof.
  unfold update_frame. rewrite !nrows_set_column, <- !list_fmap_compose. done.
Qed.

Lemma lookup_cap_fn (st : state) (r : gmap string Q) (c : string) :
  cap_fn st r !! c
  = if decide (c ∈ curb_side_lanes st ∨ c ∈ other_thru_lanes st ∨ c ∈ parking_lanes st)
    then Some (cap_value st c (num r c)) else r !! c.
Proof.
  unfold cap_fn, cap_value.
  repeat first [rewrite lookup_cap_row | rewrite num_cap_row].
  destruct (decide (c ∈ curb_side_lanes st)), (decide (c ∈ other_thru_lanes st)),
    (decide (c ∈ parking_lanes st)), (decide (_ ∨ _)) as [Hd|Hd]; try done; tauto.
Qed.

Lemma num_cap_fn (st : state) (r : gmap string Q) (c : string) :
  num (cap_fn st r) c = cap_value st c (num r c).
Proof.
  unfold num at 1. rewrite lookup_cap_fn. destruct (decide _) as [Hd|Hd]; [done|].
  unfold cap_value.
  destruct (decide (c ∈ curb_side_lanes st)), (decide (c ∈ other_thru_lanes st)),
    (decide (c ∈ parking_lanes st)); try done; tauto.
Qed.

Ltac cap_chain :=
  first [ apply where_gt_le
        | eapply Qle_trans; [apply where_gt_le_arg | cap_chain] ].

Lemma cap_value_idem (st : state) (c : string) (v : Q) :
  cap_value st c (cap_value st c v) = cap_value st c v.
Proof.
  unfold cap_value.
  destruct (decide (c ∈ curb_side_lanes st)), (decide (c ∈ other_thru_lanes st)),
    (decide (c ∈ parking_lanes st));
    repeat match goal with
           | |- context [where_gt (where_gt ?x ?a) ?b] =>
               rewrite (where_gt_id (where_gt x a) b) by cap_chain
           end;
    reflexivity.
Qed.

Lemma lookup_update_fn_other (st : state) (r : gmap string Q) (c : string) :
  c ∉ updated_cols → update_fn st r !! c = r !! c.
Proof.
  intros Hc. unfold update_fn, updated_cols in *.
  rewrite !lookup_insert_ne; [done|..]; intros <-; apply Hc; set_solver.
Qed.

Lemma num_update_fn_other (st : state) (r : gmap string Q) (c : string) :
  c ∉ updated_cols → num (update_fn st r) c = num r c.
Proof. intros Hc. unfold num. by rewrite lookup_update_fn_other. Qed.

Lemma not_derived_not_updated (c : string) : c ∉ derived_cols → c ∉ updated_cols.
Proof. unfold derived_cols, updated_cols. set_solver. Qed.

Lemma sum_axis1_ext (cols : list string) (r r' : gmap string Q) :
  (∀ x, x ∈ cols → num r x = num r' x) → sum_axis1 cols r = sum_axis1 cols r'.
Proof.
  unfold sum_axis1. generalize 0%Q. induction cols as [|c cols IH]; intros a H; simpl.
  - done.
  - rewrite (H c) by left. apply IH. intros x Hx. apply H. by right.
Qed.

Lemma ncolumns_set_column (c : string) (f : gmap string Q → Q) (df : NumFrame) :
  ncolumns (set_column c f df) = add_col (ncolumns df) c.
Proof. reflexivity. Qed.

Lemma ncolumns_cap_lanes (lanes : list string) (m : Q) (df : NumFrame) :
  ncolumns (cap_lanes lanes m df) = foldl add_col (ncolumns df) lanes.
Proof.
  unfold cap_lanes. revert df. induction lanes as [|l lanes IH]; intros df; simpl; [done|].
  by rewrite IH, ncolumns_set_column.
Qed.

Lemma nindex_cap_lanes (lanes : list string) (m : Q) (df : NumFrame) :
  nindex (cap_lanes lanes m df) = nindex df.
Proof.
  unfold cap_lanes. revert df. induction lanes as [|l lanes IH]; intros df; simpl; [done|].
  by rewrite IH.
Qed.

Lemma add_col_mono (cols : list string) (c x : string) : x ∈ cols → x ∈ add_col cols c.
Proof. unfold add_col. destruct (decide _); [done|]. intros H. apply elem_of_app. by left. Qed.

Lemma add_col_in (cols : list string) (c : string) : c ∈ add_col cols c.
Proof.
  unfold add_col. destruct (decide _); [done|]. apply elem_of_app. right. left.
Qed.

Lemma foldl_add_col_mono (l cols : list string) (x : string) :
  x ∈ cols → x ∈ foldl add_col cols l.
Proof.
  revert cols. induction l as [|c l IH]; intros cols H; simpl; [done|].
  by apply IH, add_col_mono.
Qed.

Lemma foldl_add_col_in (l cols : list string) (x : string) :
  x ∈ l → x ∈ foldl add_col cols l.
Proof.
  revert cols. induction l as [|c l IH]; intros cols H; simpl.
  - by apply elem_of_nil in H.
  - apply elem_of_cons in H as [->|H]; [|by apply IH].
    apply foldl_add_col_mono, add_col_in.
Qed.

Lemma foldl_add_col_id (l cols : list string) :
  (∀ x, x ∈ l → x ∈ cols) → foldl add_col cols l = cols.
Proof.
  revert cols. induction l as [|c l IH]; intros cols H; simpl; [done|].
  assert (Hc : add_col cols c = cols).
  { unfold add_col. destruct (decide _) as [|Hn]; [done|]. exfalso. apply Hn, H. left. }
  rewrite Hc. apply IH. intros x Hx. apply H. by right.
Qed.

(** The state [right_size_row] returns. *)
Lemma right_size_row_eq (st : state) (k : string) :
  right_size_row st k
  = with_frames st (sr_df st)
      (<[k := right_size_frame st (scenario_or_copy st k)]> (scenario_dfs st))
      (setdefault_columns (added_columns st) k).
Proof.
  unfold right_size_row, update_row, with_frames.
  cbn [scenario_dfs sr_df added_columns LTL_List RTL_List row_slices
       left_sidewalk_slices left_spec_slices center_width_field right_spec_slices
       right_sidewalk_slices spec_row_fields].
  rewrite lookup_insert_eq, insert_insert_eq. reflexivity.
Qed.

Lemma right_size_frame_with_frames (st : state) (sr : NumFrame)
    (sc : gmap string NumFrame) (ac : gmap string (list string)) (df : NumFrame) :
  right_size_frame (with_frames st sr sc ac) df = right_size_frame st df.
Proof. reflexivity. Qed.

Lemma right_size_frame_rows (st : state) (df : NumFrame) :
  nrows (right_size_frame st df) = (fun r => update_fn st (cap_fn st r)) <$> nrows df.
Proof.
  unfold right_size_frame.
  rewrite nrows_update_frame, !nrows_cap_lanes, <- !list_fmap_compose. done.
Qed.

Lemma right_size_frame_columns (st : state) (df : NumFrame) :
  ncolumns (right_size_frame st df) = foldl add_col (ncolumns df) (right_size_cols st).
Proof.
  unfold right_size_frame, update_frame, right_size_cols.
  rewrite !ncolumns_set_column, !ncolumns_cap_lanes.
  rewrite !foldl_app. reflexivity.
Qed.

Lemma right_size_frame_index (st : state) (df : NumFrame) :
  nindex (right_size_frame st df) = nindex df.
Proof.
  unfold right_size_frame, update_frame, set_column. cbn [nindex].
  by rewrite !nindex_cap_lanes.
Qed.

Lemma caps_ordered : (8 * foot < 10 * foot)%Q ∧ (8 * foot < 11 * foot)%Q.
Proof. split; reflexivity. Qed.

Lemma lane_classes_disjoint (st : state) (c : string) :
  c ∈ curb_side_lanes st → c ∈ other_thru_lanes st → False.
Proof.
  unfold curb_side_lanes, other_thru_lanes. intros H1 H2.
  apply elem_of_List_filter in H1 as [_ H1]. apply elem_of_List_filter in H2 as [_ H2].
  rewrite H1 in H2. discriminate.
Qed.

Lemma right_size_lanes_not_derived (st : state) (c : string) :
  slices_ok st →
  c ∈ curb_side_lanes st ∨ c ∈ other_thru_lanes st ∨ c ∈ parking_lanes st →
  c ∉ derived_cols.
Proof.
  intros Hok Hc. apply Hok. rewrite !elem_of_app.
  unfold curb_side_lanes, other_thru_lanes, parking_lanes in Hc.
  rewrite !elem_of_List_filter, !elem_of_app in Hc. tauto.
Qed.

(** The values [update_row] computes depend on the slices and the base
    width only. *)
Lemma update_fn_ext (st : state) (r1 r2 : gmap string Q) (c : string) :
  slices_ok st →
  (∀ x, x ∉ updated_cols → num r1 x = num r2 x) →
  c ∈ updated_cols → update_fn st r1 !! c = update_fn st r2 !! c.
Proof.
  intros Hok Hnum Hc.
  assert (Hin : ∀ l, (∀ x, x ∈ l → x ∉ updated_cols) →
                     ∀ (ra rb : gmap string Q),
                       (∀ x, x ∉ updated_cols → num ra x = num rb x) →
                       sum_axis1 l ra = sum_axis1 l rb).
  { intros l Hl ra rb Hab. apply sum_axis1_ext. intros x Hx. apply Hab, Hl, Hx. }
  assert (Hrs : ∀ x, x ∈ row_slices st → x ∉ updated_cols).
  { intros x Hx. apply not_derived_not_updated, Hok. rewrite !elem_of_app. auto. }
  assert (Hls : ∀ x, x ∈ left_sidewalk_slices st → x ∉ updated_cols).
  { intros x Hx. apply not_derived_not_updated, Hok. rewrite !elem_of_app. auto. }
  assert (Hrss : ∀ x, x ∈ right_sidewalk_slices st → x ∉ updated_cols).
  { intros x Hx. apply not_derived_not_updated, Hok. rewrite !elem_of_app. auto 6. }
  assert (Hbase : num r1 "Base_Total_ROW_Width" = num r2 "Base_Total_ROW_Width").
  { apply Hnum. unfold updated_cols. set_solver. }
  assert (Hins : ∀ (ra rb : gmap string Q) c' va vb,
            c' ∈ updated_cols →
            (∀ x, x ∉ updated_cols → num ra x = num rb x) →
            ∀ x, x ∉ updated_cols → num (<[c' := va]> ra) x = num (<[c' := vb]> rb) x).
  { intros ra rb c' va vb Hc' Hab x Hx.
    rewrite !num_insert_ne by (intros ->; done). by apply Hab. }
  assert (HT : sum_axis1 (row_slices st) r1 = sum_axis1 (row_slices st) r2)
    by (apply Hin; done).
  unfold update_fn. cbv zeta.
  set (T1 := sum_axis1 (row_slices st) r1). set (T2 := sum_axis1 (row_slices st) r2).
  fold T1 T2 in HT.
  set (a1 := <["Total_ROW_Width" := T1]> r1). set (a2 := <["Total_ROW_Width" := T2]> r2).
  assert (Ha : ∀ x, x ∉ updated_cols → num a1 x = num a2 x)
    by (apply Hins; [unfold updated_cols; set_solver | done]).
  assert (HaT : num a1 "Total_ROW_Width" = num a2 "Total_ROW_Width")
    by (unfold a1, a2; by rewrite !num_insert_eq).
  assert (HaB : num a1 "Base_Total_ROW_Width" = num a2 "Base_Total_ROW_Width")
    by (apply Ha; unfold updated_cols; set_solver).
  set (U1 := (num a1 "Base_Total_ROW_Width" - num a1 "Total_ROW_Width")%Q).
  set (U2 := (num a2 "Base_Total_ROW_Width" - num a2 "Total_ROW_Width")%Q).
  assert (HU : U1 = U2) by (unfold U1, U2; by rewrite HaT, HaB).
  set (b1 := <["Unused_ROW_Width" := U1]> a1). set (b2 := <["Unused_ROW_Width" := U2]> a2).
  assert (Hb : ∀ x, x ∉ updated_cols → num b1 x = num b2 x)
    by (apply Hins; [unfold updated_cols; set_solver | done]).
  assert (HL : sum_axis1 (left_sidewalk_slices st) b1 = sum_axis1 (left_sidewalk_slices st) b2)
    by (apply Hin; done).
  set (L1 := sum_axis1 (left_sidewalk_slices st) b1) in *.
  set (L2 := sum_axis1 (left_sidewalk_slices st) b2) in *.
  set (c1 := <["Left_Sidewalk_Width" := L1]> b1).
  set (c2 := <["Left_Sidewalk_Width" := L2]> b2).
  assert (Hc12 : ∀ x, x ∉ updated_cols → num c1 x = num c2 x)
    by (apply Hins; [unfold updated_cols; set_solver | done]).
  assert (HR : sum_axis1 (right_sidewalk_slices st) c1
               = sum_axis1 (right_sidewalk_slices st) c2) by (apply Hin; done).
  set (R1 := sum_axis1 (right_sidewalk_slices st) c1) in *.
  set (R2 := sum_axis1 (right_sidewalk_slices st) c2) in *.
  set (d1 := <["Right_Sidewalk_Width" := R1]> c1).
  set (d2 := <["Right_Sidewalk_Width" := R2]> c2).
  assert (Hvals : num d1 "Total_ROW_Width" = num d2 "Total_ROW_Width"
                  ∧ num d1 "Unused_ROW_Width" = num d2 "Unused_ROW_Width"
                  ∧ num d1 "Left_Sidewalk_Width" = num d2 "Left_Sidewalk_Width"
                  ∧ num d1 "Right_Sidewalk_Width" = num d2 "Right_Sidewalk_Width").
  { unfold d1, d2, c1, c2, b1, b2, a1, a2. num_simpl. rewrite HT, HU, HL, HR. done. }
  destruct Hvals as (E1 & E2 & E3 & E4).
  unfold updated_cols in Hc.
  repeat (apply elem_of_cons in Hc as [->|Hc];
          [unfold d1, d2, c1, c2, b1, b2, a1, a2 in *;
           repeat first [rewrite lookup_insert_eq | rewrite lookup_insert_ne by done];
           congruence|]).
  by apply elem_of_nil in Hc.
Qed.

Lemma right_size_fn_idem (st : state) (r : gmap string Q) :
  slices_ok st →
  update_fn st (cap_fn st (update_fn st (cap_fn st r))) = update_fn st (cap_fn st r).
Proof.
  intros Hok. set (r1 := update_fn st (cap_fn st r)).
  assert (K : ∀ x, x ∉ updated_cols → num (cap_fn st r1) x = num (cap_fn st r) x).
  { intros x Hx. rewrite !num_cap_fn. unfold r1.
    by rewrite num_update_fn_other, num_cap_fn, cap_value_idem. }
  apply map_eq. intros c.
  destruct (decide (c ∈ updated_cols)) as [Hc|Hc].
  - unfold r1 at 2. by apply update_fn_ext.
  - assert (E : r1 !! c = cap_fn st r !! c)
      by (unfold r1; by rewrite lookup_update_fn_other).
    assert (En : num r1 c = cap_value st c (num r c))
      by (unfold r1; by rewrite num_update_fn_other, num_cap_fn).
    rewrite lookup_update_fn_other by done.
    rewrite E, !lookup_cap_fn.
    destruct (decide _) as [Hl|Hl].
    + by rewrite En, cap_value_idem.
    + rewrite E, lookup_cap_fn. by destruct (decide _).
Qed.

Lemma right_size_fn_caps (st : state) (r : gmap string Q) :
  slices_ok st →
  (∀ lane, lane ∈ curb_side_lanes st → lane ∉ parking_lanes st →
           num (update_fn st (cap_fn st r)) lane = Qmin (num r lane) (11 * foot))
  ∧ (∀ lane, lane ∈ other_thru_lanes st → lane ∉ parking_lanes st →
             num (update_fn st (cap_fn st r)) lane = Qmin (num r lane) (10 * foot))
  ∧ (∀ lane, lane ∈ parking_lanes st →
             num (update_fn st (cap_fn st r)) lane = Qmin (num r lane) (8 * foot)).
Proof.
  intros Hok. destruct caps_ordered as [H810 H811].
  assert (Hnum : ∀ lane,
            lane ∈ curb_side_lanes st ∨ lane ∈ other_thru_lanes st ∨ lane ∈ parking_lanes st →
            num (update_fn st (cap_fn st r)) lane = cap_value st lane (num r lane)).
  { intros lane Hl. rewrite num_update_fn_other, num_cap_fn; [done|].
    apply not_derived_not_updated. by apply (right_size_lanes_not_derived st). }
  repeat split; intros lane Hin; [intros Hnp | intros Hnp |];
    rewrite Hnum by tauto; unfold cap_value;
    change (Qmin (num r lane)) with (where_gt (num r lane)).
  - destruct (decide (lane ∈ curb_side_lanes st)); [|done].
    destruct (decide (lane ∈ other_thru_lanes st)) as [Ho|_];
      [by destruct (lane_classes_disjoint st lane)|].
    by destruct (decide (lane ∈ parking_lanes st)).
  - destruct (decide (lane ∈ curb_side_lanes st)) as [Hc|_];
      [by destruct (lane_classes_disjoint st lane)|].
    destruct (decide (lane ∈ other_thru_lanes st)); [|done].
    by destruct (decide (lane ∈ parking_lanes st)).
  - destruct (decide (lane ∈ parking_lanes st)); [|done].
    destruct (decide (lane ∈ curb_side_lanes st)) as [Hc|_],
      (decide (lane ∈ other_thru_lanes st)) as [Ho|_];
      try (by destruct (lane_classes_disjoint st lane));
      rewrite ?where_gt_nested by done; reflexivity.
Qed.

Lemma call_lists (st : state) (e : editor) :
  LTL_List (call st e) = LTL_List st ∧ RTL_List (call st e) = RTL_List st
  ∧ row_slices (call st e) = row_slices st.
Proof.
  destruct e; cbn [call];
    unfold right_size_row, remove_parking_lanes, apply_road_diet, update_row, with_frames;
    cbn [scenario_dfs]; rewrite lookup_insert_eq; done.
Qed.

Lemma right_size_frame_idem (st : state) (df : NumFrame) :
  slices_ok st → right_size_frame st (right_size_frame st df) = right_size_frame st df.
Proof.
  intros Hok.
  assert (Heq : ∀ a b : NumFrame,
            ncolumns a = ncolumns b → nindex a = nindex b → nrows a = nrows b → a = b).
  { intros [] []. simpl. congruence. }
  apply Heq.
  - rewrite !right_size_frame_columns. apply foldl_add_col_id.
    intros x Hx. by apply foldl_add_col_in.
  - by rewrite !right_size_frame_index.
  - rewrite !right_size_frame_rows, <- list_fmap_compose.
    apply list_fmap_ext. intros i r _. cbn [compose]. by apply right_size_fn_idem.
Qed.

Lemma setdefault_columns_idem (ac : gmap string (list string)) (k : string) :
  setdefault_columns (setdefault_columns ac k) k = setdefault_columns ac k.
Proof.
  unfold setdefault_columns.
  destruct (ac !! k) eqn:E; [by rewrite E|].
  destruct (ac !! "BASELINE_ROW") eqn:E'; [|by rewrite E, E'].
  by rewrite lookup_insert_eq.
Qed.

Lemma right_size_row_idem (st : state) (k : string) :
  slices_ok st → right_size_row (right_size_row st k) k = right_size_row st k.
Proof.
  intros Hok. rewrite (right_size_row_eq (right_size_row st k)).
  rewrite !right_size_row_eq.
  unfold scenario_or_copy, with_frames.
  cbn [sr_df scenario_dfs added_columns LTL_List RTL_List row_slices
       left_sidewalk_slices left_spec_slices center_width_field right_spec_slices
       right_sidewalk_slices spec_row_fields].
  rewrite lookup_insert_eq, insert_insert_eq, setdefault_columns_idem.
  cbn [default from_option id].
  change (right_size_frame _ ?d) with (right_size_frame st d).
  by rewrite right_size_frame_idem.
Qed.

(** C9, as the code has it. In every state the editors reach,
    [right_size_row] leaves in each row: a curbside through lane that is not
    also a parking lane at the minimum of its previous width and 11 feet,
    another through lane that is not also a parking lane at the minimum of
    its previous width and 10 feet, and every parking lane at the minimum of
    its previous width and 8 feet; a second call changes nothing. *)
Theorem right_size_row_caps_idempotent (df : NumFrame) (st0 : state)
    (calls : list editor) (scenario_key : string) :
  init df = Some st0 →
  let st := foldl call st0 calls in
  (∃ after,
     scenario_dfs (right_size_row st scenario_key) !! scenario_key = Some after
     ∧ Forall2 (fun r r' =>
                  (∀ lane, lane ∈ curb_side_lanes st → lane ∉ parking_lanes st →
                           num r' lane = Qmin (num r lane) (11 * foot))
                  ∧ (∀ lane, lane ∈ other_thru_lanes st → lane ∉ parking_lanes st →
                             num r' lane = Qmin (num r lane) (10 * foot))
                  ∧ (∀ lane, lane ∈ parking_lanes st →
                             num r' lane = Qmin (num r lane) (8 * foot)))
               (nrows (scenario_or_copy st scenario_key)) (nrows after))
  ∧ right_size_row (right_size_row st scenario_key) scenario_key
    = right_size_row st scenario_key.
Proof.
  intros Hinit st.
  assert (Hok : slices_ok st).
  { assert (H0 : evaluator_inv st0 st0).
    { split; [done|]. split; [by eapply init_slices_ok|].
      intros k scen. destruct (init_lists df st0 Hinit) as (_ & _ & _ & _ & _ & ->).
      by rewrite lookup_empty. }
    assert (Hinv : evaluator_inv st0 st).
    { subst st. revert H0. generalize st0 at 2 4.
      induction calls as [|e calls IH]; intros s H0; simpl; [exact H0|].
      apply IH. by apply call_inv. }
    apply Hinv. }
  split.
  - rewrite right_size_row_eq. unfold with_frames. cbn [scenario_dfs].
    rewrite lookup_insert_eq. eexists. split; [reflexivity|].
    rewrite right_size_frame_rows. apply Forall2_fmap_r, Forall_Forall2_diag.
    apply Forall_forall. intros r _. by apply right_size_fn_caps.
  - by apply right_size_row_idem.
Qed.

End EvaluatorFacts.

Section EvaluatorExamples.

Import shared_row_data_evaluator.


Lemma right_size_row_caps_idempotent_witness :
  match init street with
  | Some st =>
      (∃ after,
         scenario_dfs (right_size_row st "Right_Sized") !! "Right_Sized" = Some after
         ∧ Forall2 (fun r r' =>
                      (∀ lane, lane ∈ curb_side_lanes st → lane ∉ parking_lanes st →
                               num r' lane = Qmin (num r lane) (11 * foot))
                      ∧ (∀ lane, lane ∈ other_thru_lanes st → lane ∉ parking_lanes st →
                                 num r' lane = Qmin (num r lane) (10 * foot))
                      ∧ (∀ lane, lane ∈ parking_lanes st →
                                 num r' lane = Qmin (num r lane) (8 * foot)))
                   (nrows (scenario_or_copy st "Right_Sized")) (nrows after))
      ∧ right_size_row (right_size_row st "Right_Sized") "Right_Sized"
        = right_size_row st "Right_Sized"
  | None => False
  end.
Proof.
  destruct (init street) as [st0|] eqn:E.
  - exact (right_size_row_caps_idempotent street st0 [] "Right_Sized" E).
  - vm_compute in E. discriminate E.
Defined.

(** C9 as stated fails on a through lane that is a parking lane by name:
    the lane of 3 m ends at 8 feet, not at min(3 m, 11 feet) = 3 m. *)
Lemma right_size_row_shared_lane :
  match init shared_lane_street with
  | Some st => ¬ right_size_as_stated st "Right_Sized"
  | None => False
  end.
Proof.
  pose (lane := "Right_Through_Lane_1_Parking").
  assert (Hc : curb_side_lanes <$> init shared_lane_street = Some [lane])
    by (vm_compute; reflexivity).
  assert (Hb : (fun st => num_lane lane <$> nrows (scenario_or_copy st "Right_Sized"))
               <$> init shared_lane_street = Some [3%Q])
    by (vm_compute; reflexivity).
  assert (Ha : (fun st => (fun df => num_lane lane <$> nrows df)
                          <$> scenario_dfs (right_size_row st "Right_Sized") !! "Right_Sized")
               <$> init shared_lane_street = Some (Some [(8 * foot)%Q])).
  { vm_compute. reflexivity. }
  destruct (init shared_lane_street) as [st|]; [|discriminate Hc].
  cbn [fmap option_fmap option_map] in Hc, Hb, Ha.
  injection Hc as Hc. injection Hb as Hb. injection Ha as Ha.
  intros (after & Hafter & Hrows).
  rewrite Hafter in Ha. cbn [fmap option_fmap option_map] in Ha. injection Ha as Ha.
  assert (Hvals : Forall2 (fun v v' => v' = Qmin v (11 * foot))
                    (num_lane lane <$> nrows (scenario_or_copy st "Right_Sized"))
                    (num_lane lane <$> nrows after)).
  { apply Forall2_fmap. eapply Forall2_impl; [exact Hrows|].
    intros r r' (Hcurb & _). apply Hcurb. rewrite Hc. left. }
  rewrite Hb, Ha in Hvals.
  inversion Hvals as [|v v' l l' Hv _]; subst.
  vm_compute in Hv. discriminate Hv.
Qed.

End EvaluatorExamples.

(** ** T0: the SharedStreets fetch *)

Section T0Facts.

Import T0.

Variable ssKey : string.
Variable outputFC : string.
Variable urlencode : string → Extent → string.
Variable service : nat → string → option (list json).
Variable overwriteOutput : bool.
Variable float_of_string : string → option Q.
Variable project : Extent → Extent.

Notation createFC := (T0.createFC outputFC overwriteOutput float_of_string).
Notation sendRequest :=
  (T0.sendRequest ssKey outputFC urlencode service overwriteOutput float_of_string).
Notation getPolygon :=
  (T0.getPolygon ssKey outputFC urlencode service overwriteOutput float_of_string project).

Notation fullURL := (T0.fullURL ssKey urlencode).
Notation insert_body := (T0.insert_feature outputFC float_of_string).

Lemma polylineArray_vertices (feature : json) (pts : list (Q * Q)) :
  feature_vertices feature = Some pts →
  (jget "geometry" feature ≫= jget "coordinates") ≫= polylineArray float_of_string
  = Some pts.
Proof.
  unfold feature_vertices.
  destruct (jget "geometry" feature ≫= jget "coordinates") as [[| | | |coords|]|];
    try done.
  cbn [mbind option_bind polylineArray]. intros H.
  apply mapM_Some in H. apply mapM_Some.
  eapply Forall2_impl; [exact H|]. intros c [x y] Hc.
  destruct c as [| | | |[|[| |x'| | |] [|[| |y'| | |] rest]]|]; try done.
Qed.

Lemma insert_body_line_feature (feature : json) (w : world) (rs : list fc_row) :
  line_feature feature →
  feature_classes w !! outputFC = Some rs →
  ∃ r, feature_id feature = Some r.1 ∧ feature_vertices feature = Some r.2
       ∧ insert_body feature w
         = (Some tt, {| requests := requests w;
                        feature_classes := <[outputFC := (rs ++ [r])%list]> (feature_classes w) |}).
Proof.
  intros [[pts Hpts] [id Hid]] Hfc. exists (id, pts). split; [done|]. split; [done|].
  pose proof (polylineArray_vertices feature pts Hpts) as Hpoly.
  unfold T0.insert_feature, bind, lift, feature_id in *.
  destruct (jget "geometry" feature ≫= jget "coordinates") as [sc|]; [|done].
  cbn [mbind option_bind] in Hpoly. cbn [ret]. rewrite Hpoly. cbn [ret].
  rewrite Hid. cbn [ret]. unfold insertRow. by rewrite Hfc.
Qed.

Lemma for_each_insert (features : list json) (w : world) (rs : list fc_row) :
  Forall line_feature features →
  feature_classes w !! outputFC = Some rs →
  ∃ new,
    Forall2 (fun feature r => feature_id feature = Some r.1
                              ∧ feature_vertices feature = Some r.2) features new
    ∧ for_each features insert_body w
      = (Some tt, {| requests := requests w;
                     feature_classes := <[outputFC := (rs ++ new)%list]> (feature_classes w) |}).
Proof.
  intros Hall. revert w rs. induction Hall as [|f fs Hf Hfs IH]; intros w rs Hfc.
  - exists []. split; [constructor|]. simpl. unfold ret. f_equal.
    destruct w as [rq fc]. simpl in *. f_equal.
    rewrite app_nil_r. by rewrite insert_id.
  - destruct (insert_body_line_feature f w rs Hf Hfc) as (r & Hid & Hv & Hstep).
    set (w1 := {| requests := requests w;
                  feature_classes := <[outputFC := (rs ++ [r])%list]> (feature_classes w) |}).
    destruct (IH w1 (rs ++ [r])%list) as (new & Hnew & Hrest).
    { unfold w1. cbn [feature_classes]. by rewrite lookup_insert_eq. }
    exists (r :: new). split; [by constructor|].
    cbn [for_each]. unfold bind at 1. rewrite Hstep. fold w1. rewrite Hrest.
    unfold w1. cbn [requests feature_classes].
    by rewrite insert_insert_eq, <- app_assoc.
Qed.

(** C7. When the output feature class can be created and every element of
    the response is a line feature with an id, [createFC] succeeds and the
    output feature class holds exactly one row per element, in the order of
    the array, whose ssID is the element's properties.id and whose vertices
    are the element's coordinates in order. *)
Theorem createFC_one_row_per_feature (features : list json) (w : world) :
  feature_classes w !! outputFC = None ∨ overwriteOutput = true →
  Forall line_feature features →
  ∃ w' rows,
    createFC features w = (Some tt, w')
    ∧ feature_classes w' !! outputFC = Some rows
    ∧ length rows = length features
    ∧ Forall2 (fun feature r => feature_id feature = Some r.1
                                ∧ feature_vertices feature = Some r.2) features rows.
Proof.
  intros Hcreate Hall.
  set (w0 := {| requests := requests w;
                feature_classes := <[outputFC := []]> (feature_classes w) |}).
  assert (Hc : CreateFeatureclass overwriteOutput outputFC w = (Some tt, w0)).
  { unfold CreateFeatureclass. destruct (feature_classes w !! outputFC) eqn:E; [|done].
    destruct Hcreate as [?| ->]; done. }
  destruct (for_each_insert features w0 [] Hall) as (rows & Hrows & Hrun).
  { unfold w0. cbn [feature_classes]. by rewrite lookup_insert_eq. }
  eexists _, rows. split; [|split; [|split; [|exact Hrows]]].
  - unfold T0.createFC, bind at 1. rewrite Hc. exact Hrun.
  - cbn [feature_classes]. by rewrite lookup_insert_eq.
  - symmetry. eapply Forall2_length, Hrows.
Qed.

(** Neither the platform calls nor the loop of [createFC] send requests. *)
Lemma bind_requests {A B : Type} (m : M A) (k : A → M B) (w : world) (l : list string) :
  requests (m w).2 = l →
  (∀ a w', requests w' = l → requests (k a w').2 = l) →
  requests (bind m k w).2 = l.
Proof.
  intros Hm Hk. unfold bind. destruct (m w) as [[a|] w']; simpl in *; [by apply Hk | done].
Qed.

Lemma lift_requests {A : Type} (o : option A) (w : world) : requests (lift o w).2 = requests w.
Proof. by destruct o. Qed.

Lemma insertRow_requests (path : string) (r : fc_row) (w : world) :
  requests (insertRow path r w).2 = requests w.
Proof. unfold insertRow. by destruct (feature_classes w !! path). Qed.

Lemma insert_feature_requests (feature : json) (w : world) :
  requests (insert_body feature w).2 = requests w.
Proof.
  unfold T0.insert_feature.
  apply bind_requests; [apply lift_requests|]. intros sc w1 H1.
  apply bind_requests; [by rewrite lift_requests|]. intros pl w2 H2.
  apply bind_requests; [by rewrite lift_requests|]. intros id w3 H3.
  by rewrite insertRow_requests.
Qed.

Lemma for_each_requests {A : Type} (l : list A) (body : A → M unit) (w : world) :
  (∀ x w', requests (body x w').2 = requests w') →
  requests (for_each l body w).2 = requests w.
Proof.
  intros Hbody. revert w. induction l as [|x l IH]; intros w; [done|].
  cbn [for_each]. apply bind_requests; [apply Hbody|].
  intros _ w' Hw'. by rewrite IH.
Qed.

Lemma createFC_requests (features : list json) (w : world) :
  requests (createFC features w).2 = requests w.
Proof.
  unfold T0.createFC. apply bind_requests.
  - unfold CreateFeatureclass.
    destruct (feature_classes w !! outputFC); [destruct overwriteOutput|]; done.
  - intros _ w' Hw'. rewrite for_each_requests; [done|]. apply insert_feature_requests.
Qed.

Lemma sendRequest_requests (poly : Extent) (w : world) :
  requests (sendRequest poly w).2 = (requests w ++ [fullURL poly])%list.
Proof.
  unfold T0.sendRequest, bind, urlopen.
  destruct (service _ _) as [fs|]; [|done].
  by rewrite createFC_requests.
Qed.

Lemma sendRequest_failure (poly : Extent) (w : world) :
  service (length (requests w)) (fullURL poly) = None →
  sendRequest poly w
  = (None, {| requests := (requests w ++ [fullURL poly])%list;
              feature_classes := feature_classes w |}).
Proof. intros H. unfold T0.sendRequest, bind, urlopen. by rewrite H. Qed.

Lemma getPolygon_geographic (rows : list Extent) (w : world) :
  ∃ n, (n ≤ length rows)%nat
       ∧ requests (for_each rows (fun row => sendRequest row) w).2
         = (requests w ++ (fullURL <$> take n rows))%list
       ∧ ((for_each rows (fun row => sendRequest row) w).1 = Some tt → n = length rows).
Proof.
  revert w. induction rows as [|row rows IH]; intros w.
  - exists 0%nat. simpl. by rewrite app_nil_r.
  - cbn [for_each]. unfold bind at 1 2.
    pose proof (sendRequest_requests row w) as Hreq.
    destruct (sendRequest row w) as [[[]|] w1]; simpl in Hreq.
    + destruct (IH w1) as (n & Hn & Hrq & Hok). exists (S n).
      split; [simpl; lia|]. split.
      * rewrite Hrq, Hreq. simpl. by rewrite <- app_assoc.
      * intros H. simpl. f_equal. by apply Hok.
    + exists 1%nat. split; [simpl; lia|]. split; [|done].
      simpl. by destruct rows.
Qed.

(** C3, as the code has it. A call of [sendRequest] sends exactly one
    request, whether the service answers or not; when the request fails
    the call raises at once, with no second request and no change to the
    feature classes.  A run on one polygon sends exactly one request.  A
    run on a geographic input sends at most one request per polygon, in
    order, all of them when the run ends without an exception. *)
Theorem fetch_one_request_per_polygon :
  (∀ poly w,
     requests (sendRequest poly w).2 = (requests w ++ [fullURL poly])%list
     ∧ (service (length (requests w)) (fullURL poly) = None →
        (sendRequest poly w).1 = None
        ∧ feature_classes (sendRequest poly w).2 = feature_classes w))
  ∧ (∀ row projected w,
       requests (getPolygon [row] projected w).2
       = (requests w ++ [fullURL (if projected then project row else row)])%list)
  ∧ (∀ rows w,
       ∃ n, (n ≤ length rows)%nat
            ∧ requests (getPolygon rows false w).2
              = (requests w ++ (fullURL <$> take n rows))%list
            ∧ ((getPolygon rows false w).1 = Some tt → n = length rows)).
Proof.
  split; [|split].
  - intros poly w. split; [apply sendRequest_requests|].
    intros H. by rewrite (sendRequest_failure poly w H).
  - intros row projected w. unfold T0.getPolygon. cbn [for_each fmap list_fmap].
    destruct projected.
    + cbn [for_each]. unfold bind at 1.
      pose proof (sendRequest_requests (project row) w) as Hreq.
      unfold bind at 1.
      destruct (sendRequest (project row) w) as [[[]|] w1]; simpl in *; done.
    + unfold bind at 1.
      pose proof (sendRequest_requests row w) as Hreq.
      destruct (sendRequest row w) as [[[]|] w1]; simpl in *; done.
  - intros rows w. apply getPolygon_geographic.
Qed.

End T0Facts.

(** C3 as stated fails on an input with two polygons: the run sends two
    requests. *)
Lemma two_polygons_two_requests :
  ¬ one_request_per_run "key" "streets" (fun _ _ => "bounds")
      (fun _ _ => Some [street_feature]) true (fun _ => None) id.
Proof.
  intros H. specialize (H [block_a; block_b] false empty_world).
  vm_compute in H. discriminate H.
Qed.

Lemma createFC_one_row_per_feature_witness :
  ∃ w' rows,
    T0.createFC "streets" true (fun _ => None) [street_feature; street_feature] empty_world
    = (Some tt, w')
    ∧ T0.feature_classes w' !! "streets" = Some rows
    ∧ length rows = 2%nat
    ∧ Forall2 (fun feature r => feature_id feature = Some r.1
                                ∧ feature_vertices feature = Some r.2)
              [street_feature; street_feature] rows.
Proof.
  apply (createFC_one_row_per_feature "streets" true (fun _ => None)
           [street_feature; street_feature] empty_world).
  - left. reflexivity.
  - repeat constructor; vm_compute; eauto.
Defined.

(** ** T1: the extraction of the CurbLR fields *)

Section T1Facts.

Import T1.

Variable geometry_t : Type.
Variable point_t : Type.
Variable Point : list json → option point_t.
Variable Polyline : list point_t → option geometry_t.

Lemma extract_lacks (field : string) (v : pyval) : lacks field v → extract v field = PyNone.
Proof.
  unfold lacks, extract. intros H.
  destruct v as [|[| | | | |fields]]; try done.
  by rewrite (H fields eq_refl).
Qed.

Lemma optional_cell_absent (df : list normalized) (c : string) (f : pyval → pyval)
    (r : normalized) :
  f NaN = PyNone → jget c (JObj (timeSpan r)) = None → optional_cell df c f r = PyNone.
Proof.
  intros Hf Hc. unfold optional_cell, cell. rewrite Hc.
  by destruct (has_column df c).
Qed.

Lemma extract_row_fallbacks (df : list normalized) (r : normalized) (g : geometry_t) :
  fallbacks r (extract_row df r g).
Proof.
  unfold fallbacks, extract_row.
  cbn [timesOfDay_from timesOfDay_to effectiveDates_from effectiveDates_to
       SharedStreetID payment activity priorityCategory maxStay].
  repeat match goal with |- _ ∧ _ => split end; intros Habs;
    repeat match goal with |- _ ∧ _ => split end;
    first [ by apply optional_cell_absent
          | by rewrite Habs
          | by rewrite (extract_lacks _ _ Habs) ].
Qed.


End T1Facts.



(** ** pandas: groupby and sorting *)

Section PandasFacts.

Context {A K : Type} `{EqDecision K}.

Lemma groupby_keys (key_leb : K → K → bool) (key : A → K) (rows : list A) :
  (Pandas.groupby key_leb key rows).*1
  = merge_sort (Pandas.key_le key_leb) (remove_dups (key <$> rows)).
Proof.
  unfold Pandas.groupby. rewrite <- list_fmap_compose. apply list_fmap_id.
Qed.

Lemma groupby_keys_NoDup (key_leb : K → K → bool) (key : A → K) (rows : list A) :
  NoDup (Pandas.groupby key_leb key rows).*1.
Proof.
  rewrite groupby_keys. rewrite merge_sort_Permutation. apply NoDup_remove_dups.
Qed.

Lemma elem_of_groupby (key_leb : K → K → bool) (key : A → K) (rows : list A)
    (k : K) (g : list A) :
  (k, g) ∈ Pandas.groupby key_leb key rows
  ↔ k ∈ key <$> rows ∧ g = filter (fun r => key r = k) rows.
Proof.
  unfold Pandas.groupby. rewrite list_elem_of_fmap. split.
  - intros (k' & [= -> ->] & Hk). split; [|done].
    by rewrite merge_sort_Permutation, elem_of_remove_dups in Hk.
  - intros [Hk ->]. exists k. split; [done|].
    by rewrite merge_sort_Permutation, elem_of_remove_dups.
Qed.

Lemma sort_values_desc_Permutation (by_col : A → Q) (l : list A) :
  Pandas.sort_values_desc by_col l ≡ₚ l.
Proof. apply merge_sort_Permutation. Qed.

Lemma sort_values_desc_sorted (by_col : A → Q) (l : list A) (i j : nat) (x y : A) :
  (i ≤ j)%nat →
  Pandas.sort_values_desc by_col l !! i = Some x →
  Pandas.sort_values_desc by_col l !! j = Some y →
  (by_col y <= by_col x)%Q.
Proof.
  assert (Hss : StronglySorted (Pandas.desc by_col) (Pandas.sort_values_desc by_col l)).
  { apply StronglySorted_merge_sort.
    - intros a b c. unfold Pandas.desc. rewrite !Qle_bool_iff. intros; lra.
    - intros a b. unfold Pandas.desc. rewrite !Qle_bool_iff.
      destruct (Qlt_le_dec (by_col a) (by_col b)); [right|left]; lra. }
  revert i j. induction Hss as [|a l' Hss IH Hall]; intros i j Hij Hi Hj; [done|].
  destruct i as [|i], j as [|j]; simpl in *.
  - injection Hi as <-. injection Hj as <-. lra.
  - injection Hi as <-. rewrite Forall_forall in Hall.
    assert (Hy : y ∈ l') by (eapply list_elem_of_lookup_2, Hj).
    specialize (Hall y Hy). unfold Pandas.desc in Hall. by apply Qle_bool_iff in Hall.
  - lia.
  - eapply IH; [|exact Hi|exact Hj]. lia.
Qed.

End PandasFacts.

(** ** T3: the curbside summaries *)

Section T3Facts.

Import T3.

Variable to_datetime : string → Z.

Notation retained := (T3.retained to_datetime).
Notation compute := (T3.compute to_datetime).
Notation from_dt := (T3.from_dt to_datetime).
Notation to_dt := (T3.to_dt to_datetime).

Lemma elem_of_retained (tbl : curb_table) (alts : list string) (c : Z) (r : regulation) :
  r ∈ retained tbl alts c
  ↔ ∃ f, r = compute tbl alts f ∧ f ∈ features tbl ∧ corridor f = c
         ∧ (has_primary tbl = true → primary f = 1%Z)
         ∧ (0 < str_count alts (daysOfWeek f))%Z.
Proof.
  unfold T3.retained. rewrite elem_of_List_filter, list_elem_of_fmap. split.
  - intros [(f & -> & Hf) Hd]. exists f. split; [done|].
    apply Z.ltb_lt in Hd. cbn [compute Days_Active] in Hd.
    destruct (has_primary tbl).
    + apply elem_of_List_filter in Hf as [Hf Hp].
      apply elem_of_List_filter in Hf as [Hf Hc].
      apply Z.eqb_eq in Hp, Hc. done.
    + apply elem_of_List_filter in Hf as [Hf Hc]. apply Z.eqb_eq in Hc. done.
  - intros (f & -> & Hf & Hc & Hp & Hd). split.
    + exists f. split; [done|]. destruct (has_primary tbl).
      * rewrite !elem_of_List_filter. rewrite !Z.eqb_eq. auto.
      * rewrite elem_of_List_filter, Z.eqb_eq. auto.
    + apply Z.ltb_lt. exact Hd.
Qed.

Lemma compute_columns (tbl : curb_table) (alts : list string) (f : curb_feature) :
  let r := compute tbl alts f in
  feature r = f
  ∧ Days_Active r = str_count alts (daysOfWeek f)
  ∧ (Hours_Span r == inject_Z (to_dt tbl f - from_dt tbl f) / 3600)%Q
  ∧ (Weekly_Hours r == Hours_Span r * inject_Z (Days_Active r))%Q
  ∧ (Linear_Feet_Hours r == Weekly_Hours r * Linear_Feet f)%Q.
Proof.
  cbn. repeat split; try reflexivity; apply Qred_correct.
Qed.


End T3Facts.


Example corridor_summary_example :
  option_map (map (fun s => (T3.sum_Linear_Feet s, T3.sum_Linear_Feet_Hours s,
                             T3.Summary_ID s)))
             (T3.corridor_summary (fun _ => 0%Z) curb_example ["Monday"; "Saturday"] 7)
  = Some [ (150%Q, 1500%Q, 1%Z); (20%Q, 20%Q, 2%Z) ].
Proof. vm_compute. reflexivity. Qed.

(** ** T2: the correspondence between curb features and centerlines *)

Section T2Facts.

Import T2.

Lemma q_min_spec (l : list Q) :
  l ≠ [] → q_min l ∈ l ∧ ∀ x, x ∈ l → (q_min l <= x)%Q.
Proof.
  destruct l as [|a l]; [done|]. intros _. unfold q_min.
  assert (Hgen : ∀ l acc,
            let m := foldl (fun acc y => if Qlt_le_dec y acc then y else acc) acc l in
            (m = acc ∨ m ∈ l) ∧ (m <= acc)%Q ∧ ∀ x, x ∈ l → (m <= x)%Q).
  { clear. induction l as [|y l IH]; intros acc; simpl.
    - split; [by left|]. split; [lra|]. intros x Hx. by apply elem_of_nil in Hx.
    - destruct (Qlt_le_dec y acc) as [Hlt|Hle].
      + destruct (IH y) as (Hm & Hacc & Hall). split; [|split].
        * destruct Hm as [->|Hm]; right; [left | by right].
        * lra.
        * intros x Hx. apply elem_of_cons in Hx as [->|Hx]; [lra | by apply Hall].
      + destruct (IH acc) as (Hm & Hacc & Hall). split; [|split].
        * destruct Hm as [->|Hm]; [by left | right; by right].
        * lra.
        * intros x Hx. apply elem_of_cons in Hx as [->|Hx]; [lra | by apply Hall]. }
  destruct (Hgen l a) as (Hm & Hacc & Hall). split.
  - destruct Hm as [->|Hm]; [left | by right].
  - intros x Hx. apply elem_of_cons in Hx as [->|Hx]; [lra | by apply Hall].
Qed.

Lemma q_max_spec (l : list Q) :
  l ≠ [] → q_max l ∈ l ∧ ∀ x, x ∈ l → (x <= q_max l)%Q.
Proof.
  destruct l as [|a l]; [done|]. intros _. unfold q_max.
  assert (Hgen : ∀ l acc,
            let m := foldl (fun acc y => if Qlt_le_dec acc y then y else acc) acc l in
            (m = acc ∨ m ∈ l) ∧ (acc <= m)%Q ∧ ∀ x, x ∈ l → (x <= m)%Q).
  { clear. induction l as [|y l IH]; intros acc; simpl.
    - split; [by left|]. split; [lra|]. intros x Hx. by apply elem_of_nil in Hx.
    - destruct (Qlt_le_dec acc y) as [Hlt|Hle].
      + destruct (IH y) as (Hm & Hacc & Hall). split; [|split].
        * destruct Hm as [->|Hm]; right; [left | by right].
        * lra.
        * intros x Hx. apply elem_of_cons in Hx as [->|Hx]; [lra | by apply Hall].
      + destruct (IH acc) as (Hm & Hacc & Hall). split; [|split].
        * destruct Hm as [->|Hm]; [by left | right; by right].
        * lra.
        * intros x Hx. apply elem_of_cons in Hx as [->|Hx]; [lra | by apply Hall]. }
  destruct (Hgen l a) as (Hm & Hacc & Hall). split.
  - destruct Hm as [->|Hm]; [left | by right].
  - intros x Hx. apply elem_of_cons in Hx as [->|Hx]; [lra | by apply Hall].
Qed.

(** [idxmin] of a group with rows: a row of the group with the least mean. *)
Lemma idxmin_spec (rows : list candidate) :
  rows ≠ [] →
  ∃ best, idxmin rows = Some best ∧ best ∈ rows
          ∧ ∀ x, x ∈ rows → (Distance_mean best <= Distance_mean x)%Q.
Proof.
  unfold idxmin.
  assert (Hgen : ∀ l b,
            ∃ best, foldl (fun best x =>
                             match best with
                             | None => Some x
                             | Some b => if Qlt_le_dec (Distance_mean x) (Distance_mean b)
                                         then Some x else Some b
                             end) (Some b) l = Some best
                    ∧ (best = b ∨ best ∈ l)
                    ∧ (Distance_mean best <= Distance_mean b)%Q
                    ∧ ∀ x, x ∈ l → (Distance_mean best <= Distance_mean x)%Q).
  { induction l as [|y l IH]; intros b; simpl.
    - exists b. split; [done|]. split; [by left|]. split; [lra|].
      intros x Hx. by apply elem_of_nil in Hx.
    - destruct (Qlt_le_dec (Distance_mean y) (Distance_mean b)) as [Hlt|Hle].
      + destruct (IH y) as (best & Hf & Hm & Hb & Hall). exists best.
        split; [done|]. split; [|split].
        * destruct Hm as [->|Hm]; right; [left | by right].
        * lra.
        * intros x Hx. apply elem_of_cons in Hx as [->|Hx]; [lra | by apply Hall].
      + destruct (IH b) as (best & Hf & Hm & Hb & Hall). exists best.
        split; [done|]. split; [|split].
        * destruct Hm as [->|Hm]; [by left | right; by right].
        * lra.
        * intros x Hx. apply elem_of_cons in Hx as [->|Hx]; [lra | by apply Hall]. }
  destruct rows as [|a rows]; [done|]. intros _. simpl.
  destruct (Hgen rows a) as (best & Hf & Hm & Hb & Hall). exists best.
  split; [done|]. split.
  - destruct Hm as [->|Hm]; [left | by right].
  - intros x Hx. apply elem_of_cons in Hx as [->|Hx]; [lra | by apply Hall].
Qed.

Variable sin_degrees : Q → Q.
Variable angle_threshold : Q.
Variable curb_length : Z → Q.

Lemma group_is_events (located : list located_event) (c cl : Z) :
  filter (fun e => (curb_feature_ID e, corridor_ID e) = (c, cl)) located
  = events located c cl.
Proof.
  unfold events. induction located as [|e l IH]; [done|].
  rewrite filter_cons. simpl. rewrite IH.
  destruct (Z.eqb_spec (curb_feature_ID e) c) as [Hc|Hc],
    (Z.eqb_spec (corridor_ID e) cl) as [Hl|Hl], (decide _) as [Heq|Hne];
    simpl; try done; try (injection Heq as ? ?; done).
  exfalso. apply Hne. by rewrite Hc, Hl.
Qed.

Lemma elem_of_events (located : list located_event) (c cl : Z) (e : located_event) :
  e ∈ events located c cl ↔ e ∈ located ∧ curb_feature_ID e = c ∧ corridor_ID e = cl.
Proof.
  unfold events. rewrite elem_of_List_filter, andb_true_iff, !Z.eqb_eq. tauto.
Qed.

Lemma aggregate_events (located : list located_event) (c cl : Z) :
  let cand := aggregate ((c, cl), events located c cl) in
  c_curb_feature_ID cand = c ∧ c_corridor_ID cand = cl
  ∧ m_located_count cand = length (events located c cl)
  ∧ m_located_min cand = q_min (m_located <$> events located c cl)
  ∧ m_located_max cand = q_max (m_located <$> events located c cl)
  ∧ Distance_mean cand = distance_mean located c cl
  ∧ Distance_delta cand
    = Qabs (q_max (Distance <$> events located c cl)
            - q_min (Distance <$> events located c cl)).
Proof. repeat split. Qed.

Lemma aggregate_length (located : list located_event) (c cl : Z) :
  (∀ e, e ∈ located → LENGTH e = curb_length (curb_feature_ID e)) →
  events located c cl ≠ [] →
  LENGTH_first (aggregate ((c, cl), events located c cl)) = curb_length c.
Proof.
  intros Hlen Hne. cbn [aggregate LENGTH_first snd].
  destruct (events located c cl) as [|e evs] eqn:E; [done|]. cbn.
  assert (He : e ∈ events located c cl) by (rewrite E; left).
  apply elem_of_events in He as (He & Hc & _). rewrite <- Hc. by apply Hlen.
Qed.

Lemma screened_condition (located : list located_event) (c cl : Z) :
  (∀ e, e ∈ located → LENGTH e = curb_length (curb_feature_ID e)) →
  let cand := aggregate ((c, cl), events located c cl) in
  (1 <? m_located_count cand)%nat
  && negb (Qeq_bool (m_located_min cand) (m_located_max cand))
  && lt_float (d_over_l cand) (sin_degrees angle_threshold)
  = survives sin_degrees angle_threshold curb_length located c cl.
Proof.
  intros Hlen. cbv zeta.
  destruct (aggregate_events located c cl) as (_ & _ & Hcnt & Hmin & Hmax & _ & Hdelta).
  rewrite Hcnt, Hmin, Hmax. unfold survives.
  destruct (1 <? length (events located c cl))%nat eqn:Hcount; [|done].
  assert (Hne : events located c cl ≠ []).
  { intros Hnil. rewrite Hnil in Hcount. done. }
  cbn [andb]. f_equal. unfold d_over_l, ratio_lt, lt_float.
  rewrite (aggregate_length located c cl Hlen Hne), Hdelta.
  by destruct (Qeq_bool (curb_length c) 0).
Qed.

Lemma elem_of_screened (located : list located_event) (cand : candidate) :
  (∀ e, e ∈ located → LENGTH e = curb_length (curb_feature_ID e)) →
  cand ∈ T2.screened sin_degrees angle_threshold located
  ↔ ∃ c cl, survives sin_degrees angle_threshold curb_length located c cl = true
            ∧ cand = aggregate ((c, cl), events located c cl).
Proof.
  intros Hlen. unfold T2.screened.
  rewrite !elem_of_List_filter, list_elem_of_fmap. split.
  - intros [[[([[c cl] g] & -> & Hkg) H1] H2] H3].
    apply elem_of_groupby in Hkg as [_ ->]. rewrite group_is_events in *.
    exists c, cl. split; [|done].
    rewrite <- (screened_condition located c cl Hlen). cbv zeta.
    by rewrite H1, H2, H3.
  - intros (c & cl & Hs & ->).
    rewrite <- (screened_condition located c cl Hlen) in Hs. cbv zeta in Hs.
    apply andb_true_iff in Hs as [Hs H3]. apply andb_true_iff in Hs as [H1 H2].
    split; [split; [split|]|]; try done.
    exists ((c, cl), events located c cl). split; [done|].
    apply elem_of_groupby. split; [|by rewrite group_is_events].
    assert (Hne : events located c cl ≠ []).
    { intros Hnil. cbn [m_located_count aggregate snd] in H1. rewrite Hnil in H1. done. }
    destruct (events located c cl) as [|e evs] eqn:E; [done|].
    assert (He : e ∈ events located c cl) by (rewrite E; left).
    apply elem_of_events in He as (He & <- & <-).
    apply list_elem_of_fmap. by exists e.
Qed.

Lemma elem_of_my_df (located : list located_event) (row : Z * Z * Q * Q) :
  row ∈ T2.my_df sin_degrees angle_threshold located
  ↔ ∃ c best,
      c ∈ c_curb_feature_ID <$> T2.screened sin_degrees angle_threshold located
      ∧ idxmin (filter (fun x => c_curb_feature_ID x = c)
                       (T2.screened sin_degrees angle_threshold located)) = Some best
      ∧ row = row_of best.
Proof.
  unfold T2.my_df. rewrite list_elem_of_omap. split.
  - intros (o & Ho & Hrow). apply list_elem_of_fmap in Ho as ([c g] & -> & Hkg).
    apply elem_of_groupby in Hkg as [Hc ->]. cbn [snd] in Hrow.
    destruct (idxmin _) as [best|] eqn:E; [|done]. injection Hrow as <-.
    by exists c, best.
  - intros (c & best & Hc & Hbest & ->).
    exists (Some best). split; [|done].
    apply list_elem_of_fmap.
    exists (c, filter (fun x => c_curb_feature_ID x = c)
                      (T2.screened sin_degrees angle_threshold located)).
    split; [done|]. by apply elem_of_groupby.
Qed.

Lemma group_nonempty (df : list candidate) (c : Z) :
  c ∈ c_curb_feature_ID <$> df → filter (fun x => c_curb_feature_ID x = c) df ≠ [].
Proof.
  intros Hc Hnil. apply list_elem_of_fmap in Hc as (x & -> & Hx).
  assert (Hin : x ∈ filter (fun y => c_curb_feature_ID y = c_curb_feature_ID x) df)
    by (by apply list_elem_of_filter).
  rewrite Hnil in Hin. by apply elem_of_nil in Hin.
Qed.

(** C1. With the LENGTH of every located event that of its curb feature:
    [my_df] has one row per curb feature; the centerline of a row is a
    kept candidate of the curb feature (more than one vertex located, least
    and greatest m-values different, distance ratio below the sine of the
    angle threshold) whose Distance_mean is least among the kept candidates
    of that curb feature, with the least and greatest m-values as m_from and
    m_to; every curb feature with a kept candidate has a row; and the
    features that go on to the output routes are exactly those with a kept
    candidate. *)
Theorem lr_correspondence_spec (located : list located_event) (curb_features : list Z) :
  (∀ e, e ∈ located → LENGTH e = curb_length (curb_feature_ID e)) →
  NoDup ((fun row : Z * Z * Q * Q => row.1.1.1)
         <$> T2.my_df sin_degrees angle_threshold located)
  ∧ (∀ c cl m_from m_to,
       (c, cl, m_from, m_to) ∈ T2.my_df sin_degrees angle_threshold located →
       survives sin_degrees angle_threshold curb_length located c cl = true
       ∧ (∀ cl', survives sin_degrees angle_threshold curb_length located c cl' = true →
                 (distance_mean located c cl <= distance_mean located c cl')%Q)
       ∧ m_from = q_min (m_located <$> events located c cl)
       ∧ m_to = q_max (m_located <$> events located c cl))
  ∧ (∀ c cl,
       survives sin_degrees angle_threshold curb_length located c cl = true →
       ∃ cl' m_from m_to,
         (c, cl', m_from, m_to) ∈ T2.my_df sin_degrees angle_threshold located)
  ∧ (∀ f, f ∈ T2.matched sin_degrees angle_threshold curb_features located
          ↔ f ∈ curb_features
            ∧ ∃ cl, survives sin_degrees angle_threshold curb_length located f cl = true).
Proof.
  intros Hlen.
  set (df := T2.screened sin_degrees angle_threshold located).
  assert (Hrow : ∀ c cl m_from m_to,
            (c, cl, m_from, m_to) ∈ T2.my_df sin_degrees angle_threshold located →
            survives sin_degrees angle_threshold curb_length located c cl = true
            ∧ (∀ cl', survives sin_degrees angle_threshold curb_length located c cl' = true →
                      (distance_mean located c cl <= distance_mean located c cl')%Q)
            ∧ m_from = q_min (m_located <$> events located c cl)
            ∧ m_to = q_max (m_located <$> events located c cl)).
  { intros c cl m_from m_to Hin.
    apply elem_of_my_df in Hin as (c0 & best & Hc0 & Hbest & Heq).
    destruct (idxmin_spec _ (group_nonempty _ _ Hc0)) as (best' & Hb' & Hbin & Hmin).
    fold df in Hbest, Hb', Hbin, Hmin. rewrite Hbest in Hb'. injection Hb' as <-.
    apply list_elem_of_filter in Hbin as [Hbc Hbdf].
    apply (elem_of_screened located best Hlen) in Hbdf as (c1 & cl1 & Hs & ->).
    injection Heq as -> -> -> ->. cbn [c_curb_feature_ID aggregate fst] in Hbc. subst c0.
    cbn [c_curb_feature_ID c_corridor_ID aggregate fst snd].
    split; [exact Hs|]. split; [|done].
    intros cl' Hs'.
    assert (Hin' : aggregate ((c1, cl'), events located c1 cl')
                   ∈ filter (fun x => c_curb_feature_ID x = c1) df).
    { apply list_elem_of_filter. split; [done|].
      apply (elem_of_screened located _ Hlen). by exists c1, cl'. }
    apply Hmin in Hin'. exact Hin'. }
  assert (Hhas : ∀ c cl,
            survives sin_degrees angle_threshold curb_length located c cl = true →
            ∃ cl' m_from m_to,
              (c, cl', m_from, m_to) ∈ T2.my_df sin_degrees angle_threshold located).
  { intros c cl Hs.
    assert (Hc : c ∈ c_curb_feature_ID <$> df).
    { apply list_elem_of_fmap. exists (aggregate ((c, cl), events located c cl)).
      split; [done|]. apply (elem_of_screened located _ Hlen). by exists c, cl. }
    destruct (idxmin_spec _ (group_nonempty _ _ Hc)) as (best & Hb & Hbin & _).
    apply list_elem_of_filter in Hbin as [Hbc _].
    exists (c_corridor_ID best), (m_located_min best), (m_located_max best).
    apply elem_of_my_df. exists c, best. split; [done|]. split; [done|].
    unfold row_of. by rewrite Hbc. }
  split; [|split; [exact Hrow|split; [exact Hhas|]]].
  - assert (Hkeys : (fun row : Z * Z * Q * Q => row.1.1.1)
                    <$> T2.my_df sin_degrees angle_threshold located
                    = (Pandas.groupby Z.leb c_curb_feature_ID df).*1).
    { unfold T2.my_df. fold df.
      generalize (fun (c : Z) (g : list candidate) =>
                    proj1 (elem_of_groupby Z.leb c_curb_feature_ID df c g)).
      generalize (Pandas.groupby Z.leb c_curb_feature_ID df). intros l Hl.
      induction l as [|[c g] l IH]; [done|]. cbn [fmap list_fmap omap list_omap snd fst].
      assert (Hcg : (c, g) ∈ (c, g) :: l) by left.
      apply Hl in Hcg as [Hc ->].
      destruct (idxmin_spec _ (group_nonempty _ _ Hc)) as (best & Hb & Hbin & _).
      rewrite Hb. cbn [fmap option_fmap option_map list_fmap].
      unfold row_of at 1. cbn [fst].
      apply list_elem_of_filter in Hbin as [Hbc _]. rewrite Hbc. f_equal.
      apply IH. intros c' g' Hin. apply Hl. by right. }
    rewrite Hkeys. apply groupby_keys_NoDup.
  - intros f. unfold T2.matched. rewrite elem_of_List_filter. split.
    + intros [Hf Hex]. split; [done|].
      apply existsb_exists in Hex as ([[[c cl] mf] mt] & Hin & Hc).
      apply Z.eqb_eq in Hc. cbn in Hc. subst c.
      apply list_elem_of_In in Hin. exists cl. by apply (Hrow f cl mf mt).
    + intros [Hf [cl Hs]]. split; [done|].
      destruct (Hhas f cl Hs) as (cl' & mf & mt & Hin).
      apply existsb_exists. exists (f, cl', mf, mt). split.
      * by apply list_elem_of_In.
      * cbn. apply Z.eqb_refl.
Qed.

End T2Facts.

Lemma lr_correspondence_spec_witness :
  let sin_degrees := fun _ : Q => (342 # 1000)%Q in
  NoDup ((fun row : Z * Z * Q * Q => row.1.1.1) <$> T2.my_df sin_degrees 20 located_example)
  ∧ (∀ c cl m_from m_to,
       (c, cl, m_from, m_to) ∈ T2.my_df sin_degrees 20 located_example →
       survives sin_degrees 20 length_example located_example c cl = true
       ∧ (∀ cl', survives sin_degrees 20 length_example located_example c cl' = true →
                 (distance_mean located_example c cl
                  <= distance_mean located_example c cl')%Q)
       ∧ m_from = T2.q_min (T2.m_located <$> events located_example c cl)
       ∧ m_to = T2.q_max (T2.m_located <$> events located_example c cl))
  ∧ (∀ c cl,
       survives sin_degrees 20 length_example located_example c cl = true →
       ∃ cl' m_from m_to, (c, cl', m_from, m_to) ∈ T2.my_df sin_degrees 20 located_example)
  ∧ (∀ f, f ∈ T2.matched sin_degrees 20 [1; 2; 3; 4; 5]%Z located_example
          ↔ f ∈ [1; 2; 3; 4; 5]%Z
            ∧ ∃ cl, survives sin_degrees 20 length_example located_example f cl = true).
Proof.
  intros sin_degrees.
  apply (lr_correspondence_spec sin_degrees 20 length_example located_example
                                [1; 2; 3; 4; 5]%Z).
  intros e He. unfold located_example in He.
  repeat (apply elem_of_cons in He as [->|He]; [reflexivity|]).
  by apply elem_of_nil in He.
Defined.

Example my_df_example :
  T2.my_df (fun _ => (342 # 1000)%Q) 20 located_example = [(1%Z, 11%Z, 0%Q, 95%Q)]
  ∧ T2.matched (fun _ => (342 # 1000)%Q) 20 [1; 2; 3; 4; 5]%Z located_example = [1%Z].
Proof. split; vm_compute; reflexivity. Qed.

(** ** curbsidelib: azimuths and directions *)

Lemma Qfloor_unique (q : Q) (z : Z) :
  (inject_Z z <= q)%Q → (q < inject_Z z + 1)%Q → Qfloor q = z.
Proof.
  intros Hlo Hhi.
  pose proof (Qfloor_le q) as Hle.
  pose proof (Qlt_floor q) as Hlt.
  rewrite inject_Z_plus in Hlt. change (inject_Z 1) with 1%Q in Hlt.
  assert (H1 : (inject_Z (Qfloor q) < inject_Z (z + 1))%Q).
  { rewrite inject_Z_plus. change (inject_Z 1) with 1%Q. lra. }
  assert (H2 : (inject_Z z < inject_Z (Qfloor q + 1))%Q).
  { rewrite inject_Z_plus. change (inject_Z 1) with 1%Q. lra. }
  rewrite <- Zlt_Qlt in H1, H2. lia.
Qed.

Lemma py_mod_range (x m : Q) :
  (0 < m)%Q → (0 <= Csl.py_mod x m)%Q ∧ (Csl.py_mod x m < m)%Q.
Proof.
  intros Hm. unfold Csl.py_mod.
  pose proof (Qfloor_le (x / m)) as Hle.
  pose proof (Qlt_floor (x / m)) as Hlt.
  rewrite inject_Z_plus in Hlt. change (inject_Z 1) with 1%Q in Hlt.
  assert (Hx : (x == m * (x / m))%Q) by (field; lra).
  set (k := inject_Z (Qfloor (x / m))) in *.
  set (y := (x / m)%Q) in *.
  split; nra.
Qed.

(** Two numbers that differ by a whole number of moduli have the same
    remainder. *)
Lemma py_mod_shift (x y m : Q) (k : Z) :
  (0 < m)%Q → (y == x + m * inject_Z k)%Q → (Csl.py_mod y m == Csl.py_mod x m)%Q.
Proof.
  intros Hm Hy. unfold Csl.py_mod.
  assert (Hf : Qfloor (y / m) = (Qfloor (x / m) + k)%Z).
  { pose proof (Qfloor_le (x / m)) as Hle.
    pose proof (Qlt_floor (x / m)) as Hlt.
    rewrite inject_Z_plus in Hlt. change (inject_Z 1) with 1%Q in Hlt.
    assert (Hd : (y / m == x / m + inject_Z k)%Q) by (rewrite Hy; field; lra).
    apply Qfloor_unique; rewrite inject_Z_plus, Hd; lra. }
  rewrite Hf, inject_Z_plus, Hy. ring.
Qed.

Lemma py_mod_id (x m : Q) :
  (0 <= x)%Q → (x < m)%Q → (Csl.py_mod x m == x)%Q.
Proof.
  intros H0 Hm. unfold Csl.py_mod.
  assert (Hf : Qfloor (x / m) = 0%Z).
  { apply Qfloor_unique; change (inject_Z 0) with 0%Q.
    - apply Qle_shift_div_l; lra.
    - apply Qlt_shift_div_r; lra. }
  rewrite Hf. change (inject_Z 0) with 0%Q. ring.
Qed.

Lemma py_mod_congruent (x m : Q) :
  (Csl.py_mod x m == x + m * inject_Z (- Qfloor (x / m)))%Q.
Proof. unfold Csl.py_mod. rewrite inject_Z_opp. ring. Qed.

Lemma convert_to_azimuth_twice (angle : Q) :
  (Csl.convert_to_azimuth (Csl.convert_to_azimuth angle) == Csl.py_mod angle 360)%Q.
Proof.
  unfold Csl.convert_to_azimuth.
  apply (py_mod_shift _ _ 360 (Qfloor ((90 - angle) / 360))); [lra|].
  unfold Csl.py_mod. ring.
Qed.




Lemma py_mod_compat (x y m : Q) :
  (0 < m)%Q → (x == y)%Q → (Csl.py_mod x m == Csl.py_mod y m)%Q.
Proof.
  intros Hm E. apply (py_mod_shift y x m 0 Hm).
  change (inject_Z 0) with 0%Q. rewrite E. ring.
Qed.

Lemma find_smallest_angle_shift (a b a' b' : Q) (k : Z) :
  (a' - b' == a - b + 180 * inject_Z k)%Q →
  (Csl.find_smallest_angle a' b' == Csl.find_smallest_angle a b)%Q.
Proof.
  intros E. unfold Csl.find_smallest_angle.
  assert (Hm : (Csl.py_mod (a' - b') 180 == Csl.py_mod (a - b) 180)%Q)
    by (apply (py_mod_shift _ _ 180 k); [lra | exact E]).
  apply py_min_compat; [exact Hm | rewrite Hm; reflexivity].
Qed.




(** ** curbsidelib: the index dictionary of a cursor *)

Section IndexDictFacts.

Lemma construct_index_dict_snoc (field_names : list string) (field : string)
    (index_start : Z) :
  Csl.construct_index_dict (field_names ++ [field]) index_start
  = <[field := (index_start + Z.of_nat (length field_names))%Z]>
      (Csl.construct_index_dict field_names index_start).
Proof.
  unfold Csl.construct_index_dict. rewrite imap_app, foldl_app. cbn.
  rewrite Nat.add_0_r. reflexivity.
Qed.

(** The index of a field is that of its last occurrence in the list. *)
Lemma construct_index_dict_lookup (field_names : list string) (index_start : Z)
    (field : string) :
  match Csl.construct_index_dict field_names index_start !! field with
  | None => field ∉ field_names
  | Some index =>
      ∃ i : nat, index = (index_start + Z.of_nat i)%Z
                 ∧ field_names !! i = Some field
                 ∧ ∀ j : nat, (i < j)%nat → field_names !! j ≠ Some field
  end.
Proof.
  induction field_names as [|x l IH] using rev_ind.
  - unfold Csl.construct_index_dict. cbn. rewrite lookup_empty. apply not_elem_of_nil.
  - rewrite construct_index_dict_snoc.
    destruct (decide (x = field)) as [->|Hne].
    + rewrite lookup_insert_eq. exists (length l). split; [reflexivity|]. split.
      * rewrite lookup_app_r by lia. rewrite Nat.sub_diag. reflexivity.
      * intros j Hj. rewrite lookup_ge_None_2; [discriminate|].
        rewrite length_app. cbn. lia.
    + rewrite lookup_insert_ne by exact Hne.
      destruct (Csl.construct_index_dict l index_start !! field) as [index|].
      * destruct IH as (i & -> & Hi & Hlast). exists i. split; [reflexivity|].
        pose proof (lookup_lt_Some _ _ _ Hi) as Hlt. split.
        -- rewrite lookup_app_l by exact Hlt. exact Hi.
        -- intros j Hj. destruct (decide (j < length l)%nat) as [Hjl|Hjl].
           ++ rewrite lookup_app_l by exact Hjl. apply Hlast, Hj.
           ++ rewrite lookup_app_r by lia.
              destruct (j - length l)%nat as [|n] eqn:E; cbn; [congruence|discriminate].
      * rewrite elem_of_app, list_elem_of_singleton. intros [H|H]; [tauto|congruence].
Qed.

Lemma getitem_nat {A : Type} (row : list A) (i : nat) :
  Py.getitem row (0 + Z.of_nat i) = row !! i.
Proof.
  unfold Py.getitem. rewrite Z.add_0_l.
  destruct (Z.leb_spec 0 (Z.of_nat i)) as [_|H]; [|lia].
  rewrite Nat2Z.id. reflexivity.
Qed.

(** X5. A row read back through the dictionary of its own field names is
    the row: with distinct field names and a value for every field,
    [retrieve_row_values] over [construct_index_dict] returns the values of
    the row in field order and does not raise. *)
Theorem retrieve_row_values_round_trip {A : Type} (row : list A)
    (field_names : list string) :
  NoDup field_names →
  (length field_names ≤ length row)%nat →
  Csl.retrieve_row_values row field_names (Csl.construct_index_dict field_names 0)
  = Some (Some <$> take (length field_names) row).
Proof.
  intros Hnd Hlen. unfold Csl.retrieve_row_values.
  apply mapM_Some. apply Forall2_same_length_lookup_2.
  - rewrite length_fmap, length_take. lia.
  - intros i field v Hi Hv.
    rewrite list_lookup_fmap, lookup_take_lt in Hv by (apply lookup_lt_Some in Hi; exact Hi).
    pose proof (construct_index_dict_lookup field_names 0 field) as Hd.
    destruct (Csl.construct_index_dict field_names 0 !! field) as [index|].
    + destruct Hd as (i' & -> & Hi' & _).
      assert (i' = i) by (eapply NoDup_lookup; eassumption). subst i'.
      rewrite getitem_nat.
      destruct (row !! i) as [x|]; cbn in Hv |- *; congruence.
    + exfalso. apply Hd. eapply list_elem_of_lookup_2, Hi.
Qed.

Lemma retrieve_row_values_round_trip_witness :
  Csl.retrieve_row_values [7; 8; 9]%Z ["OID"; "SHAPE"]
    (Csl.construct_index_dict ["OID"; "SHAPE"] 0)
  = Some (Some <$> take (length ["OID"; "SHAPE"]) [7; 8; 9]%Z).
Proof.
  apply retrieve_row_values_round_trip.
  - repeat constructor; set_solver.
  - cbn. lia.
Defined.

(** X6. [retrieve_row_values] never fails on a field the dictionary does
    not know, it passes None for it; a field that is listed gets the value
    at the position of its last occurrence in the field list.  The call
    returns whenever the row has a value for every listed field. *)
Theorem retrieve_row_values_spec {A : Type} (row : list A)
    (field_names wanted : list string) :
  (length field_names ≤ length row)%nat →
  ∃ values,
    Csl.retrieve_row_values row wanted (Csl.construct_index_dict field_names 0)
    = Some values
    ∧ Forall2 (fun field value =>
                 (field ∉ field_names ∧ value = None)
                 ∨ ∃ i : nat, field_names !! i = Some field
                              ∧ (∀ j : nat, (i < j)%nat → field_names !! j ≠ Some field)
                              ∧ is_Some value ∧ value = row !! i)
              wanted values.
Proof.
  intros Hlen. unfold Csl.retrieve_row_values.
  induction wanted as [|field wanted IH].
  - exists []. split; [reflexivity | constructor].
  - destruct IH as (values & Hvalues & Hall).
    pose proof (construct_index_dict_lookup field_names 0 field) as Hd.
    cbn. rewrite Hvalues.
    destruct (Csl.construct_index_dict field_names 0 !! field) as [index|].
    + destruct Hd as (i & -> & Hi & Hlast). rewrite getitem_nat.
      pose proof (lookup_lt_Some _ _ _ Hi) as Hlt.
      destruct (lookup_lt_is_Some_2 row i ltac:(lia)) as [x Hx].
      rewrite Hx. cbn. eexists. split; [reflexivity|].
      constructor; [|exact Hall]. right. exists i.
      split; [exact Hi|]. split; [exact Hlast|]. split; [eexists; reflexivity|].
      symmetry. exact Hx.
    + cbn. eexists. split; [reflexivity|].
      constructor; [|exact Hall]. left. split; [exact Hd | reflexivity].
Qed.

Lemma retrieve_row_values_spec_witness :
  ∃ values,
    Csl.retrieve_row_values [7; 8; 9]%Z ["SHAPE"; "bearing"; "OID"]
      (Csl.construct_index_dict ["OID"; "SHAPE"; "OID"] 0)
    = Some values
    ∧ Forall2 (fun field value =>
                 (field ∉ ["OID"; "SHAPE"; "OID"] ∧ value = None)
                 ∨ ∃ i : nat, ["OID"; "SHAPE"; "OID"] !! i = Some field
                              ∧ (∀ j : nat, (i < j)%nat
                                            → ["OID"; "SHAPE"; "OID"] !! j ≠ Some field)
                              ∧ is_Some value ∧ value = [7; 8; 9]%Z !! i)
              ["SHAPE"; "bearing"; "OID"] values.
Proof. apply retrieve_row_values_spec. cbn. lia. Defined.

End IndexDictFacts.

(** ** The worker of the road diet *)

Section RoadDietFacts.

Import shared_row_data_evaluator.

Lemma remove_centermost_lane_fold (lock_last_lane : bool) (lanes : list Q) :
  remove_centermost_lane lock_last_lane lanes
  = foldl (diet_step lock_last_lane) lanes (seq 0 (length lanes)).
Proof. reflexivity. Qed.

Lemma diet_fold_inv (P : list Q → Prop) (lock_last_lane : bool) (idxs : list nat)
    (row : list Q) :
  (∀ row idx, P row → P (diet_step lock_last_lane row idx)) →
  P row → P (foldl (diet_step lock_last_lane) row idxs).
Proof.
  intros Hstep. revert row. induction idxs as [|idx idxs IH]; intros row HP; cbn.
  - exact HP.
  - apply IH, Hstep, HP.
Qed.

Lemma Qle_bool_pos (v : Q) : (0 < v)%Q → Qle_bool v 0 = false.
Proof.
  intros Hv. destruct (Qle_bool v 0) eqn:E; [|reflexivity].
  apply Qle_bool_iff in E. lra.
Qed.

(** A turn on a positive lane changes nothing. *)
Lemma diet_step_pos (lock_last_lane : bool) (row : list Q) (idx : nat) (v : Q) :
  row !! idx = Some v → (0 < v)%Q → diet_step lock_last_lane row idx = row.
Proof.
  intros Hv Hpos. unfold diet_step. rewrite Hv, (Qle_bool_pos v Hpos). cbn.
  apply lookup_lt_Some in Hv.
  destruct (Nat.eqb_spec idx (length row + 1)) as [E|_]; [lia | reflexivity].
Qed.

Lemma diet_fold_pos (lock_last_lane : bool) (row : list Q) (idxs : list nat) :
  (∀ idx, idx ∈ idxs → ∃ v, row !! idx = Some v ∧ (0 < v)%Q) →
  foldl (diet_step lock_last_lane) row idxs = row.
Proof.
  induction idxs as [|idx idxs IH]; intros H; cbn; [reflexivity|].
  destruct (H idx) as (v & Hv & Hpos); [left|].
  rewrite (diet_step_pos _ _ _ _ Hv Hpos). apply IH.
  intros i Hi. apply H. right. exact Hi.
Qed.

(** A turn on an empty lane that follows an empty lane changes nothing. *)
Lemma diet_fold_zero (lock_last_lane : bool) (row : list Q) (idxs : list nat) :
  (∀ idx, idx ∈ idxs → (2 ≤ idx)%nat ∧ row !! idx = Some 0%Q
                        ∧ row !! (idx - 1)%nat = Some 0%Q) →
  foldl (diet_step lock_last_lane) row idxs = row.
Proof.
  induction idxs as [|idx idxs IH]; intros H; cbn; [reflexivity|].
  destruct (H idx) as (Hge & Hv & Hprev); [left|].
  assert (Hs : diet_step lock_last_lane row idx = row).
  { unfold diet_step. rewrite Hv.
    destruct idx as [|i]; [lia|].
    replace (S i - 1)%nat with i in Hprev by lia.
    assert (Hc : (Z.of_nat (S i) - 1 =? (if lock_last_lane then 0 else -1))%Z = false)
      by (destruct lock_last_lane; apply Z.eqb_neq; lia).
    rewrite Hc. cbn. apply list_insert_id. exact Hprev. }
  rewrite Hs. apply IH. intros i Hi. apply H. right. exact Hi.
Qed.

(** X7. The road diet takes nothing from a row whose through lanes all have
    a positive width: on such a list of widths [remove_centermost_lane]
    returns its input, whatever [lock_last_lane] is. *)
Theorem remove_centermost_lane_full_street (lock_last_lane : bool) (lanes : list Q) :
  Forall (fun v => (0 < v)%Q) lanes →
  remove_centermost_lane lock_last_lane lanes = lanes.
Proof.
  intros Hall. rewrite remove_centermost_lane_fold. apply diet_fold_pos.
  intros idx Hidx. apply elem_of_seq in Hidx.
  destruct (lookup_lt_is_Some_2 lanes idx ltac:(lia)) as [v Hv].
  exists v. split; [exact Hv|].
  rewrite Forall_forall in Hall. apply Hall. eapply list_elem_of_lookup_2, Hv.
Qed.

Lemma remove_centermost_lane_full_street_witness :
  remove_centermost_lane true [3; 3; (7 # 2); 3]%Q = [3; 3; (7 # 2); 3]%Q.
Proof.
  apply remove_centermost_lane_full_street.
  repeat constructor.
Defined.

(** X8. On a row whose lanes are positive up to some lane and empty (width
    0) from the next one on, [remove_centermost_lane] empties exactly the
    last positive lane; when that lane is the first of the list and
    [lock_last_lane] is set, it stays. *)
Theorem remove_centermost_lane_removes_one (lock_last_lane : bool) (pre : list Q)
    (w : Q) (n : nat) :
  Forall (fun v => (0 < v)%Q) pre → (0 < w)%Q →
  remove_centermost_lane lock_last_lane (pre ++ w :: replicate (S n) 0%Q)%list
  = if lock_last_lane && bool_decide (pre = [])
    then (pre ++ w :: replicate (S n) 0%Q)%list
    else (pre ++ 0%Q :: replicate (S n) 0%Q)%list.
Proof.
  intros Hpre Hw. rewrite remove_centermost_lane_fold.
  set (lanes := (pre ++ w :: replicate (S n) 0%Q)%list).
  assert (Hlen : length lanes = (S (length pre) + S n)%nat).
  { unfold lanes. rewrite length_app. cbn. rewrite length_replicate. lia. }
  rewrite Hlen, seq_app, foldl_app.
  rewrite (diet_fold_pos lock_last_lane lanes (seq 0 (S (length pre)))).
  2:{ intros idx Hidx. apply elem_of_seq in Hidx.
      destruct (decide (idx < length pre)%nat) as [Hlt|Hge].
      - destruct (lookup_lt_is_Some_2 pre idx Hlt) as [v Hv].
        exists v. split.
        + unfold lanes. rewrite lookup_app_l by exact Hlt. exact Hv.
        + rewrite Forall_forall in Hpre. apply Hpre. eapply list_elem_of_lookup_2, Hv.
      - exists w. split; [|exact Hw].
        assert (idx = length pre) as -> by lia.
        unfold lanes. rewrite lookup_app_r by lia. rewrite Nat.sub_diag. reflexivity. }
  cbn [seq foldl Nat.add].
  assert (Hz : ∀ l : list Q, ∀ i : nat,
             (length pre < i)%nat → (i < S (length pre) + S n)%nat → length l = 1%nat →
             (pre ++ l ++ replicate (S n) 0%Q)%list !! i = Some 0%Q).
  { intros l i Hlo Hhi Hl. rewrite lookup_app_r by lia.
    rewrite lookup_app_r by lia. apply lookup_replicate_2. lia. }
  assert (Hnext : lanes !! S (length pre) = Some 0%Q).
  { apply (Hz [w]); [lia | lia | reflexivity]. }
  assert (Hstep : diet_step lock_last_lane lanes (S (length pre))
                  = if lock_last_lane && bool_decide (pre = [])
                    then lanes else (pre ++ 0%Q :: replicate (S n) 0%Q)%list).
  { unfold diet_step. rewrite Hnext. change (Qle_bool 0 0) with true. cbn [andb].
    destruct lock_last_lane; cbn [andb].
    - destruct pre as [|x pre'].
      + cbn. reflexivity.
      + rewrite bool_decide_eq_false_2 by discriminate.
        assert (Hc : (Z.of_nat (S (length (x :: pre'))) - 1 =? 0)%Z = false)
          by (apply Z.eqb_neq; cbn [length]; lia).
        rewrite Hc. cbn [negb]. unfold lanes.
        rewrite insert_app_r_alt by lia. rewrite Nat.sub_diag. reflexivity.
    - assert (Hc : (Z.of_nat (S (length pre)) - 1 =? -1)%Z = false)
        by (apply Z.eqb_neq; lia).
      rewrite Hc. cbn [negb]. unfold lanes.
      rewrite insert_app_r_alt by lia. rewrite Nat.sub_diag. reflexivity. }
  rewrite Hstep.
  apply diet_fold_zero.
  intros idx Hidx. apply elem_of_seq in Hidx.
  split; [lia|].
  destruct (lock_last_lane && bool_decide (pre = [])); unfold lanes.
  - split; [apply (Hz [w]); [lia | lia | reflexivity]|].
    destruct (decide (idx - 1 = S (length pre))%nat) as [E|E].
    + rewrite E. exact Hnext.
    + apply (Hz [w]); [lia | lia | reflexivity].
  - split; [apply (Hz [0%Q]); [lia | lia | reflexivity]|].
    destruct (decide (idx - 1 = S (length pre))%nat) as [E|E].
    + rewrite E. apply (Hz [0%Q]); [lia | lia | reflexivity].
    + apply (Hz [0%Q]); [lia | lia | reflexivity].
Qed.

Lemma remove_centermost_lane_removes_one_witness :
  remove_centermost_lane true ([3; 3]%Q ++ (7 # 2)%Q :: replicate 1 0%Q)%list
  = if true && bool_decide ([3; 3]%Q = [])
    then ([3; 3]%Q ++ (7 # 2)%Q :: replicate 1 0%Q)%list
    else ([3; 3]%Q ++ 0%Q :: replicate 1 0%Q)%list.
Proof.
  apply remove_centermost_lane_removes_one.
  - repeat constructor.
  - reflexivity.
Defined.

(** X9. [remove_centermost_lane] only ever empties lanes: the list keeps
    its length and every width is the one passed in or 0.  With
    [lock_last_lane] a positive first lane is never emptied. *)
Theorem remove_centermost_lane_only_empties (lock_last_lane : bool) (lanes : list Q) :
  length (remove_centermost_lane lock_last_lane lanes) = length lanes
  ∧ (∀ i, remove_centermost_lane lock_last_lane lanes !! i = lanes !! i
          ∨ remove_centermost_lane lock_last_lane lanes !! i = Some 0%Q)
  ∧ (lock_last_lane = true →
     (∃ v, lanes !! 0%nat = Some v ∧ (0 < v)%Q) →
     remove_centermost_lane lock_last_lane lanes !! 0%nat = lanes !! 0%nat).
Proof.
  rewrite remove_centermost_lane_fold.
  set (P := fun row : list Q =>
              length row = length lanes
              ∧ (∀ i, row !! i = lanes !! i ∨ row !! i = Some 0%Q)
              ∧ (lock_last_lane = true →
                 (∃ v, lanes !! 0%nat = Some v ∧ (0 < v)%Q) →
                 row !! 0%nat = lanes !! 0%nat)).
  apply (diet_fold_inv P).
  - clear. intros row idx (Hlen & Hval & Hfirst).
    assert (Hins : ∀ j, P row → (lock_last_lane = true →
                     (∃ v, lanes !! 0%nat = Some v ∧ (0 < v)%Q) → j ≠ 0%nat) →
                   P (<[j := 0%Q]> row)).
    { intros j _ Hj. split; [rewrite length_insert; exact Hlen|]. split.
      - intros i. destruct (decide (j = i)) as [<-|Hne].
        + destruct (decide (j < length row)%nat) as [Hlt|Hge].
          * right. apply list_lookup_insert_eq. exact Hlt.
          * rewrite list_insert_ge by lia. apply Hval.
        + rewrite list_lookup_insert_ne by exact Hne. apply Hval.
      - intros Hlock Hpos. rewrite list_lookup_insert_ne by (apply Hj; assumption).
        apply Hfirst; assumption. }
    assert (HP : P row) by (split; [exact Hlen | split; [exact Hval | exact Hfirst]]).
    unfold diet_step. destruct (row !! idx) as [value|] eqn:Hv; [|exact HP].
    destruct (Qle_bool value 0
              && negb (Z.of_nat idx - 1 =? (if lock_last_lane then 0 else -1))%Z) eqn:Hc.
    + apply andb_prop in Hc. destruct Hc as [Hle Hne].
      apply Qle_bool_iff in Hle. apply negb_true_iff, Z.eqb_neq in Hne.
      apply Hins; [exact HP|]. intros Hlock (v & Hv0 & Hpos).
      subst lock_last_lane.
      destruct idx as [|[|i]].
      * exfalso. rewrite (Hfirst eq_refl (ex_intro _ v (conj Hv0 Hpos))) in Hv.
        rewrite Hv0 in Hv. injection Hv as <-. lra.
      * exfalso. apply Hne. reflexivity.
      * discriminate.
    + destruct (Nat.eqb_spec idx (length row + 1)) as [E|_]; [|exact HP].
      apply lookup_lt_Some in Hv. lia.
  - split; [reflexivity|]. split; [intros i; left; reflexivity|].
    intros _ _. reflexivity.
Qed.

Lemma remove_centermost_lane_only_empties_witness :
  remove_centermost_lane true [3; 0; 0]%Q !! 0%nat = [3; 0; 0]%Q !! 0%nat.
Proof.
  destruct (remove_centermost_lane_only_empties true [3; 0; 0]%Q) as (_ & _ & H).
  apply H; [reflexivity|]. exists 3%Q. split; reflexivity.
Defined.

End RoadDietFacts.

(** ** The shared-row evaluator: scenarios are independent *)

Section ScenarioFacts.

Import shared_row_data_evaluator.

Lemma update_row_inserted (st : state) (k : string) (df : NumFrame) :
  update_row (with_frames st (sr_df st) (<[k := df]> (scenario_dfs st)) (added_columns st)) k
  = with_frames st (sr_df st)
      (<[k := update_frame st df]> (scenario_dfs st))
      (setdefault_columns (added_columns st) k).
Proof.
  unfold update_row. cbn [scenario_dfs with_frames sr_df added_columns].
  rewrite lookup_insert_eq. rewrite insert_insert_eq.
  unfold setdefault_columns, with_frames, update_frame. cbn. reflexivity.
Qed.

(** Every editor leaves the state with the main table it found and with
    one scenario written. *)
Lemma call_frames (st : state) (e : editor) :
  ∃ df, call st e
        = with_frames st (sr_df st) (<[scenario_of e := df]> (scenario_dfs st))
            (setdefault_columns (added_columns st) (scenario_of e)).
Proof.
  destruct e as [k|k r l|k n lock]; cbn [call scenario_of];
    unfold right_size_row, remove_parking_lanes, apply_road_diet;
    rewrite update_row_inserted; eexists; reflexivity.
Qed.

(** X10. The editors work on a copy: a call of [right_size_row],
    [remove_parking_lanes] or [apply_road_diet] for one scenario leaves the
    main table and the table of every other scenario as they were, as
    [get_row_df] returns them. *)
Theorem editors_leave_other_tables (st : state) (e : editor) :
  get_row_df (call st e) None = get_row_df st None
  ∧ ∀ k, k ≠ scenario_of e → get_row_df (call st e) (Some k) = get_row_df st (Some k).
Proof.
  destruct (call_frames st e) as [df ->]. split.
  - reflexivity.
  - intros k Hk. unfold get_row_df. cbn [scenario_dfs sr_df with_frames].
    rewrite lookup_insert_ne by congruence. reflexivity.
Qed.

(** X11. After an editor call its scenario exists: [get_row_df] returns the
    scenario's own table, [get_added_columns] lists for a first edit the
    columns of the baseline, and [clear_sceanarios] makes [get_row_df]
    return the main table again for every key. *)
Theorem editor_scenario_registered (st : state) (e : editor) :
  scenario_dfs (call st e) !! scenario_of e = Some (get_row_df (call st e) (Some (scenario_of e)))
  ∧ (added_columns st !! scenario_of e = None →
     get_added_columns (call st e) (Some (scenario_of e))
     = added_columns st !! "BASELINE_ROW")
  ∧ ∀ k, get_row_df (clear_sceanarios (call st e)) k = get_row_df st None.
Proof.
  destruct (call_frames st e) as [df ->]. split; [|split].
  - unfold get_row_df. cbn [scenario_dfs sr_df with_frames].
    rewrite lookup_insert_eq. reflexivity.
  - intros Hnew. unfold get_added_columns. cbn [scenario_dfs added_columns with_frames].
    rewrite lookup_insert_eq. unfold setdefault_columns. rewrite Hnew.
    destruct (added_columns st !! "BASELINE_ROW") as [base|] eqn:Hb.
    + rewrite lookup_insert_eq. reflexivity.
    + exact Hnew.
  - intros [k|]; unfold get_row_df, clear_sceanarios;
      cbn [scenario_dfs sr_df with_frames]; [rewrite lookup_empty|]; reflexivity.
Qed.

End ScenarioFacts.

(** ** T1: the days of the week of a regulation *)

Section T1DaysFacts.

Notation quoted := (fun d : string => "'" +:+ d +:+ "'").
Notation spaced days := (Py.join ", " (quoted <$> days)).
Notation compact days := (Py.join "," (quoted <$> days)).

Lemma append_cons (c : ascii) (a b : string) : String c a +:+ b = String c (a +:+ b).
Proof. reflexivity. Qed.

Lemma append_nil (b : string) : EmptyString +:+ b = b.
Proof. reflexivity. Qed.

Lemma string_app_assoc (a b c : string) : (a +:+ b) +:+ c = a +:+ (b +:+ c).
Proof.
  induction a as [|x a IH]; [reflexivity|].
  rewrite !append_cons. f_equal. exact IH.
Qed.

Lemma join_cons2 (sep x y : string) (l : list string) :
  Py.join sep (x :: y :: l) = x +:+ sep +:+ Py.join sep (y :: l).
Proof. reflexivity. Qed.

Lemma join_cons_shape (sep x : string) (l : list string) :
  ∃ t, Py.join sep (x :: l) = x +:+ t.
Proof.
  destruct l as [|y l].
  - exists EmptyString. change (Py.join sep [x]) with x.
    induction x as [|c x IH]; [reflexivity|]. rewrite append_cons, <- IH. reflexivity.
  - eexists. apply join_cons2.
Qed.

(** *** Replacement *)

Lemma replace_from_step (old new : string) (c : ascii) (r : string) :
  String.prefix old (String c r) = false →
  Py.replace_from old new 0 (String c r) = String c (Py.replace_from old new 0 r).
Proof. intros H. cbn [Py.replace_from]. rewrite H. reflexivity. Qed.

Lemma replace_char_app (c : ascii) (new s1 s2 : string) :
  Py.replace_from (String c EmptyString) new 0 (s1 +:+ s2)
  = Py.replace_from (String c EmptyString) new 0 s1
    +:+ Py.replace_from (String c EmptyString) new 0 s2.
Proof.
  induction s1 as [|a s1 IH]; [reflexivity|].
  rewrite append_cons.
  cbn [Py.replace_from String.prefix String.length Nat.sub].
  destruct (ascii_dec c a) as [_|_].
  - assert (Hp : ∀ x, String.prefix EmptyString x = true) by (intros []; reflexivity).
    rewrite !Hp, IH. symmetry. apply string_app_assoc.
  - rewrite IH. reflexivity.
Qed.

Lemma has_char_app (c : ascii) (a b : string) :
  Py.has_char c (a +:+ b) = Py.has_char c a || Py.has_char c b.
Proof.
  induction a as [|x a IH]; [reflexivity|].
  rewrite append_cons. cbn [Py.has_char]. rewrite IH. apply orb_assoc.
Qed.

(** *** The brackets *)

Lemma rstrip_chars_free (chars s : string) :
  (∀ c, Py.has_char c s = true → Py.has_char c chars = false) →
  Py.rstrip_chars chars s = s.
Proof.
  induction s as [|a s IH]; intros H; [reflexivity|].
  cbn [Py.rstrip_chars]. rewrite IH.
  - destruct s; [|reflexivity].
    rewrite (H a); [reflexivity|]. cbn [Py.has_char]. rewrite Ascii.eqb_refl. reflexivity.
  - intros c Hc. apply H. cbn [Py.has_char]. rewrite Hc. apply orb_true_r.
Qed.

Lemma rstrip_chars_last (chars s : string) (c : ascii) :
  Py.has_char c chars = true →
  Py.rstrip_chars chars (s +:+ String c EmptyString) = Py.rstrip_chars chars s.
Proof.
  intros Hc. induction s as [|a s IH].
  - rewrite append_nil. cbn [Py.rstrip_chars]. rewrite Hc. reflexivity.
  - rewrite append_cons. cbn [Py.rstrip_chars]. rewrite IH. reflexivity.
Qed.

Lemma strip_brackets (s : string) :
  Py.has_char "[" s = false → Py.has_char "]" s = false →
  Py.strip_chars "[]" ("[" +:+ s +:+ "]") = s.
Proof.
  intros Hl Hr. unfold Py.strip_chars.
  assert (Hfree : ∀ c, Py.has_char c s = true → Py.has_char c "[]" = false).
  { intros c Hc. cbn [Py.has_char].
    destruct (Ascii.eqb_spec "[" c) as [<-|_]; [congruence|].
    destruct (Ascii.eqb_spec "]" c) as [<-|_]; [congruence|]. reflexivity. }
  assert (Hls : Py.lstrip_chars "[]" ("[" +:+ s +:+ "]")
                = Py.lstrip_chars "[]" (s +:+ "]")) by reflexivity.
  rewrite Hls.
  destruct s as [|a s].
  - reflexivity.
  - assert (Ha : Py.has_char a "[]" = false).
    { apply Hfree. cbn [Py.has_char]. rewrite Ascii.eqb_refl. reflexivity. }
    rewrite append_cons. cbn [Py.lstrip_chars]. rewrite Ha.
    rewrite <- append_cons.
    rewrite rstrip_chars_last by reflexivity.
    apply rstrip_chars_free, Hfree.
Qed.

(** *** Day codes *)

Ltac day_cases H :=
  unfold day_codes in H;
  repeat (apply elem_of_cons in H as [->|H]);
  [ .. | apply elem_of_nil in H; destruct H ].

Lemma spaced_no_bracket (b : ascii) (days : list string) :
  b = "["%char ∨ b = "]"%char →
  Forall (fun d => d ∈ day_codes) days →
  Py.has_char b (spaced days) = false.
Proof.
  intros Hb Hdays. induction Hdays as [|d rest Hd Hrest IH]; [reflexivity|].
  destruct rest as [|d' rest].
  - day_cases Hd; destruct Hb as [-> | ->]; reflexivity.
  - cbn [fmap list_fmap] in IH |- *. rewrite join_cons2.
    rewrite !has_char_app, IH.
    day_cases Hd; destruct Hb as [-> | ->]; reflexivity.
Qed.

Lemma replace_space_spaced (days : list string) :
  Forall (fun d => d ∈ day_codes) days →
  Py.replace " " "" (spaced days) = compact days.
Proof.
  intros Hdays. unfold Py.replace.
  induction Hdays as [|d rest Hd Hrest IH]; [reflexivity|].
  destruct rest as [|d' rest].
  - day_cases Hd; reflexivity.
  - cbn [fmap list_fmap] in IH |- *. rewrite !join_cons2.
    rewrite !replace_char_app, IH.
    day_cases Hd; reflexivity.
Qed.

Lemma replace_quote_compact (days : list string) :
  Forall (fun d => d ∈ day_codes) days →
  Py.replace "'" "" (compact days) = Py.join "," days.
Proof.
  intros Hdays. unfold Py.replace.
  induction Hdays as [|d rest Hd Hrest IH]; [reflexivity|].
  destruct rest as [|d' rest].
  - day_cases Hd; reflexivity.
  - cbn [fmap list_fmap] in IH |- *. rewrite !join_cons2.
    rewrite !replace_char_app, IH.
    day_cases Hd; reflexivity.
Qed.

(** None of the four repairs of lines 135 to 138 touches a list of day
    codes. *)
Lemma replace_repairs_compact (old new : string) (days : list string) :
  old ∈ ["'m'"; "'mo','t'"; "'we','t'"; "'s'"] →
  Forall (fun d => d ∈ day_codes) days →
  Py.replace old new (compact days) = compact days.
Proof.
  intros Hold Hdays.
  assert (Hr : Py.replace old new (compact days) = Py.replace_from old new 0 (compact days)).
  { repeat (apply elem_of_cons in Hold as [->|Hold]); try reflexivity.
    apply elem_of_nil in Hold. destruct Hold. }
  rewrite Hr. clear Hr.
  induction Hdays as [|d rest Hd Hrest IH]; [reflexivity|].
  destruct rest as [|d' rest].
  - repeat (apply elem_of_cons in Hold as [->|Hold]);
      [ .. | apply elem_of_nil in Hold; destruct Hold ];
      day_cases Hd; vm_compute; reflexivity.
  - cbn [fmap list_fmap] in IH |- *. rewrite join_cons2.
    destruct (join_cons_shape "," (quoted d') (quoted <$> rest)) as [t Ht].
    rewrite Ht in IH |- *.
    apply Forall_cons in Hrest as [Hd' _].
    repeat (apply elem_of_cons in Hold as [->|Hold]);
      [ .. | apply elem_of_nil in Hold; destruct Hold ];
      day_cases Hd; day_cases Hd';
      clear Ht; cbv [String.append] in IH |- *;
      do 5 (rewrite replace_from_step by (vm_compute; reflexivity));
      rewrite IH; reflexivity.
Qed.

Lemma clean_list_text (days : list string) :
  Forall (fun d => d ∈ day_codes) days →
  T1.clean_daysOfWeek (list_text days) = Py.join "," days.
Proof.
  intros Hdays. unfold T1.clean_daysOfWeek, list_text.
  rewrite strip_brackets by (apply spaced_no_bracket; [tauto | exact Hdays]).
  rewrite replace_space_spaced by exact Hdays.
  rewrite !replace_repairs_compact by (try exact Hdays; set_solver).
  apply replace_quote_compact, Hdays.
Qed.

(** *** Splitting at the commas *)

Lemma split_app_sep (sep : ascii) (a b : string) :
  Py.has_char sep a = false →
  Py.split sep (a +:+ String sep b) = a :: Py.split sep b.
Proof.
  induction a as [|c a IH]; intros H.
  - rewrite append_nil. cbn [Py.split]. rewrite Ascii.eqb_refl. reflexivity.
  - cbn [Py.has_char] in H. apply orb_false_iff in H as [Hc Ha].
    rewrite append_cons. cbn [Py.split]. rewrite Hc, (IH Ha). reflexivity.
Qed.

Lemma split_free (sep : ascii) (a : string) :
  Py.has_char sep a = false → Py.split sep a = [a].
Proof.
  induction a as [|c a IH]; intros H; [reflexivity|].
  cbn [Py.has_char] in H. apply orb_false_iff in H as [Hc Ha].
  cbn [Py.split]. rewrite Hc, (IH Ha). reflexivity.
Qed.

Lemma split_join_days (days : list string) :
  days ≠ [] →
  Forall (fun d => d ∈ day_codes) days →
  Py.split "," (Py.join "," days) = days.
Proof.
  intros Hne Hdays. induction Hdays as [|d rest Hd Hrest IH]; [congruence|].
  assert (Hfree : Py.has_char "," d = false) by (day_cases Hd; reflexivity).
  destruct rest as [|d' rest].
  - apply split_free, Hfree.
  - rewrite join_cons2. change ("," +:+ Py.join "," (d' :: rest))
      with (String "," (Py.join "," (d' :: rest))).
    rewrite split_app_sep by exact Hfree. rewrite IH by discriminate. reflexivity.
Qed.

(** X12. The days of a regulation survive the text form: for a list of day
    codes that is not empty, the cleaning of lines 132 to 140 turns the
    text Python makes of the list into the codes joined by commas, and
    splitting that at the commas gives the list back. *)
Theorem clean_daysOfWeek_round_trip (days : list string) :
  days ≠ [] →
  Forall (fun d => d ∈ day_codes) days →
  T1.clean_daysOfWeek (list_text days) = Py.join "," days
  ∧ Py.split "," (T1.clean_daysOfWeek (list_text days)) = days.
Proof.
  intros Hne Hdays. rewrite clean_list_text by exact Hdays.
  split; [reflexivity | apply split_join_days; assumption].
Qed.

End T1DaysFacts.

Lemma clean_daysOfWeek_round_trip_witness :
  T1.clean_daysOfWeek (list_text ["mo"; "tu"; "sa"]) = Py.join "," ["mo"; "tu"; "sa"]
  ∧ Py.split "," (T1.clean_daysOfWeek (list_text ["mo"; "tu"; "sa"])) = ["mo"; "tu"; "sa"].
Proof.
  apply clean_daysOfWeek_round_trip.
  - discriminate.
  - repeat constructor; unfold day_codes; set_solver.
Defined.

(** ** T1: one row per day *)

Section T1ExpandFacts.

(** The text ['1/' + k + '/1900 ' + time] for the day number [k]. *)
Notation date_of k time := ("1/" +:+ k +:+ "/1900 " +:+ time).

Lemma split_nonempty (sep : ascii) (s : string) : Py.split sep s ≠ [].
Proof.
  destruct s as [|c r]; cbn [Py.split]; [discriminate|].
  destruct (Ascii.eqb c sep); [discriminate|].
  destruct (Py.split sep r); discriminate.
Qed.

Lemma datetime_text_str (d t : string) :
  T1.datetime_text d (T1.Val (JStr t))
  = Some ((fun k => date_of k t) <$> T1.day_dict d).
Proof. unfold T1.datetime_text. destruct (T1.day_dict d); reflexivity. Qed.

(** With times of day that are texts every day of a row gives a row. *)
Lemma day_rows (dw w a b : string) (l : list string) (g : nat → nat) :
  mapM (T1.day_row dw w (T1.Val (JStr a)) (T1.Val (JStr b)))
       (imap (fun j d => (g j, d)) l)
  = Some (imap (fun j d =>
                  {| T1.f_daysOfWeek := dw;
                     T1.f_timesOfDay_from := T1.Val (JStr a);
                     T1.f_timesOfDay_to := T1.Val (JStr b);
                     T1.f_timesOfDay_from_dt := (fun k => date_of k a) <$> T1.day_dict d;
                     T1.f_timesOfDay_to_dt := (fun k => date_of k b) <$> T1.day_dict d;
                     T1.f_warnings := w;
                     T1.f_primary := if (g j =? 0)%nat then 1%Z else 0%Z;
                     T1.f_dayOfWeek := d |}) l).
Proof.
  apply mapM_Some. revert g. induction l as [|d l IH]; intros g; [constructor|].
  cbn [imap]. constructor.
  - unfold T1.day_row. cbn [fst snd]. rewrite !datetime_text_str. reflexivity.
  - apply (IH (g ∘ S)).
Qed.

Lemma later_days_not_primary (dw w : string) (from to : T1.pyval)
    (fdt tdt : string → option string) (l : list string) (g : nat → nat) :
  (∀ j, g j ≠ 0%nat) →
  Forall (fun r => T1.f_primary r = 0%Z
                   ∧ T1.f_daysOfWeek r = dw
                   ∧ T1.f_warnings r = w
                   ∧ T1.f_timesOfDay_from r = from
                   ∧ T1.f_timesOfDay_to r = to)
         (imap (fun j d =>
                  {| T1.f_daysOfWeek := dw;
                     T1.f_timesOfDay_from := from;
                     T1.f_timesOfDay_to := to;
                     T1.f_timesOfDay_from_dt := fdt d;
                     T1.f_timesOfDay_to_dt := tdt d;
                     T1.f_warnings := w;
                     T1.f_primary := if (g j =? 0)%nat then 1%Z else 0%Z;
                     T1.f_dayOfWeek := d |}) l).
Proof.
  revert g. induction l as [|d l IH]; intros g Hg; [constructor|].
  cbn [imap]. constructor.
  - cbn [T1.f_primary T1.f_daysOfWeek T1.f_warnings T1.f_timesOfDay_from T1.f_timesOfDay_to].
    destruct (Nat.eqb_spec (g 0%nat) 0) as [E|_]; [destruct (Hg _ E)|].
    repeat split; reflexivity.
  - apply (IH (g ∘ S)). intros j. apply Hg.
Qed.

(** [fillna] on a time of day that is a text or missing leaves a text. *)
Lemma filled_time (v : T1.pyval) (fill : string) :
  T1.isna v = true ∨ (∃ t, v = T1.Val (JStr t)) →
  ∃ t, (if T1.isna v then T1.Val (JStr fill) else v) = T1.Val (JStr t).
Proof.
  intros [H|[t ->]].
  - rewrite H. eexists. reflexivity.
  - exists t. reflexivity.
Qed.

(** X13. Every regulation gives exactly one primary feature: when the two
    times of day of a row are texts or missing, lines 132 to 177 return
    for the row at least one feature, the first one with primary = 1 and
    all the others with primary = 0, and all of them with the same
    daysOfWeek, warnings and times of day. *)
Theorem expand_days_one_primary (days_text : string) (from to : T1.pyval) :
  T1.isna from = true ∨ (∃ t, from = T1.Val (JStr t)) →
  T1.isna to = true ∨ (∃ t, to = T1.Val (JStr t)) →
  ∃ first rest,
    T1.expand_days days_text from to = Some (first :: rest)
    ∧ T1.f_primary first = 1%Z
    ∧ Forall (fun r => T1.f_primary r = 0%Z
                       ∧ T1.f_daysOfWeek r = T1.f_daysOfWeek first
                       ∧ T1.f_warnings r = T1.f_warnings first
                       ∧ T1.f_timesOfDay_from r = T1.f_timesOfDay_from first
                       ∧ T1.f_timesOfDay_to r = T1.f_timesOfDay_to first) rest.
Proof.
  intros Hfrom Hto. unfold T1.expand_days.
  destruct (filled_time from "0:00" Hfrom) as [a ->].
  destruct (filled_time to "23:59" Hto) as [b ->].
  set (dw := if T1.days_missing _ then _ else _).
  set (w := if T1.isna from then _ else _).
  change (imap pair (Py.split "," dw)) with (imap (fun j d => (id j, d)) (Py.split "," dw)).
  rewrite day_rows.
  pose proof (split_nonempty "," dw) as Hne.
  destruct (Py.split "," dw) as [|d l]; [congruence|].
  cbn [imap]. eexists _, _. split; [reflexivity|]. split; [reflexivity|].
  cbn [T1.f_daysOfWeek T1.f_warnings T1.f_timesOfDay_from T1.f_timesOfDay_to].
  apply (later_days_not_primary dw w _ _
           (fun d => (fun k => date_of k a) <$> T1.day_dict d)
           (fun d => (fun k => date_of k b) <$> T1.day_dict d) l (id ∘ S)).
  intros j. discriminate.
Qed.

Lemma expand_days_one_primary_witness :
  ∃ first rest,
    T1.expand_days "['sa', 'su']" (T1.Val (JStr "08:00")) T1.NaN = Some (first :: rest)
    ∧ T1.f_primary first = 1%Z
    ∧ Forall (fun r => T1.f_primary r = 0%Z
                       ∧ T1.f_daysOfWeek r = T1.f_daysOfWeek first
                       ∧ T1.f_warnings r = T1.f_warnings first
                       ∧ T1.f_timesOfDay_from r = T1.f_timesOfDay_from first
                       ∧ T1.f_timesOfDay_to r = T1.f_timesOfDay_to first) rest.
Proof.
  apply expand_days_one_primary.
  - right. eexists. reflexivity.
  - left. reflexivity.
Defined.

(** X14. A regulation without days of the week is taken to hold all week:
    when the daysOfWeek cell is the text of NaN or of None, the row gets
    the warning "daysOfWeek missing;" first, its daysOfWeek is set to the
    seven day codes, and it gives seven features, one per day from Monday
    to Sunday, dated 1 to 7 January 1900. *)
Theorem expand_days_missing_days (days_text : string) (from to : T1.pyval) :
  days_text = "nan" ∨ days_text = "None" →
  T1.isna from = true ∨ (∃ t, from = T1.Val (JStr t)) →
  T1.isna to = true ∨ (∃ t, to = T1.Val (JStr t)) →
  ∃ rows a b,
    T1.expand_days days_text from to = Some rows
    ∧ T1.f_dayOfWeek <$> rows = day_codes
    ∧ T1.f_timesOfDay_from_dt <$> rows
      = (fun k => Some (date_of (Py.str_nat k) a)) <$> seq 1 7
    ∧ T1.f_timesOfDay_to_dt <$> rows
      = (fun k => Some (date_of (Py.str_nat k) b)) <$> seq 1 7
    ∧ Forall (fun r => T1.f_daysOfWeek r = "mo,tu,we,th,fr,sa,su"
                       ∧ String.prefix "daysOfWeek missing;" (T1.f_warnings r) = true
                       ∧ T1.f_timesOfDay_from r = T1.Val (JStr a)
                       ∧ T1.f_timesOfDay_to r = T1.Val (JStr b)) rows.
Proof.
  intros Hdays Hfrom Hto. unfold T1.expand_days.
  destruct (filled_time from "0:00" Hfrom) as [a ->].
  destruct (filled_time to "23:59" Hto) as [b ->].
  assert (Hclean : T1.clean_daysOfWeek days_text = days_text)
    by (destruct Hdays as [-> | ->]; reflexivity).
  assert (Hmiss : T1.days_missing days_text = true)
    by (destruct Hdays as [-> | ->]; reflexivity).
  rewrite Hclean, Hmiss.
  set (w := if T1.isna from then _ else _).
  assert (Hw : String.prefix "daysOfWeek missing;" w = true)
    by (unfold w; destruct (T1.isna from); reflexivity).
  change (imap pair (Py.split "," "mo,tu,we,th,fr,sa,su"))
    with (imap (fun j d => (id j, d)) day_codes).
  rewrite day_rows. eexists. exists a, b.
  split; [reflexivity|]. cbn [imap fmap list_fmap day_codes].
  split; [reflexivity|]. split; [reflexivity|]. split; [reflexivity|].
  repeat constructor; exact Hw.
Qed.

Lemma expand_days_missing_days_witness :
  ∃ rows a b,
    T1.expand_days "nan" T1.PyNone (T1.Val (JStr "18:00")) = Some rows
    ∧ T1.f_dayOfWeek <$> rows = day_codes
    ∧ T1.f_timesOfDay_from_dt <$> rows
      = (fun k => Some (date_of (Py.str_nat k) a)) <$> seq 1 7
    ∧ T1.f_timesOfDay_to_dt <$> rows
      = (fun k => Some (date_of (Py.str_nat k) b)) <$> seq 1 7
    ∧ Forall (fun r => T1.f_daysOfWeek r = "mo,tu,we,th,fr,sa,su"
                       ∧ String.prefix "daysOfWeek missing;" (T1.f_warnings r) = true
                       ∧ T1.f_timesOfDay_from r = T1.Val (JStr a)
                       ∧ T1.f_timesOfDay_to r = T1.Val (JStr b)) rows.
Proof.
  apply expand_days_missing_days.
  - left. reflexivity.
  - left. reflexivity.
  - right. eexists. reflexivity.
Defined.

Lemma days_not_missing (days : list string) :
  days ≠ [] →
  Forall (fun d => d ∈ day_codes) days →
  T1.days_missing (Py.join "," days) = false.
Proof.
  intros Hne Hdays. destruct Hdays as [|d rest Hd _]; [congruence|].
  destruct (join_cons_shape "," d rest) as [t ->].
  unfold day_codes in Hd.
  repeat (apply elem_of_cons in Hd as [->|Hd]);
    [ .. | apply elem_of_nil in Hd; destruct Hd ];
    vm_compute; reflexivity.
Qed.

(** X15. A regulation with a well-formed list of days: for a list of day
    codes that is not empty and two times of day that are texts, the row
    gives one feature per day, in the order of the list and without a
    warning; each carries the whole list joined by commas as daysOfWeek and
    the two times of day dated on the day of January 1900 that is the
    number of its day of the week, Monday being 1. *)
Theorem expand_days_well_formed (days : list string) (a b : string) :
  days ≠ [] →
  Forall (fun d => d ∈ day_codes) days →
  ∃ rows,
    T1.expand_days (list_text days) (T1.Val (JStr a)) (T1.Val (JStr b)) = Some rows
    ∧ Forall2 (fun d r =>
                 T1.f_dayOfWeek r = d
                 ∧ T1.f_daysOfWeek r = Py.join "," days
                 ∧ T1.f_warnings r = EmptyString
                 ∧ ∃ k : nat,
                     day_codes !! k = Some d
                     ∧ T1.f_timesOfDay_from_dt r = Some (date_of (Py.str_nat (S k)) a)
                     ∧ T1.f_timesOfDay_to_dt r = Some (date_of (Py.str_nat (S k)) b))
              days rows.
Proof.
  intros Hne Hdays. unfold T1.expand_days.
  rewrite (clean_list_text days Hdays), (days_not_missing days Hne Hdays).
  cbn [T1.isna].
  rewrite (split_join_days days Hne Hdays).
  change (imap pair days) with (imap (fun j d => (id j, d)) days).
  rewrite day_rows. eexists. split; [reflexivity|].
  generalize (Py.join "," days). intros dw. generalize (@id nat).
  clear Hne. induction Hdays as [|d rest Hd Hrest IH]; intros g; [constructor|].
  cbn [imap]. constructor; [|apply (IH (g ∘ S))].
  cbn [T1.f_dayOfWeek T1.f_daysOfWeek T1.f_warnings T1.f_timesOfDay_from_dt
       T1.f_timesOfDay_to_dt].
  split; [reflexivity|]. split; [reflexivity|]. split; [reflexivity|].
  unfold day_codes in Hd |- *.
  repeat (apply elem_of_cons in Hd as [->|Hd]);
    [ exists 0%nat | exists 1%nat | exists 2%nat | exists 3%nat | exists 4%nat
    | exists 5%nat | exists 6%nat | apply elem_of_nil in Hd; destruct Hd ];
    repeat split; reflexivity.
Qed.

End T1ExpandFacts.

Lemma expand_days_well_formed_witness :
  ∃ rows,
    T1.expand_days (list_text ["mo"; "we"]) (T1.Val (JStr "08:00")) (T1.Val (JStr "18:00"))
    = Some rows
    ∧ Forall2 (fun d r =>
                 T1.f_dayOfWeek r = d
                 ∧ T1.f_daysOfWeek r = Py.join "," ["mo"; "we"]
                 ∧ T1.f_warnings r = EmptyString
                 ∧ ∃ k : nat,
                     day_codes !! k = Some d
                     ∧ T1.f_timesOfDay_from_dt r
                       = Some ("1/" +:+ Py.str_nat (S k) +:+ "/1900 " +:+ "08:00")
                     ∧ T1.f_timesOfDay_to_dt r
                       = Some ("1/" +:+ Py.str_nat (S k) +:+ "/1900 " +:+ "18:00"))
              ["mo"; "we"] rows.
Proof.
  apply expand_days_well_formed.
  - discriminate.
  - repeat constructor; unfold day_codes; set_solver.
Defined.

Example expand_days_example :
  T1.expand_days "['sa', 'su']" (T1.Val (JStr "08:00")) T1.NaN
  = Some [ T1.mkDayFeature "sa,su" (T1.Val (JStr "08:00")) (T1.Val (JStr "23:59"))
             (Some "1/6/1900 08:00") (Some "1/6/1900 23:59") "" 1 "sa";
           T1.mkDayFeature "sa,su" (T1.Val (JStr "08:00")) (T1.Val (JStr "23:59"))
             (Some "1/7/1900 08:00") (Some "1/7/1900 23:59") "" 0 "su" ].
Proof. vm_compute. reflexivity. Qed.

(** ** T3: the days a regulation is active on *)

Section DaysActiveFacts.

Lemma find_none {A : Type} (f : A → bool) (l : list A) :
  (∀ a, a ∈ l → f a = false) → List.find f l = None.
Proof.
  induction l as [|x l IH]; intros H; [reflexivity|].
  cbn [List.find]. rewrite (H x) by left. apply IH. intros a Ha. apply H. right. exact Ha.
Qed.

Ltac code_cases H :=
  unfold day_codes in H;
  repeat (apply elem_of_cons in H as [->|H]);
  [ .. | apply elem_of_nil in H; destruct H ].

(** A day code starts a text that starts with a day code only when the
    two are the same code. *)
Lemma prefix_code (a d t : string) :
  a ∈ day_codes → d ∈ day_codes →
  String.prefix a (d +:+ t) = bool_decide (a = d).
Proof.
  intros Ha Hd. destruct t; code_cases Ha; code_cases Hd; vm_compute; reflexivity.
Qed.

Lemma match_here_code (alts : list string) (d t : string) :
  Forall (fun a => a ∈ day_codes) alts → d ∈ day_codes →
  T3.match_here alts (d +:+ t) = if decide (d ∈ alts) then Some d else None.
Proof.
  intros Halts Hd. unfold T3.match_here.
  induction Halts as [|a alts Ha Halts IH].
  - rewrite decide_False by apply not_elem_of_nil. reflexivity.
  - cbn [List.find]. rewrite (prefix_code a d t Ha Hd).
    destruct (decide (a = d)) as [->|Hne].
    + rewrite bool_decide_eq_true_2 by reflexivity.
      rewrite decide_True by left. reflexivity.
    + rewrite bool_decide_eq_false_2 by exact Hne. rewrite IH.
      destruct (decide (d ∈ alts)) as [Hin|Hin].
      * rewrite decide_True by (right; exact Hin). reflexivity.
      * rewrite decide_False; [reflexivity|].
        rewrite elem_of_cons. intros [E|E]; [congruence | tauto].
Qed.

(** No day code starts at the second letter of a day code or at a comma. *)
Lemma match_here_inside (alts : list string) (d t : string) :
  Forall (fun a => a ∈ day_codes) alts → d ∈ day_codes →
  t = EmptyString ∨ (∃ x, t = String "," x) →
  T3.match_here alts (String.substring 1 1 d +:+ t) = None
  ∧ T3.match_here alts t = None.
Proof.
  intros Halts Hd Ht. rewrite Forall_forall in Halts.
  split; apply find_none; intros a Ha; apply Halts in Ha;
    destruct Ht as [->|[x ->]]; code_cases Ha; code_cases Hd; vm_compute; reflexivity.
Qed.

Lemma count_from_days (alts days : list string) :
  Forall (fun a => a ∈ day_codes) alts →
  Forall (fun d => d ∈ day_codes) days →
  T3.count_from alts 0 (Py.join "," days)
  = length (List.filter (fun d => bool_decide (d ∈ alts)) days).
Proof.
  intros Halts Hdays. induction Hdays as [|d rest Hd Hrest IH]; [reflexivity|].
  assert (Hshape : ∃ t, Py.join "," (d :: rest) = d +:+ t
                        ∧ (t = EmptyString ∨ ∃ x, t = String "," x)
                        ∧ T3.count_from alts 0 t
                          = length (List.filter (fun d => bool_decide (d ∈ alts)) rest)).
  { destruct rest as [|d' rest].
    - exists EmptyString. split; [|split; [left; reflexivity | reflexivity]].
      clear. change (Py.join "," [d]) with d.
      induction d as [|c d IHd]; [reflexivity|].
      change (String c d +:+ "") with (String c (d +:+ "")). rewrite <- IHd. reflexivity.
    - exists ("," +:+ Py.join "," (d' :: rest)).
      split; [reflexivity|]. split; [right; eexists; reflexivity|].
      rewrite <- IH.
      change ("," +:+ Py.join "," (d' :: rest)) with (String "," (Py.join "," (d' :: rest))).
      assert (Hm : T3.match_here alts (String "," (Py.join "," (d' :: rest))) = None).
      { apply find_none. intros a Ha. rewrite Forall_forall in Halts. apply Halts in Ha.
        code_cases Ha; reflexivity. }
      cbn [T3.count_from]. rewrite Hm. reflexivity. }
  destruct Hshape as (t & -> & Ht & Hcount).
  pose proof (match_here_code alts d t Halts Hd) as Hhere.
  assert (Hsplit : ∃ c, d = String c (String.substring 1 1 d))
    by (code_cases Hd; eexists; reflexivity).
  destruct Hsplit as [c Hc].
  destruct (match_here_inside alts d t Halts Hd Ht) as [Hin Hcomma].
  cbn [List.filter].
  assert (Hd2 : d +:+ t = String c (String.substring 1 1 d +:+ t)).
  { rewrite Hc at 1. reflexivity. }
  assert (Htail : ∃ c', String.substring 1 1 d +:+ t = String c' t)
    by (code_cases Hd; eexists; reflexivity).
  destruct Htail as [c' Hc'].
  rewrite Hd2 in Hhere |- *. cbn [T3.count_from]. rewrite Hhere.
  destruct (decide (d ∈ alts)) as [Hyes|Hno].
  - rewrite bool_decide_eq_true_2 by exact Hyes. cbn [length].
    assert (Hl : (String.length d - 1 = 1)%nat) by (code_cases Hd; reflexivity).
    rewrite Hl, Hc'. cbn [T3.count_from]. rewrite Hcount. reflexivity.
  - rewrite bool_decide_eq_false_2 by exact Hno.
    rewrite Hc' in Hin |- *. cbn [T3.count_from]. rewrite Hin. exact Hcount.
Qed.

Lemma days_analyzed_query_codes (analyzed alts : list string) :
  T3.days_analyzed_query analyzed = Some alts →
  Forall (fun a => a ∈ day_codes) alts.
Proof.
  unfold T3.days_analyzed_query. intros H. apply mapM_Some in H.
  induction H as [|name a analyzed alts Hname _ IH]; constructor; [|exact IH].
  unfold T3.day_dict in Hname.
  repeat match type of Hname with
         | (if ?b then _ else _) = _ => destruct b
         end;
    try discriminate; injection Hname as <-; unfold day_codes; set_solver.
Qed.

(** X16. Days_Active counts the listed days that are analyzed: for a
    daysOfWeek text that is a list of day codes joined by commas, as T1
    writes it, and at least one analyzed day, the count of the pattern of
    the analyzed days in the text is the number of days of the list that
    are among the analyzed ones. *)
Theorem days_active_counts_listed_days (analyzed alts days : list string) :
  T3.days_analyzed_query analyzed = Some alts →
  analyzed ≠ [] →
  Forall (fun d => d ∈ day_codes) days →
  T3.str_count alts (Py.join "," days)
  = Z.of_nat (length (List.filter (fun d => bool_decide (d ∈ alts)) days)).
Proof.
  intros Hq Hne Hdays.
  pose proof (days_analyzed_query_codes analyzed alts Hq) as Halts.
  unfold T3.str_count. destruct alts as [|a alts].
  - unfold T3.days_analyzed_query in Hq. apply mapM_Some in Hq.
    inversion Hq; subst. congruence.
  - rewrite (count_from_days (a :: alts) days Halts Hdays). reflexivity.
Qed.

End DaysActiveFacts.

Lemma days_active_counts_listed_days_witness :
  T3.str_count ["sa"; "su"] (Py.join "," ["fr"; "sa"; "su"])
  = Z.of_nat (length (List.filter (fun d => bool_decide (d ∈ ["sa"; "su"]))
                                  ["fr"; "sa"; "su"])).
Proof.
  apply (days_active_counts_listed_days ["Saturday"; "Sunday"]).
  - reflexivity.
  - discriminate.
  - repeat constructor; unfold day_codes; set_solver.
Defined.

(** ** T0: a run over several polygons *)

Section T0Runs.

Import T0.

Variable ssKey : string.
Variable outputFC : string.
Variable urlencode : string → Extent → string.
Variable service : nat → string → option (list json).
Variable overwriteOutput : bool.
Variable float_of_string : string → option Q.
Variable project : Extent → Extent.

Notation createFC := (T0.createFC outputFC overwriteOutput float_of_string).
Notation sendRequest :=
  (T0.sendRequest ssKey outputFC urlencode service overwriteOutput float_of_string).
Notation getPolygon :=
  (T0.getPolygon ssKey outputFC urlencode service overwriteOutput float_of_string project).
Notation fullURL := (T0.fullURL ssKey urlencode).
Notation insert_body := (T0.insert_feature outputFC float_of_string).

(** The row [r] holds the id and the vertices of [feature]. *)
Notation row_of_feature feature r :=
  (jget "properties" feature ≫= jget "id" = Some (fst r)
   ∧ (jget "geometry" feature ≫= jget "coordinates") ≫= polylineArray float_of_string
     = Some (snd r)).

Lemma for_each_app {A : Type} (l1 l2 : list A) (body : A → M unit) (w : world) :
  for_each (l1 ++ l2) body w
  = bind (for_each l1 body) (fun _ => for_each l2 body) w.
Proof.
  revert w. induction l1 as [|x l1 IH]; intros w; [reflexivity|].
  cbn [app for_each]. unfold bind.
  destruct (body x w) as [[[]|] w1]; [|reflexivity].
  rewrite IH. unfold bind. reflexivity.
Qed.

(** A loop that returns has appended what every turn appends. *)
Lemma for_each_appends {A : Type} (body : A → M unit) (g : A → list string)
    (l : list A) (w w' : world) :
  (∀ x w1 w2, body x w1 = (Some tt, w2) → requests w2 = (requests w1 ++ g x)%list) →
  for_each l body w = (Some tt, w') →
  requests w' = (requests w ++ concat (g <$> l))%list.
Proof.
  intros Hbody. revert w. induction l as [|x l IH]; intros w Hrun.
  - cbn in Hrun. unfold ret in Hrun. injection Hrun as <-.
    cbn. rewrite app_nil_r. reflexivity.
  - cbn [for_each] in Hrun. unfold bind in Hrun.
    destruct (body x w) as [[[]|] w1] eqn:Hx; [|discriminate].
    rewrite (IH w1 Hrun), (Hbody x w w1 Hx). cbn [fmap list_fmap concat].
    rewrite <- app_assoc. reflexivity.
Qed.

Lemma sendRequest_appends (poly : Extent) (w w' : world) :
  sendRequest poly w = (Some tt, w') →
  requests w' = (requests w ++ [fullURL poly])%list.
Proof.
  intros H. pose proof (sendRequest_requests ssKey outputFC urlencode service
                          overwriteOutput float_of_string poly w) as Hr.
  rewrite H in Hr. exact Hr.
Qed.

(** X17. A projected input is read once per polygon: a run of
    [getPolygon] on a projected input with n polygons that ends without an
    exception has sent n times n requests, the n requests for the projected
    extents being repeated for every polygon of the input. *)
Theorem getPolygon_projected_requests (rows : list Extent) (w w' : world) :
  getPolygon rows true w = (Some tt, w') →
  requests w'
  = (requests w
     ++ concat (replicate (length rows) (fullURL <$> (project <$> rows))))%list.
Proof.
  intros Hrun. unfold T0.getPolygon in Hrun.
  assert (Hinner : ∀ w1 w2,
            for_each (project <$> rows) (fun q => sendRequest q) w1 = (Some tt, w2) →
            requests w2 = (requests w1 ++ (fullURL <$> (project <$> rows)))%list).
  { intros w1 w2 Hin.
    rewrite (for_each_appends (fun q => sendRequest q) (fun p => [fullURL p])
               (project <$> rows) w1 w2
               (fun p wa wb => sendRequest_appends p wa wb) Hin).
    f_equal. clear. induction (project <$> rows) as [|p l IH]; [reflexivity|].
    cbn. rewrite IH. reflexivity. }
  rewrite (for_each_appends _ (fun _ => fullURL <$> (project <$> rows)) rows w w'
             (fun _ w1 w2 => Hinner w1 w2) Hrun).
  f_equal. clear. generalize (fullURL <$> (project <$> rows)). intros l.
  induction rows as [|x rows IH]; [reflexivity|]. cbn. rewrite IH. reflexivity.
Qed.

(** *** The output feature class *)

Lemma insert_feature_success (feature : json) (w w' : world) (rs : list fc_row) :
  feature_classes w !! outputFC = Some rs →
  insert_body feature w = (Some tt, w') →
  ∃ r, row_of_feature feature r
       ∧ w' = {| requests := requests w;
                 feature_classes := <[outputFC := (rs ++ [r])%list]> (feature_classes w) |}.
Proof.
  intros Hfc. unfold T0.insert_feature, bind, lift, ret, raise, insertRow.
  destruct (jget "geometry" feature ≫= jget "coordinates") as [sc|]; [|discriminate].
  cbn [mbind option_bind].
  destruct (polylineArray float_of_string sc) as [pl|]; [|discriminate].
  destruct (jget "properties" feature ≫= jget "id") as [id|]; [|discriminate].
  rewrite Hfc. intros [= <-]. exists (id, pl). split; [split; reflexivity | reflexivity].
Qed.

Lemma for_each_insert_success (features : list json) (w w' : world) (rs : list fc_row) :
  feature_classes w !! outputFC = Some rs →
  for_each features insert_body w = (Some tt, w') →
  ∃ new, Forall2 (fun feature r => row_of_feature feature r) features new
         ∧ feature_classes w' !! outputFC = Some (rs ++ new)%list.
Proof.
  revert w rs. induction features as [|f fs IH]; intros w rs Hfc Hrun.
  - cbn in Hrun. unfold ret in Hrun. injection Hrun as <-.
    exists []. split; [constructor|]. rewrite app_nil_r. exact Hfc.
  - cbn [for_each] in Hrun. unfold bind in Hrun.
    destruct (insert_body f w) as [[[]|] w1] eqn:Hf; [|discriminate].
    destruct (insert_feature_success f w w1 rs Hfc Hf) as (r & Hr & ->).
    assert (Hfc1 : feature_classes
                     {| requests := requests w;
                        feature_classes := <[outputFC := (rs ++ [r])%list]> (feature_classes w) |}
                   !! outputFC = Some (rs ++ [r])%list)
      by (cbn [feature_classes]; apply lookup_insert_eq).
    destruct (IH _ (rs ++ [r])%list Hfc1 Hrun) as (new & Hnew & Hfinal).
    exists (r :: new). split; [constructor; assumption|].
    rewrite Hfinal, <- app_assoc. reflexivity.
Qed.

Lemma createFC_success (features : list json) (w w' : world) :
  createFC features w = (Some tt, w') →
  ∃ rows, Forall2 (fun feature r => row_of_feature feature r) features rows
          ∧ feature_classes w' !! outputFC = Some rows.
Proof.
  unfold T0.createFC, bind. intros Hrun.
  destruct (CreateFeatureclass overwriteOutput outputFC w) as [[[]|] w0] eqn:Hc;
    [|discriminate].
  assert (Hfc : feature_classes w0 !! outputFC = Some []).
  { unfold CreateFeatureclass in Hc.
    destruct (feature_classes w !! outputFC); [destruct overwriteOutput|];
      try discriminate; injection Hc as <-; cbn; apply lookup_insert_eq. }
  destruct (for_each_insert_success features w0 w' [] Hfc Hrun) as (new & Hnew & Hfinal).
  exists new. split; [exact Hnew | exact Hfinal].
Qed.

Lemma sendRequest_success (poly : Extent) (w w' : world) :
  sendRequest poly w = (Some tt, w') →
  ∃ features rows,
    service (length (requests w)) (fullURL poly) = Some features
    ∧ Forall2 (fun feature r => row_of_feature feature r) features rows
    ∧ feature_classes w' !! outputFC = Some rows.
Proof.
  unfold T0.sendRequest, bind, urlopen. intros Hrun.
  destruct (service (length (requests w)) (fullURL poly)) as [features|]; [|discriminate].
  destruct (createFC_success features _ w' Hrun) as (rows & Hrows & Hfc).
  exists features, rows. split; [reflexivity|]. split; assumption.
Qed.

(** X18. The output keeps the last response only: after a run of
    [getPolygon] on a geographic input that ends without an exception, the
    output feature class holds one row per feature of the response to the
    request for the last polygon, with its id and its vertices, and nothing
    of the responses before. *)
Theorem getPolygon_keeps_last_response (rows : list Extent) (last : Extent)
    (w w' : world) :
  getPolygon (rows ++ [last]) false w = (Some tt, w') →
  ∃ features fc_rows,
    service (length (requests w) + length rows) (fullURL last) = Some features
    ∧ feature_classes w' !! outputFC = Some fc_rows
    ∧ Forall2 (fun feature r => row_of_feature feature r) features fc_rows.
Proof.
  unfold T0.getPolygon. rewrite for_each_app. unfold bind at 1. intros Hrun.
  destruct (for_each rows (fun row => sendRequest row) w) as [[[]|] w1] eqn:Hfirst;
    [|discriminate].
  cbn [for_each] in Hrun. unfold bind at 1 in Hrun.
  destruct (sendRequest last w1) as [[[]|] w2] eqn:Hlast; [|discriminate].
  unfold ret in Hrun. injection Hrun as <-.
  destruct (sendRequest_success last w1 w2 Hlast) as (features & fc_rows & Hs & Hrows & Hfc).
  exists features, fc_rows. split; [|split; assumption].
  rewrite (for_each_appends (fun p => sendRequest p) (fun p => [fullURL p]) rows w w1
             (fun p wa wb => sendRequest_appends p wa wb) Hfirst) in Hs.
  rewrite length_app in Hs.
  assert (Hl : length (concat ((fun p => [fullURL p]) <$> rows)) = length rows).
  { clear. induction rows as [|p l IH]; [reflexivity|]. cbn. rewrite IH. reflexivity. }
  rewrite Hl in Hs. exact Hs.
Qed.

(** *** Without overwriteOutput *)

Lemma insert_feature_keeps (feature : json) (w : world) :
  is_Some (feature_classes w !! outputFC) →
  is_Some (feature_classes (insert_body feature w).2 !! outputFC).
Proof.
  intros [rs Hfc]. unfold T0.insert_feature, bind, lift, ret, raise, insertRow.
  destruct (jget "geometry" feature ≫= jget "coordinates") as [sc|]; [|eexists; exact Hfc].
  cbn [mbind option_bind].
  destruct (polylineArray float_of_string sc) as [pl|]; [|eexists; exact Hfc].
  destruct (jget "properties" feature ≫= jget "id") as [id|]; [|eexists; exact Hfc].
  rewrite Hfc. cbn. rewrite lookup_insert_eq. eexists. reflexivity.
Qed.

Lemma sendRequest_exists_fails (poly : Extent) (w : world) :
  overwriteOutput = false →
  is_Some (feature_classes w !! outputFC) →
  (sendRequest poly w).1 = None.
Proof.
  intros Hov [rs Hfc]. unfold T0.sendRequest, bind, urlopen.
  destruct (service (length (requests w)) (fullURL poly)) as [features|]; [|reflexivity].
  unfold T0.createFC, bind, CreateFeatureclass. cbn [feature_classes].
  rewrite Hfc, Hov. reflexivity.
Qed.

Lemma for_each_first_fails {A : Type} (body : A → M unit) (P : world → Prop)
    (l : list A) (w : world) :
  l ≠ [] → P w → (∀ x w, P w → (body x w).1 = None) →
  (for_each l body w).1 = None.
Proof.
  intros Hne HP Hbody. destruct l as [|x l]; [congruence|].
  cbn [for_each]. unfold bind. pose proof (Hbody x w HP) as Hx.
  destruct (body x w) as [[[]|] w1]; [discriminate | reflexivity].
Qed.

(** X19. Without overwriteOutput a run cannot get past the second polygon:
    every [sendRequest] creates the output feature class anew, so on an
    input with two or more polygons, geographic or projected, [getPolygon]
    raises. *)
Theorem getPolygon_needs_overwrite (rows : list Extent) (projected : bool) (w : world) :
  overwriteOutput = false →
  (2 ≤ length rows)%nat →
  (getPolygon rows projected w).1 = None.
Proof.
  intros Hov Hlen.
  assert (Hloop : ∀ (l : list Extent) (w0 : world), (2 ≤ length l)%nat →
            (for_each l (fun p => sendRequest p) w0).1 = None).
  { intros l w0 Hl. destruct l as [|a [|b l]]; cbn in Hl; [lia | lia |].
    cbn [for_each]. unfold bind at 1.
    destruct (sendRequest a w0) as [[[]|] w1] eqn:Ha; [|reflexivity].
    destruct (sendRequest_success a w0 w1 Ha) as (fs & fc_rows & _ & _ & Hfc).
    unfold bind at 1.
    pose proof (sendRequest_exists_fails b w1 Hov ltac:(eexists; exact Hfc)) as Hb.
    destruct (sendRequest b w1) as [[[]|] w2]; [discriminate | reflexivity]. }
  unfold T0.getPolygon. destruct projected.
  - destruct rows as [|a rows]; [cbn in Hlen; lia|].
    cbn [for_each]. unfold bind at 1.
    pose proof (Hloop (project <$> (a :: rows)) w
                  ltac:(rewrite length_fmap; exact Hlen)) as Hin.
    destruct (for_each (project <$> (a :: rows)) _ w) as [[[]|] w1];
      [discriminate | reflexivity].
  - apply Hloop, Hlen.
Qed.

(** X20. A feature without coordinates stops [createFC] where it stands:
    the call raises, and the output feature class keeps the rows of the
    line features that came before it in the response. *)
Theorem createFC_stops_at_bad_feature (good rest : list json) (bad : json) (w : world) :
  feature_classes w !! outputFC = None ∨ overwriteOutput = true →
  Forall line_feature good →
  jget "geometry" bad ≫= jget "coordinates" = None →
  ∃ w' rows,
    createFC (good ++ bad :: rest) w = (None, w')
    ∧ feature_classes w' !! outputFC = Some rows
    ∧ Forall2 (fun feature r => feature_id feature = Some r.1
                                ∧ feature_vertices feature = Some r.2) good rows.
Proof.
  intros Hcreate Hgood Hbad.
  set (w0 := {| requests := requests w;
                feature_classes := <[outputFC := []]> (feature_classes w) |}).
  assert (Hc : CreateFeatureclass overwriteOutput outputFC w = (Some tt, w0)).
  { unfold CreateFeatureclass. destruct (feature_classes w !! outputFC) eqn:E; [|done].
    destruct Hcreate as [?| ->]; done. }
  destruct (for_each_insert outputFC float_of_string good w0 [] Hgood)
    as (rows & Hrows & Hrun).
  { unfold w0. cbn [feature_classes]. apply lookup_insert_eq. }
  eexists _, rows. split; [|split; [|exact Hrows]].
  - unfold T0.createFC, bind at 1. rewrite Hc. rewrite for_each_app.
    unfold bind at 1. rewrite Hrun. cbn [for_each]. unfold bind at 1.
    unfold T0.insert_feature at 1. unfold bind at 1, lift at 1. rewrite Hbad.
    unfold raise. reflexivity.
  - cbn [feature_classes]. rewrite lookup_insert_eq. reflexivity.
Qed.

End T0Runs.

Lemma getPolygon_projected_requests_witness :
  match T0.getPolygon "key" "streets" (fun _ _ => "bounds")
          (fun _ _ => Some [street_feature]) true (fun _ => None) id
          [block_a; block_b] true empty_world with
  | (Some _, w') =>
      T0.requests w'
      = (T0.requests empty_world
         ++ concat (replicate (length [block_a; block_b])
                      (T0.fullURL "key" (fun _ _ => "bounds")
                       <$> (id <$> [block_a; block_b]))))%list
  | (None, _) => False
  end.
Proof.
  destruct (T0.getPolygon "key" "streets" (fun _ _ => "bounds")
              (fun _ _ => Some [street_feature]) true (fun _ => None) id
              [block_a; block_b] true empty_world) as [[[]|] w'] eqn:E.
  - exact (getPolygon_projected_requests "key" "streets" (fun _ _ => "bounds")
             (fun _ _ => Some [street_feature]) true (fun _ => None) id
             [block_a; block_b] empty_world w' E).
  - vm_compute in E. discriminate E.
Defined.

Lemma getPolygon_keeps_last_response_witness :
  match T0.getPolygon "key" "streets" (fun _ _ => "bounds")
          (fun n _ => if (n =? 0)%nat then Some [] else Some [street_feature])
          true (fun _ => None) id ([block_a] ++ [block_b]) false empty_world with
  | (Some _, w') =>
      ∃ features fc_rows,
        (if (length (T0.requests empty_world) + length [block_a] =? 0)%nat
         then Some [] else Some [street_feature]) = Some features
        ∧ T0.feature_classes w' !! "streets" = Some fc_rows
        ∧ Forall2 (fun feature r =>
                     jget "properties" feature ≫= jget "id" = Some (fst r)
                     ∧ (jget "geometry" feature ≫= jget "coordinates")
                       ≫= T0.polylineArray (fun _ => None) = Some (snd r))
                  features fc_rows
  | (None, _) => False
  end.
Proof.
  destruct (T0.getPolygon "key" "streets" (fun _ _ => "bounds")
              (fun n _ => if (n =? 0)%nat then Some [] else Some [street_feature])
              true (fun _ => None) id ([block_a] ++ [block_b]) false empty_world)
    as [[[]|] w'] eqn:E.
  - exact (getPolygon_keeps_last_response "key" "streets" (fun _ _ => "bounds")
             (fun n _ => if (n =? 0)%nat then Some [] else Some [street_feature])
             true (fun _ => None) id [block_a] block_b empty_world w' E).
  - vm_compute in E. discriminate E.
Defined.

Lemma getPolygon_needs_overwrite_witness :
  (T0.getPolygon "key" "streets" (fun _ _ => "bounds")
     (fun _ _ => Some [street_feature]) false (fun _ => None) id
     [block_a; block_b] false empty_world).1 = None.
Proof.
  apply getPolygon_needs_overwrite; [reflexivity | cbn; lia].
Defined.

Lemma createFC_stops_at_bad_feature_witness :
  ∃ w' rows,
    T0.createFC "streets" true (fun _ => None)
      ([street_feature] ++ JObj [] :: [street_feature]) empty_world
    = (None, w')
    ∧ T0.feature_classes w' !! "streets" = Some rows
    ∧ Forall2 (fun feature r => feature_id feature = Some r.1
                                ∧ feature_vertices feature = Some r.2)
              [street_feature] rows.
Proof.
  apply (createFC_stops_at_bad_feature "streets" true (fun _ => None)).
  - left. reflexivity.
  - repeat constructor; vm_compute; eauto.
  - reflexivity.
Defined.

(** ** T2: the measures of a correspondence *)

Section T2Measures.

Import T2.

Variable sin_degrees : Q → Q.
Variable angle_threshold : Q.

Lemma events_member (located : list located_event) (c cl : Z) (e : located_event) :
  e ∈ events located c cl ↔ e ∈ located ∧ curb_feature_ID e = c ∧ corridor_ID e = cl.
Proof.
  unfold events. rewrite elem_of_List_filter, andb_true_iff, !Z.eqb_eq. tauto.
Qed.

(** A row of [df] that passed the three filters is the aggregate of the
    events of a pair, of which there are at least two, with distinct least
    and greatest m-values. *)
Lemma screened_raw (located : list located_event) (cand : candidate) :
  cand ∈ T2.screened sin_degrees angle_threshold located →
  ∃ c cl, cand = aggregate ((c, cl), events located c cl)
          ∧ (1 < length (events located c cl))%nat
          ∧ Qeq_bool (m_located_min cand) (m_located_max cand) = false.
Proof.
  unfold T2.screened. rewrite !elem_of_List_filter.
  intros [[[Hin Hcount] Hne] _].
  apply list_elem_of_fmap in Hin as ([[c cl] g] & -> & Hg).
  apply elem_of_groupby in Hg as [_ ->]. rewrite group_is_events in *.
  exists c, cl. split; [reflexivity|]. split.
  - cbn [m_located_count aggregate snd] in Hcount. apply Nat.ltb_lt in Hcount. exact Hcount.
  - apply negb_true_iff in Hne. exact Hne.
Qed.

(** X21. Every row of the correspondence table has m_from < m_to, and the
    two measures are the least and the greatest m-value among the vertex
    events of the row's curb feature that were located on the row's
    centerline. *)
Theorem my_df_measures (located : list located_event) (c cl : Z) (m_from m_to : Q) :
  (c, cl, m_from, m_to) ∈ T2.my_df sin_degrees angle_threshold located →
  (m_from < m_to)%Q
  ∧ (∃ e, e ∈ located ∧ curb_feature_ID e = c ∧ corridor_ID e = cl
          ∧ m_located e = m_from)
  ∧ (∃ e, e ∈ located ∧ curb_feature_ID e = c ∧ corridor_ID e = cl
          ∧ m_located e = m_to)
  ∧ (∀ e, e ∈ located → curb_feature_ID e = c → corridor_ID e = cl →
          (m_from <= m_located e)%Q ∧ (m_located e <= m_to)%Q).
Proof.
  intros Hin.
  apply elem_of_my_df in Hin as (c0 & best & Hc0 & Hbest & Heq).
  destruct (idxmin_spec _ (group_nonempty _ _ Hc0)) as (best' & Hb' & Hbin & _).
  rewrite Hbest in Hb'. injection Hb' as <-.
  apply list_elem_of_filter in Hbin as [_ Hbdf].
  apply screened_raw in Hbdf as (c1 & cl1 & -> & Hcount & Hne).
  injection Heq as -> -> -> ->.
  cbn [c_curb_feature_ID c_corridor_ID m_located_min m_located_max aggregate fst snd]
    in Hne |- *.
  set (ms := m_located <$> events located c1 cl1) in *.
  assert (Hms : ms ≠ []).
  { unfold ms. destruct (events located c1 cl1); [cbn in Hcount; lia | discriminate]. }
  destruct (q_min_spec ms Hms) as [Hmin_in Hmin].
  destruct (q_max_spec ms Hms) as [Hmax_in Hmax].
  assert (Hev : ∀ m, m ∈ ms →
            ∃ e, e ∈ located ∧ curb_feature_ID e = c1 ∧ corridor_ID e = cl1
                 ∧ m_located e = m).
  { intros m Hm. apply list_elem_of_fmap in Hm as (e & -> & He).
    apply events_member in He as (He & Hc & Hcl). exists e. repeat split; assumption. }
  split; [|split; [apply Hev, Hmin_in | split; [apply Hev, Hmax_in|]]].
  - pose proof (Hmin _ Hmax_in) as Hle.
    destruct (Qlt_le_dec (q_min ms) (q_max ms)) as [Hlt|Hge]; [exact Hlt|].
    assert (E : (q_min ms == q_max ms)%Q) by lra.
    apply Qeq_bool_iff in E. congruence.
  - intros e He Hc Hcl.
    assert (Hm : m_located e ∈ ms).
    { unfold ms. apply list_elem_of_fmap. exists e. split; [reflexivity|].
      apply events_member. repeat split; assumption. }
    split; [apply Hmin, Hm | apply Hmax, Hm].
Qed.

End T2Measures.

Lemma my_df_measures_witness :
  (0 < 95)%Q
  ∧ (∃ e, e ∈ located_example ∧ T2.curb_feature_ID e = 1%Z ∧ T2.corridor_ID e = 11%Z
          ∧ T2.m_located e = 0%Q)
  ∧ (∃ e, e ∈ located_example ∧ T2.curb_feature_ID e = 1%Z ∧ T2.corridor_ID e = 11%Z
          ∧ T2.m_located e = 95%Q)
  ∧ (∀ e, e ∈ located_example → T2.curb_feature_ID e = 1%Z → T2.corridor_ID e = 11%Z →
          (0 <= T2.m_located e)%Q ∧ (T2.m_located e <= 95)%Q).
Proof.
  apply (my_df_measures (fun _ => (342 # 1000)%Q) 20 located_example 1 11 0 95).
  vm_compute. left.
Defined.

(** ** The shared-row evaluator: no scenario is wider than the street *)

Section ScenarioWidths.

Import shared_row_data_evaluator.

Lemma narrowed_refl (r : gmap string Q) : narrowed r r.
Proof. intros c _ H. split; [exact H | apply Qle_refl]. Qed.

Lemma narrowed_trans (a b c : gmap string Q) : narrowed a b → narrowed b c → narrowed a c.
Proof.
  intros Hab Hbc x Hx Ha. destruct (Hab x Hx Ha) as [Hb0 Hba].
  destruct (Hbc x Hx Hb0) as [Hc0 Hcb]. split; [exact Hc0 | lra].
Qed.

Lemma frame_narrowed_refl (df : NumFrame) : frame_narrowed df df.
Proof. unfold frame_narrowed. induction (nrows df); constructor; auto using narrowed_refl. Qed.

Lemma frame_narrowed_trans (a b c : NumFrame) :
  frame_narrowed a b → frame_narrowed b c → frame_narrowed a c.
Proof. unfold frame_narrowed. apply Forall2_trans, narrowed_trans. Qed.

Lemma narrowed_map (g : gmap string Q → gmap string Q) (l : list (gmap string Q)) :
  (∀ r, narrowed r (g r)) → Forall2 narrowed l (g <$> l).
Proof. intros Hg. induction l; cbn; constructor; auto. Qed.

(** An assignment of a value between 0 and the width it replaces. *)
Lemma narrowed_insert (r : gmap string Q) (c : string) (v : Q) :
  ((0 <= num r c)%Q → (0 <= v)%Q ∧ (v <= num r c)%Q) →
  narrowed r (<[c := v]> r).
Proof.
  intros Hv x _ Hx. destruct (decide (c = x)) as [<-|Hne].
  - rewrite num_insert_eq. apply Hv, Hx.
  - rewrite num_insert_ne by exact Hne. split; [exact Hx | apply Qle_refl].
Qed.

Lemma frame_narrowed_zero (c : string) (df : NumFrame) :
  frame_narrowed df (set_column c (fun _ => 0%Q) df).
Proof.
  unfold frame_narrowed. rewrite nrows_set_column. apply narrowed_map.
  intros r. apply narrowed_insert. intros H. split; [apply Qle_refl | exact H].
Qed.

Lemma where_gt_nonneg (x m : Q) : (0 <= m)%Q → (0 <= x)%Q → (0 <= where_gt x m)%Q.
Proof. intros Hm Hx. unfold where_gt. destruct (Qcompare x m); assumption. Qed.

Lemma frame_narrowed_cap_lanes (lanes : list string) (m : Q) (df : NumFrame) :
  (0 <= m)%Q → frame_narrowed df (cap_lanes lanes m df).
Proof.
  intros Hm. unfold cap_lanes. revert df.
  induction lanes as [|c lanes IH]; intros df; cbn; [apply frame_narrowed_refl|].
  eapply frame_narrowed_trans; [|apply IH].
  unfold frame_narrowed. rewrite nrows_set_column. apply narrowed_map.
  intros r. apply narrowed_insert. intros H.
  split; [apply where_gt_nonneg; assumption | apply where_gt_le_arg].
Qed.

(** Every width the worker of the road diet returns is the width passed
    in or 0. *)
Lemma diet_values (lock_last_lane : bool) (lanes : list Q) (i : nat) :
  remove_centermost_lane lock_last_lane lanes !! i = lanes !! i
  ∨ remove_centermost_lane lock_last_lane lanes !! i = Some 0%Q.
Proof.
  revert i. rewrite remove_centermost_lane_fold.
  apply (diet_fold_inv (fun row => ∀ i, row !! i = lanes !! i ∨ row !! i = Some 0%Q));
    [|intros i; left; reflexivity].
  intros row idx Hrow.
  assert (Hins : ∀ j i, <[j := 0%Q]> row !! i = lanes !! i
                        ∨ <[j := 0%Q]> row !! i = Some 0%Q).
  { intros j i. destruct (decide (j = i)) as [<-|Hne].
    - destruct (decide (j < length row)%nat) as [Hlt|Hge].
      + right. apply list_lookup_insert_eq. exact Hlt.
      + rewrite list_insert_ge by lia. apply Hrow.
    - rewrite list_lookup_insert_ne by exact Hne. apply Hrow. }
  unfold diet_step. destruct (row !! idx); [|exact Hrow].
  destruct (_ && _); [apply Hins|].
  destruct (_ =? _)%nat; [apply Hins | exact Hrow].
Qed.

Lemma fold_insert_cases (kvs : list (string * Q)) (r0 r : gmap string Q) (c : string) :
  (∀ kv, kv ∈ kvs → kv.2 = num r0 kv.1 ∨ kv.2 = 0%Q) →
  num r c = num r0 c ∨ num r c = 0%Q →
  num (foldl (fun r cv => <[cv.1 := cv.2]> r) r kvs) c = num r0 c
  ∨ num (foldl (fun r cv => <[cv.1 := cv.2]> r) r kvs) c = 0%Q.
Proof.
  revert r. induction kvs as [|[k v] kvs IH]; intros r Hkvs Hr; cbn; [exact Hr|].
  apply IH; [intros kv Hkv; apply Hkvs; right; exact Hkv|].
  cbn. destruct (decide (k = c)) as [->|Hne].
  - rewrite num_insert_eq. apply (Hkvs (c, v)). left.
  - rewrite num_insert_ne by exact Hne. exact Hr.
Qed.

Lemma frame_narrowed_apply_lanes (lock : bool) (lanes : list string) (df : NumFrame) :
  frame_narrowed df (apply_lanes lock lanes df).
Proof.
  unfold frame_narrowed, apply_lanes. cbn [nrows]. apply narrowed_map.
  intros r c _ Hc.
  assert (Hcases : ∀ kv, kv ∈ zip lanes (remove_centermost_lane lock (num r <$> lanes)) →
                         kv.2 = num r kv.1 ∨ kv.2 = 0%Q).
  { intros [k v] Hkv. apply list_elem_of_lookup in Hkv as [i Hi].
    apply lookup_zip_with_Some in Hi as (k' & v' & [= -> ->] & Hk & Hv). cbn.
    destruct (diet_values lock (num r <$> lanes) i) as [E|E]; rewrite E in Hv.
    - rewrite list_lookup_fmap, Hk in Hv. injection Hv as <-. left. reflexivity.
    - injection Hv as <-. right. reflexivity. }
  destruct (fold_insert_cases _ r r c Hcases (or_introl eq_refl)) as [E|E]; rewrite E.
  - split; [exact Hc | apply Qle_refl].
  - split; [apply Qle_refl | exact Hc].
Qed.

Lemma frame_narrowed_iter (g : NumFrame → NumFrame) (n : nat) (df : NumFrame) :
  (∀ d, frame_narrowed d (g d)) → frame_narrowed df (Nat.iter n g df).
Proof.
  intros Hg. induction n as [|n IH]; cbn; [apply frame_narrowed_refl|].
  eapply frame_narrowed_trans; [exact IH | apply Hg].
Qed.

Lemma narrowed_update_fn (st : state) (r : gmap string Q) : narrowed r (update_fn st r).
Proof.
  intros c Hc H. rewrite num_update_fn_other by (apply not_derived_not_updated, Hc).
  split; [exact H | apply Qle_refl].
Qed.

Lemma total_update_fn (st : state) (r : gmap string Q) :
  slices_ok st →
  num (update_fn st r) "Total_ROW_Width" = sum_axis1 (row_slices st) (update_fn st r).
Proof.
  intros Hok. transitivity (sum_axis1 (row_slices st) r).
  - unfold update_fn. rewrite !num_insert_ne by discriminate. apply num_insert_eq.
  - apply sum_axis1_ext. intros x Hx. symmetry. apply num_update_fn_other.
    apply not_derived_not_updated, Hok. rewrite !elem_of_app. auto.
Qed.

(** What an editor does to the table of its scenario before [update_row]. *)
Lemma call_narrows (st : state) (e : editor) :
  ∃ df1, frame_narrowed (scenario_or_copy st (scenario_of e)) df1
         ∧ call st e
           = with_frames st (sr_df st)
               (<[scenario_of e := update_frame st df1]> (scenario_dfs st))
               (setdefault_columns (added_columns st) (scenario_of e)).
Proof.
  assert (Hfoot : ∀ n : Q, (0 <= n)%Q → (0 <= n * foot)%Q).
  { intros n Hn. apply Qmult_le_0_compat; [exact Hn | discriminate]. }
  destruct e as [k|k r l|k n lock]; cbn [call scenario_of];
    unfold right_size_row, remove_parking_lanes, apply_road_diet;
    rewrite update_row_inserted; eexists; (split; [|reflexivity]).
  - eapply frame_narrowed_trans; [|apply frame_narrowed_cap_lanes, Hfoot; discriminate].
    eapply frame_narrowed_trans; [|apply frame_narrowed_cap_lanes, Hfoot; discriminate].
    apply frame_narrowed_cap_lanes, Hfoot. discriminate.
  - assert (Hset : ∀ (fields : list string) (b : bool) (d : NumFrame),
              frame_narrowed d match fields with
                               | parking_field :: _ =>
                                   if b then set_column parking_field (fun _ => 0%Q) d else d
                               | [] => d
                               end).
    { intros [|c cs] b d; [apply frame_narrowed_refl|].
      destruct b; [apply frame_narrowed_zero | apply frame_narrowed_refl]. }
    eapply frame_narrowed_trans; apply Hset.
  - eapply frame_narrowed_trans;
      [|apply frame_narrowed_iter; intros d; apply frame_narrowed_apply_lanes].
    eapply frame_narrowed_trans;
      [|apply frame_narrowed_iter; intros d; apply frame_narrowed_apply_lanes].
    eapply frame_narrowed_trans; apply frame_narrowed_zero.
Qed.

Lemma call_widths_inv (st0 st : state) (e : editor) :
  evaluator_inv st0 st → widths_inv st0 st → widths_inv st0 (call st e).
Proof.
  intros (Hsr & Hok & _) (Hslices & Hsc).
  destruct (call_narrows st e) as (df1 & Hdf1 & ->).
  split; [exact Hslices|].
  intros k df. cbn [scenario_dfs with_frames].
  destruct (decide (scenario_of e = k)) as [<-|Hne].
  - rewrite lookup_insert_eq. intros [= <-]. rewrite nrows_update_frame.
    assert (Hstart : Forall2 narrowed (nrows (sr_df st0))
                       (nrows (scenario_or_copy st (scenario_of e)))).
    { unfold scenario_or_copy.
      destruct (scenario_dfs st !! scenario_of e) as [df0|] eqn:E; cbn.
      - eapply Forall2_impl; [apply (Hsc _ _ E)|]. intros r0 r [H _]. exact H.
      - rewrite Hsr. apply frame_narrowed_refl. }
    pose proof (Forall2_trans _ _ _ _ _ _ narrowed_trans Hstart Hdf1) as Hpre.
    apply Forall2_fmap_r. eapply Forall2_impl; [exact Hpre|].
    intros r0 r Hr. split.
    + eapply narrowed_trans; [exact Hr | apply narrowed_update_fn].
    + rewrite <- Hslices. apply total_update_fn, Hok.
  - rewrite lookup_insert_ne by exact Hne. apply Hsc.
Qed.

Lemma calls_widths_inv (st0 st : state) (calls : list editor) :
  evaluator_inv st0 st ∧ widths_inv st0 st →
  evaluator_inv st0 (foldl call st calls) ∧ widths_inv st0 (foldl call st calls).
Proof.
  revert st. induction calls as [|e calls IH]; intros st H0; cbn; [exact H0|].
  apply IH. destruct H0 as [He Hw].
  split; [apply call_inv, He | apply call_widths_inv; assumption].
Qed.

Lemma sum_axis1_mono (cols : list string) (r r' : gmap string Q) :
  (∀ c, c ∈ cols → (num r c <= num r' c)%Q) →
  (sum_axis1 cols r <= sum_axis1 cols r')%Q.
Proof.
  unfold sum_axis1. intros H.
  assert (Hgen : ∀ a b : Q, (a <= b)%Q →
            (foldl (fun s c => s + num r c) a cols
             <= foldl (fun s c => s + num r' c) b cols)%Q).
  { revert H. induction cols as [|c cols IH]; intros H a b Hab; cbn; [exact Hab|].
    apply IH; [intros x Hx; apply H; right; exact Hx|].
    pose proof (H c ltac:(left)). lra. }
  apply Hgen, Qle_refl.
Qed.

(** *** The table the initializer leaves *)

Lemma init_rows (df : NumFrame) (st : state) :
  init df = Some st → nrows (sr_df st) = init_fn st (ncolumns df) <$> nrows df.
Proof.
  unfold init. destruct (bool_decide _); [|discriminate]. intros [= <-].
  cbn [sr_df]. rewrite !nrows_set_column. unfold fillna0. cbn [nrows ncolumns].
  rewrite <- !list_fmap_compose. reflexivity.
Qed.

Lemma num_fillna (cols : list string) (r : gmap string Q) (c : string) :
  num (foldl (fun r c => match r !! c with
                         | None => <[c := 0%Q]> r
                         | Some _ => r
                         end) r cols) c = num r c.
Proof.
  revert r. induction cols as [|a cols IH]; intros r; cbn; [reflexivity|].
  rewrite IH. destruct (r !! a) eqn:E; [reflexivity|].
  destruct (decide (a = c)) as [<-|Hne].
  - rewrite num_insert_eq. unfold num. rewrite E. reflexivity.
  - apply num_insert_ne, Hne.
Qed.

Lemma init_slice_names (df : NumFrame) (st : state) (c : string) :
  init df = Some st → c ∈ row_slices st →
  c ∉ derived_cols ∧ c ≠ "Right_Thru_Lane_Widths" ∧ c ≠ "Left_Thru_Lane_Widths".
Proof.
  intros Hinit Hc.
  pose proof (init_slices_ok df st Hinit) as Hok.
  destruct (init_lists df st Hinit) as (HL & HR & HS & _).
  split; [apply Hok; rewrite !elem_of_app; auto|].
  split; intros ->; destruct (HS _ Hc) as [H|[H|H]];
    first [ apply HL in H; vm_compute in H; discriminate H
          | apply HR in H; vm_compute in H; discriminate H
          | unfold fixed_slices in H;
            repeat (apply elem_of_cons in H as [H|H]; [discriminate H|]);
            apply elem_of_nil in H; destruct H ].
Qed.

Lemma num_init_fn (df : NumFrame) (st : state) (r : gmap string Q) (c : string) :
  init df = Some st → c ∈ row_slices st →
  num (init_fn st (ncolumns df) r) c = num r c.
Proof.
  intros Hinit Hc. destruct (init_slice_names df st c Hinit Hc) as (Hd & Hr & Hl).
  unfold init_fn, derived_cols in *.
  rewrite !num_insert_ne by (intros <-; first [ apply Hr; reflexivity
                                               | apply Hl; reflexivity
                                               | apply Hd; set_solver ]).
  apply num_fillna.
Qed.

Lemma init_fn_totals (df : NumFrame) (st : state) (r : gmap string Q) :
  init df = Some st →
  num (init_fn st (ncolumns df) r) "Total_ROW_Width"
  = sum_axis1 (row_slices st) (init_fn st (ncolumns df) r)
  ∧ num (init_fn st (ncolumns df) r) "Base_Total_ROW_Width"
    = num (init_fn st (ncolumns df) r) "Total_ROW_Width".
Proof.
  intros Hinit. split.
  - transitivity (sum_axis1 (row_slices st) r).
    + unfold init_fn. rewrite !num_insert_ne by discriminate. rewrite num_insert_eq.
      apply sum_axis1_ext. intros x Hx.
      destruct (init_slice_names df st x Hinit Hx) as (_ & Hr & Hl).
      rewrite !num_insert_ne by congruence. apply num_fillna.
    + apply sum_axis1_ext. intros x Hx. symmetry. apply (num_init_fn df), Hx. exact Hinit.
  - unfold init_fn.
    repeat first [ rewrite num_insert_eq | rewrite num_insert_ne by discriminate ].
    reflexivity.
Qed.

(** X22. No scenario is wider than the street: when no slice of the table
    passed to the initializer has a negative width, then after any
    sequence of calls of [right_size_row], [remove_parking_lanes] and
    [apply_road_diet] every row of every scenario has each of its slices
    between 0 and the width the street has, a Total_ROW_Width that is at
    most that of the street, and an Unused_ROW_Width that is not negative. *)
Theorem scenarios_never_wider (df : NumFrame) (st0 : state) (calls : list editor) :
  init df = Some st0 →
  (∀ r c, r ∈ nrows df → c ∈ row_slices st0 → (0 <= num r c)%Q) →
  ∀ k scen,
    scenario_dfs (foldl call st0 calls) !! k = Some scen →
    Forall2 (fun r0 r =>
               (∀ c, c ∈ row_slices st0 → (0 <= num r c)%Q ∧ (num r c <= num r0 c)%Q)
               ∧ (num r "Total_ROW_Width" <= num r0 "Total_ROW_Width")%Q
               ∧ (0 <= num r "Unused_ROW_Width")%Q)
            (nrows (sr_df st0)) (nrows scen).
Proof.
  intros Hinit Hpos k scen Hscen.
  assert (Hinv : evaluator_inv st0 (foldl call st0 calls)
                 ∧ widths_inv st0 (foldl call st0 calls)).
  { assert (H0 : evaluator_inv st0 st0 ∧ widths_inv st0 st0).
    { destruct (init_lists df st0 Hinit) as (_ & _ & _ & _ & _ & Hempty).
      split; [split; [reflexivity|split; [eapply init_slices_ok, Hinit|]] | split;
        [reflexivity|]]; intros k' df'; rewrite Hempty, lookup_empty; discriminate. }
    apply calls_widths_inv, H0. }
  destruct Hinv as [(_ & _ & Hframes) (_ & Hwidths)].
  pose proof (Hframes k scen Hscen) as Hok. pose proof (Hwidths k scen Hscen) as Hw.
  pose proof (init_slices_ok df st0 Hinit) as Hslices.
  apply Forall2_same_length_lookup_2; [eapply Forall2_length, Hw|].
  intros i r0 r Hr0 Hr.
  destruct (Forall2_lookup_lr _ _ _ _ _ _ Hw Hr0 Hr) as [Hnar Htot].
  destruct (Forall2_lookup_lr _ _ _ _ _ _ Hok Hr0 Hr) as (Hbase & Hsum & _).
  rewrite (init_rows df st0 Hinit), list_lookup_fmap in Hr0.
  destruct (nrows df !! i) as [rin|] eqn:Hin; [|discriminate].
  injection Hr0 as <-.
  destruct (init_fn_totals df st0 rin Hinit) as [Htot0 Hbase0].
  assert (Hbound : ∀ c, c ∈ row_slices st0 →
            (0 <= num r c)%Q ∧ (num r c <= num (init_fn st0 (ncolumns df) rin) c)%Q).
  { intros c Hc. apply Hnar.
    - apply Hslices. rewrite !elem_of_app. auto.
    - rewrite (num_init_fn df) by assumption. apply Hpos; [|exact Hc].
      eapply list_elem_of_lookup_2, Hin. }
  assert (Hle : (num r "Total_ROW_Width"
                 <= num (init_fn st0 (ncolumns df) rin) "Total_ROW_Width")%Q).
  { rewrite Htot, Htot0. apply sum_axis1_mono. intros c Hc. apply Hbound, Hc. }
  split; [exact Hbound|]. split; [exact Hle|].
  rewrite Hbase, Hbase0 in Hsum. lra.
Qed.

End ScenarioWidths.

Lemma scenarios_never_wider_witness :
  match shared_row_data_evaluator.init street with
  | Some st0 =>
      let calls := [ shared_row_data_evaluator.Right_size_row "Plan";
                     shared_row_data_evaluator.Apply_road_diet "Plan" 2 true;
                     shared_row_data_evaluator.Remove_parking_lanes "Plan" true true ] in
      ∃ scen,
        shared_row_data_evaluator.scenario_dfs
          (foldl shared_row_data_evaluator.call st0 calls) !! "Plan" = Some scen
        ∧ Forall2 (fun r0 r =>
                     (∀ c, c ∈ shared_row_data_evaluator.row_slices st0 →
                           (0 <= shared_row_data_evaluator.num r c)%Q
                           ∧ (shared_row_data_evaluator.num r c
                              <= shared_row_data_evaluator.num r0 c)%Q)
                     ∧ (shared_row_data_evaluator.num r "Total_ROW_Width"
                        <= shared_row_data_evaluator.num r0 "Total_ROW_Width")%Q
                     ∧ (0 <= shared_row_data_evaluator.num r "Unused_ROW_Width")%Q)
                  (shared_row_data_evaluator.nrows (shared_row_data_evaluator.sr_df st0))
                  (shared_row_data_evaluator.nrows scen)
  | None => False
  end.
Proof.
  destruct (shared_row_data_evaluator.init street) as [st0|] eqn:E;
    [|vm_compute in E; discriminate E].
  cbv zeta. cbn [foldl].
  match goal with
  | |- context [shared_row_data_evaluator.call ?st ?e] =>
      lazymatch st with
      | shared_row_data_evaluator.call (shared_row_data_evaluator.call _ _) _ =>
          destruct (call_frames st e) as [df Hdf]
      end
  end.
  eexists. split.
  - rewrite Hdf. cbn [shared_row_data_evaluator.scenario_dfs
                       shared_row_data_evaluator.with_frames
                       shared_row_data_evaluator.scenario_of].
    apply lookup_insert_eq.
  - refine (scenarios_never_wider street st0
              [ shared_row_data_evaluator.Right_size_row "Plan";
                shared_row_data_evaluator.Apply_road_diet "Plan" 2 true;
                shared_row_data_evaluator.Remove_parking_lanes "Plan" true true ]
              E _ "Plan" _ _).
    + intros r c Hr _. unfold street in Hr. cbn [shared_row_data_evaluator.nrows] in Hr.
      unfold shared_row_data_evaluator.num.
      repeat (apply elem_of_cons in Hr as [->|Hr]);
        [ .. | apply elem_of_nil in Hr; destruct Hr ];
        (match goal with
         | |- (0 <= default 0 (?m !! c))%Q =>
             destruct (m !! c) as [q|] eqn:Hq; [|apply Qle_refl]
         end;
         apply elem_of_list_to_map_2 in Hq;
         repeat (apply elem_of_cons in Hq as [Hq|Hq];
                 [injection Hq as _ ->; discriminate|]);
         apply elem_of_nil in Hq; destruct Hq).
    + cbn [foldl]. rewrite Hdf.
      cbn [shared_row_data_evaluator.scenario_dfs
           shared_row_data_evaluator.with_frames
           shared_row_data_evaluator.scenario_of].
      apply lookup_insert_eq.
Defined.
